(** * Chat state engine of [server/server.js]: a shallow embedding

    The server keeps four module-level maps ([users], [usernameToSocketId],
    [rooms], [privateThreads]) and mutates them from socket.io event handlers
    and Express routes.  Each handler is embedded as a function from the
    state before the event to the state after it, together with the
    acknowledgement and the events it emits.  Values the handlers draw from
    the host ([uuidv4()], [new Date().toISOString()], [localeCompare]) are
    explicit arguments, and so is the engine's [toLowerCase]. *)

From stdpp Require Import base gmap sets list strings sorting.
From Stdlib Require Import ZArith Lia Sorted.

Set Warnings "-clear-no-such-hyp".

Open Scope Z_scope.
Open Scope nat_scope.

(** ** JavaScript strings

    A JavaScript string is a sequence of UTF-16 code units; [s.length] is the
    number of code units. *)

Abbreviation jsstring := (list N).

(** ASCII literals, for readable examples. *)
Definition js (s : string) : jsstring :=
  List.map Ascii.N_of_ascii (String.list_ascii_of_string s).

(** A string is truthy when it is not empty. *)
Definition truthy (s : jsstring) : bool :=
  match s with [] => false | _ :: _ => true end.

(** [WhiteSpace] and [LineTerminator] code points, the ones
    [String.prototype.trim] strips. *)
Definition isWhiteSpace (c : N) : bool :=
  existsb (N.eqb c)
    [0x0009; 0x000A; 0x000B; 0x000C; 0x000D; 0x0020; 0x00A0; 0x1680;
     0x2000; 0x2001; 0x2002; 0x2003; 0x2004; 0x2005; 0x2006; 0x2007;
     0x2008; 0x2009; 0x200A; 0x2028; 0x2029; 0x202F; 0x205F; 0x3000;
     0xFEFF]%N.

Fixpoint trimStart (s : jsstring) : jsstring :=
  match s with
  | c :: s' => if isWhiteSpace c then trimStart s' else s
  | [] => []
  end.

Definition trimEnd (s : jsstring) : jsstring := rev (trimStart (rev s)).

Definition trim (s : jsstring) : jsstring := trimEnd (trimStart s).

(** ** JavaScript [Set], where the insertion order is observable

    [user.rooms], [room.members] and [room.typing] are iterated or copied
    with [Array.from]; they are lists without duplicates in insertion
    order. *)
Module JsSet.
Definition has (x : jsstring) (s : list jsstring) : bool :=
  bool_decide (x ∈ s).
Definition add (x : jsstring) (s : list jsstring) : list jsstring :=
  if has x s then s else s ++ [x].
Definition delete (x : jsstring) (s : list jsstring) : list jsstring :=
  List.filter (fun y => negb (bool_decide (y = x))) s.
End JsSet.

(** ** Data model *)

(** [message.reactions] is a [Map] from emoji to a [Set] of usernames, and
    [deliveredTo] / [readBy] are [Set]s of usernames.  The data model takes
    them up to insertion order, so they are finite maps and finite sets. *)
Record Message := mkMessage {
  msg_id : jsstring;
  msg_roomId : jsstring;
  msg_sender : jsstring;
  msg_senderId : jsstring;
  msg_body : jsstring;
  msg_timestamp : jsstring;
  msg_attachments : list jsstring;
  msg_isSystem : bool;
  msg_isPrivate : bool;
  msg_reactions : option (gmap jsstring (gset jsstring));
  msg_deliveredTo : option (gset jsstring);
  msg_readBy : option (gset jsstring);
  msg_tempId : option jsstring
}.

Record User := mkUser {
  user_id : jsstring;
  user_username : jsstring;
  user_status : jsstring;
  user_activeRoom : jsstring;
  user_rooms : list jsstring;
  user_lastSeen : jsstring
}.

Record Room := mkRoom {
  room_id : jsstring;
  room_name : jsstring;
  room_description : jsstring;
  room_createdAt : jsstring;
  room_createdBy : jsstring;
  room_messages : list Message;
  room_members : list jsstring;
  room_typing : list jsstring
}.

Record Thread := mkThread {
  thread_id : jsstring;
  thread_participants : list jsstring;
  thread_messages : list Message;
  thread_createdAt : jsstring
}.

Definition MAX_ROOM_MESSAGES : nat := 250.
Definition MAX_PRIVATE_MESSAGES : nat := 250.

(** ** Message log *)

(** [collection.splice(0, collection.length - max)] when the collection is
    longer than [max]. *)
Definition trimMessages {A : Type} (collection : list A) (max : nat) : list A :=
  if max <? length collection
  then drop (length collection - max) collection
  else collection.

Definition set_room_messages (room : Room) (ms : list Message) : Room :=
  mkRoom (room_id room) (room_name room) (room_description room)
    (room_createdAt room) (room_createdBy room) ms
    (room_members room) (room_typing room).

Definition set_thread_messages (thread : Thread) (ms : list Message) : Thread :=
  mkThread (thread_id thread) (thread_participants thread) ms
    (thread_createdAt thread).

Definition addMessageToRoom (room : Room) (message : Message) : Room :=
  set_room_messages room
    (trimMessages (room_messages room ++ [message]) MAX_ROOM_MESSAGES).

Definition addMessageToThread (thread : Thread) (message : Message) : Thread :=
  set_thread_messages thread
    (trimMessages (thread_messages thread ++ [message]) MAX_PRIVATE_MESSAGES).

(** The last [n] elements of a list, in their order. *)
Definition lastn {A : Type} (n : nat) (l : list A) : list A :=
  drop (length l - n) l.

(** ** Host functions on strings *)

(** [String.prototype.toLowerCase] is the engine's: the lower-casing of
    Unicode, which maps every cased letter, may change the length of the
    string (U+0130 becomes two code units) and looks at the context (the
    final sigma).  The development is parametric in it. *)
Class Host := { toLowerCase : jsstring -> jsstring }.

(** The lower-casing of the Basic Latin and Latin-1 letters, the other code
    units kept as they are.  The engine's agrees with it on the strings
    whose code units are all below U+0100; it stands for the engine's in
    the examples, which are written in Basic Latin. *)
Definition lowerUnit (c : N) : N :=
  if ((0x41 <=? c) && (c <=? 0x5A))%N then (c + 0x20)%N
  else if ((0xC0 <=? c) && (c <=? 0xDE) && negb (c =? 0xD7))%N then (c + 0x20)%N
  else c.

Definition latin1 : Host := {| toLowerCase := List.map lowerUnit |}.

Fixpoint startsWith (s t : jsstring) : bool :=
  match t, s with
  | [], _ => true
  | _ :: _, [] => false
  | b :: t', a :: s' => (a =? b)%N && startsWith s' t'
  end.

(** [s.includes(t)]: [t] occurs in [s] as a run of consecutive code units. *)
Fixpoint includes (s t : jsstring) : bool :=
  startsWith s t ||
  match s with
  | [] => false
  | _ :: s' => includes s' t
  end.

(** ** JavaScript [Map] in insertion order

    [rooms] is iterated with [Array.from(rooms.values())]: the order in which
    the rooms were created is observable. *)
Module JsMap.
Section Ops.
Context {V : Type}.

Fixpoint get (k : jsstring) (m : list (jsstring * V)) : option V :=
  match m with
  | [] => None
  | (k', v) :: m' => if decide (k' = k) then Some v else get k m'
  end.

Definition has (k : jsstring) (m : list (jsstring * V)) : bool :=
  match get k m with Some _ => true | None => false end.

(** An existing key keeps its place; a new key goes last. *)
Fixpoint set (k : jsstring) (v : V) (m : list (jsstring * V))
  : list (jsstring * V) :=
  match m with
  | [] => [(k, v)]
  | (k', v') :: m' =>
      if decide (k' = k) then (k, v) :: m' else (k', v') :: set k v m'
  end.

Definition values (m : list (jsstring * V)) : list V := List.map snd m.
End Ops.
End JsMap.

(** [Array.prototype.slice(start, end)], negative indices counting from the
    end of the array. *)
Definition relIndex (i len : Z) : Z :=
  if (i <? 0)%Z then Z.max (len + i) 0 else Z.min i len.

Definition slice {A : Type} (l : list A) (start fin : Z) : list A :=
  let len := Z.of_nat (length l) in
  let from := relIndex start len in
  let final := relIndex fin len in
  take (Z.to_nat (final - from)) (drop (Z.to_nat from) l).

(** [slice(start)]: up to the end. *)
Definition sliceFrom {A : Type} (l : list A) (start : Z) : list A :=
  slice l start (Z.of_nat (length l)).

(** [findIndex]: the first index whose element satisfies [p], or -1. *)
Fixpoint findIndex {A : Type} (p : A -> bool) (l : list A) : Z :=
  match l with
  | [] => (-1)%Z
  | x :: l' =>
      if p x then 0%Z
      else let r := findIndex p l' in
           if (r =? -1)%Z then (-1)%Z else (r + 1)%Z
  end.

(** [array[i]] for an integer [i]: [undefined] out of range. *)
Definition at_index {A : Type} (l : list A) (i : Z) : option A :=
  if (i <? 0)%Z then None else l !! Z.to_nat i.

(** [array.find(p)] *)
Definition find_first {A : Type} (p : A -> bool) (l : list A) : option A :=
  List.find p l.

(** ** Server state

    The four maps of the module.  [typingTimers], the pending timeouts of
    the typing indicator, is outside the model, and so is the membership of
    sockets in socket.io rooms, which the transport keeps. *)

Record Server := mkServer {
  users : gmap jsstring User;
  usernameToSocketId : gmap jsstring jsstring;
  rooms : list (jsstring * Room);
  privateThreads : gmap jsstring Thread
}.

(** ** Serialisation *)

(** [x || null] on an optional string. *)
Definition orNull (x : option jsstring) : option jsstring :=
  match x with
  | Some s => if truthy s then Some s else None
  | None => None
  end.

(** The wire form of a message has the fields of the record; arrays stand
    where the record has sets, and are taken up to order. *)
Definition serializeMessage (message : Message) : Message :=
  {| msg_id := msg_id message;
     msg_roomId := msg_roomId message;
     msg_sender := msg_sender message;
     msg_senderId := msg_senderId message;
     msg_body := msg_body message;
     msg_timestamp := msg_timestamp message;
     msg_attachments := msg_attachments message;
     msg_isSystem := msg_isSystem message;
     msg_isPrivate := msg_isPrivate message;
     msg_reactions := Some (default ∅ (msg_reactions message));
     msg_deliveredTo := Some (default ∅ (msg_deliveredTo message));
     msg_readBy := Some (default ∅ (msg_readBy message));
     msg_tempId := orNull (msg_tempId message) |}.

Record SerializedRoom := mkSerializedRoom {
  sroom_id : jsstring;
  sroom_name : jsstring;
  sroom_description : jsstring;
  sroom_createdAt : jsstring;
  sroom_createdBy : jsstring;
  sroom_memberCount : nat;
  sroom_hasMore : bool;
  sroom_messages : list Message
}.

Definition serializeRoom (room : Room) (limit : Z) : SerializedRoom :=
  let messages := List.map serializeMessage (sliceFrom (room_messages room) (- limit)) in
  {| sroom_id := room_id room;
     sroom_name := room_name room;
     sroom_description := room_description room;
     sroom_createdAt := room_createdAt room;
     sroom_createdBy := room_createdBy room;
     sroom_memberCount := length (room_members room);
     sroom_hasMore := length messages <? length (room_messages room);
     sroom_messages := messages |}.

Record SerializedThread := mkSerializedThread {
  sthread_id : jsstring;
  sthread_participants : list jsstring;
  sthread_counterpart : option jsstring;
  sthread_createdAt : jsstring;
  sthread_hasMore : bool;
  sthread_messages : list Message
}.

Definition serializeThread (thread : Thread) (viewer : jsstring) : SerializedThread :=
  let messages := List.map serializeMessage (sliceFrom (thread_messages thread) (-30)) in
  {| sthread_id := thread_id thread;
     sthread_participants := thread_participants thread;
     sthread_counterpart :=
       orNull (find_first (fun participant => negb (bool_decide (participant = viewer)))
                          (thread_participants thread));
     sthread_createdAt := thread_createdAt thread;
     sthread_hasMore := length messages <? length (thread_messages thread);
     sthread_messages := messages |}.

Record RoomSummary := mkRoomSummary {
  sum_id : jsstring;
  sum_name : jsstring;
  sum_description : jsstring;
  sum_memberCount : nat
}.

Definition roomSummaries (st : Server) : list RoomSummary :=
  List.map (fun room => mkRoomSummary (room_id room) (room_name room)
                          (room_description room) (length (room_members room)))
           (JsMap.values (rooms st)).

(** [listUserThreads]; the threads come in the order of the map's listing. *)
Definition listUserThreads (st : Server) (username : jsstring) : list SerializedThread :=
  List.map (fun thread => serializeThread thread username)
    (List.filter (fun thread => bool_decide (username ∈ thread_participants thread))
       (List.map snd (map_to_list (privateThreads st)))).

(** ** Outbound events *)

(** Where an event goes.  [ToSocket] is [socket.emit]: the connection the
    handler serves and no other.  [ToRoom name] is [io.to(name)]: the
    sockets in the socket.io room [name], which are the socket whose id is
    [name], if there is one (a socket is from its connection on in the room
    named by its own id), and every socket that has joined a room of that
    name ([socket.join(room.id)] in [user_join] and [join_room]).  The
    server addresses another user by [io.to(<socket id>)]: that is a
    [ToRoom].  [ToRoomExcept] is [socket.to(name)], the room but for the
    connection served; [ToAll] is [io.emit]. *)
Inductive Target :=
| ToSocket (socketId : jsstring)
| ToRoom (roomId : jsstring)
| ToRoomExcept (roomId socketId : jsstring)
| ToAll.

Inductive Payload :=
| receive_message (message : Message)
| user_list (snapshot : gmap jsstring User)
| room_list (snapshot : list RoomSummary)
| user_joined (username id joinedAt : jsstring)
| user_left (username id leftAt : jsstring)
| initial_state (rooms : list SerializedRoom) (threads : list SerializedThread)
    (activeRoom : jsstring) (snapshot : gmap jsstring User)
| active_room_changed (roomId : jsstring)
| room_user_left (roomId userId username : jsstring)
| typing_users (roomId : jsstring) (typing : list jsstring)
| private_message_event (thread : SerializedThread) (message : Message)
| private_notification (from threadId : jsstring).

Definition Emit : Type := Target * Payload.

(** The acknowledgement passed to [ack]: [{ok: true, ...}] or
    [{ok: false, error}]. *)
Inductive Ack (A : Type) :=
| AckOk (payload : A)
| AckError (error : jsstring).
Arguments AckOk {A} payload.
Arguments AckError {A} error.

(** ** Message factory *)

(** The values one [buildMessage] call draws from the host. *)
Record Stamp := mkStamp { uuid : jsstring; now : jsstring }.

Definition buildMessage (stamp : Stamp) (roomId senderId senderName body : jsstring)
    (attachments : list jsstring) (isSystem isPrivate : bool)
    (tempId : option jsstring) : Message :=
  {| msg_id := uuid stamp;
     msg_roomId := roomId;
     msg_sender := senderName;
     msg_senderId := senderId;
     msg_body := body;
     msg_timestamp := now stamp;
     msg_attachments := attachments;
     msg_isSystem := isSystem;
     msg_isPrivate := isPrivate;
     msg_reactions := Some ∅;
     msg_deliveredTo := Some {[ senderName ]};
     msg_readBy := Some (if isSystem then ∅ else {[ senderName ]});
     msg_tempId := orNull tempId |}.

Definition set_rooms (st : Server) (rs : list (jsstring * Room)) : Server :=
  mkServer (users st) (usernameToSocketId st) rs (privateThreads st).

Definition addSystemMessage (stamp : Stamp) (st : Server) (roomId text : jsstring)
  : Server * list Emit :=
  match JsMap.get roomId (rooms st) with
  | None => (st, [])
  | Some room =>
      let message :=
        buildMessage stamp roomId (js "system") (js "System") text [] true false None in
      (set_rooms st (JsMap.set roomId (addMessageToRoom room message) (rooms st)),
       [(ToRoom roomId, receive_message (serializeMessage message))])
  end.

Definition registerDelivered (message : Message) (username : jsstring) : Message :=
  {| msg_id := msg_id message;
     msg_roomId := msg_roomId message;
     msg_sender := msg_sender message;
     msg_senderId := msg_senderId message;
     msg_body := msg_body message;
     msg_timestamp := msg_timestamp message;
     msg_attachments := msg_attachments message;
     msg_isSystem := msg_isSystem message;
     msg_isPrivate := msg_isPrivate message;
     msg_reactions := msg_reactions message;
     msg_deliveredTo := Some (default ∅ (msg_deliveredTo message) ∪ {[ username ]});
     msg_readBy := msg_readBy message;
     msg_tempId := msg_tempId message |}.

(** ** Reactions *)

Definition set_reactions (message : Message)
    (r : gmap jsstring (gset jsstring)) : Message :=
  {| msg_id := msg_id message;
     msg_roomId := msg_roomId message;
     msg_sender := msg_sender message;
     msg_senderId := msg_senderId message;
     msg_body := msg_body message;
     msg_timestamp := msg_timestamp message;
     msg_attachments := msg_attachments message;
     msg_isSystem := msg_isSystem message;
     msg_isPrivate := msg_isPrivate message;
     msg_reactions := Some r;
     msg_deliveredTo := msg_deliveredTo message;
     msg_readBy := msg_readBy message;
     msg_tempId := msg_tempId message |}.

(** [setWith(collection, key, valueFactory)]: the collection after the call
    and the value it returns. *)
Definition setWith {V : Type} (collection : gmap jsstring V) (key : jsstring)
    (valueFactory : unit -> V) : gmap jsstring V * V :=
  match collection !! key with
  | Some v => (collection, v)
  | None => let v := valueFactory tt in (<[key := v]> collection, v)
  end.

(** [userSet] is the set stored under [emoji]: deleting from it or adding to
    it changes the entry of the map. *)
Definition toggleReaction (message : Message) (emoji username : jsstring) : Message :=
  let reactions := default ∅ (msg_reactions message) in
  let '(reactions, userSet) := setWith reactions emoji (fun _ => ∅) in
  if bool_decide (username ∈ userSet) then
    let userSet := userSet ∖ {[ username ]} in
    if bool_decide (size userSet = 0)
    then set_reactions message (delete emoji reactions)
    else set_reactions message (<[emoji := userSet]> reactions)
  else
    set_reactions message (<[emoji := userSet ∪ {[ username ]}]> reactions).

(** ** Room registry *)

Section Engine.
Context `{host : Host}.

Definition isSlugUnit (c : N) : bool :=
  (((0x61 <=? c) && (c <=? 0x7A)) || ((0x30 <=? c) && (c <=? 0x39)))%N.

(** [replace(/[^a-z0-9]+/g, '-')]: [inRun] tells that the previous unit was
    already replaced. *)
Fixpoint hyphenateRuns (inRun : bool) (s : jsstring) : jsstring :=
  match s with
  | [] => []
  | c :: s' =>
      if isSlugUnit c then c :: hyphenateRuns false s'
      else if inRun then hyphenateRuns true s'
      else 0x2D%N :: hyphenateRuns true s'
  end.

(** [replace(/(^-|-$)/g, '')] *)
Definition stripEdgeHyphens (s : jsstring) : jsstring :=
  let s1 := match s with 0x2D%N :: s' => s' | _ => s end in
  match rev s1 with
  | 0x2D%N :: r => rev r
  | _ => s1
  end.

Definition normalizeRoomId (fresh : jsstring) (value : jsstring) : jsstring :=
  let slug := stripEdgeHyphens (hyphenateRuns false (trim (toLowerCase value))) in
  if truthy slug then slug else js "room-" ++ fresh.

Record RoomOptions := mkRoomOptions {
  opt_id : option jsstring;
  opt_name : option jsstring;
  opt_description : option jsstring;
  opt_createdBy : option jsstring
}.

(** [x || fallback] on an optional string. *)
Definition orElse (x : option jsstring) (fallback : jsstring) : jsstring :=
  match orNull x with Some s => s | None => fallback end.

(** [createRoom(name, options)]; [stamp] holds the uuid that
    [normalizeRoomId] may draw and the creation time. *)
Definition createRoom (stamp : Stamp) (st : Server) (name : jsstring)
    (options : RoomOptions) : Server * Room :=
  let roomId := orElse (opt_id options) (normalizeRoomId (uuid stamp) name) in
  match JsMap.get roomId (rooms st) with
  | Some room => (st, room)
  | None =>
      let room :=
        {| room_id := roomId;
           room_name := orElse (opt_name options) name;
           room_description := orElse (opt_description options) [];
           room_createdAt := now stamp;
           room_createdBy := orElse (opt_createdBy options) (js "system");
           room_messages := [];
           room_members := [];
           room_typing := [] |} in
      (set_rooms st (JsMap.set roomId room (rooms st)), room)
  end.

Definition DEFAULT_ROOMS : list (jsstring * (jsstring * jsstring)) :=
  [ (js "general",
     (js "General",
      js "Welcome to the main lobby. Say hi " ++ [0xD83D; 0xDC4B]%N));
    (js "random",
     (js "Random", js "Anything goes. Share memes, links, and fun stuff.")) ].

(** The state once the module is loaded: no users, no threads, the two
    default rooms, the [i]-th created at [now (stamps i)]. *)
Definition initialServer (stamps : nat -> Stamp) : Server :=
  fold_left
    (fun st room =>
       fst (createRoom (stamps room.1) st (room.2.2.1)
              (mkRoomOptions (Some room.2.1) (Some room.2.2.1) (Some room.2.2.2) None)))
    (imap (fun i room => (i, room)) DEFAULT_ROOMS)
    (mkServer ∅ ∅ [] ∅).

(** ** Identity registry: [user_join] and [disconnect] *)

Definition ERR_USERNAME_REQUIRED : jsstring := js "Username is required".
Definition ERR_USERNAME_IN_USE : jsstring := js "That username is already in use".

(** The payload of [user_join]: a string, or an object that may carry a
    [username]. *)
Inductive JoinPayload :=
| PayloadString (s : jsstring)
| PayloadObject (username : option jsstring)
| PayloadMissing.

Definition joinUsername (payload : JoinPayload) : jsstring :=
  let rawUsername :=
    match payload with
    | PayloadString s => Some s
    | PayloadObject u => u
    | PayloadMissing => None
    end in
  match rawUsername with
  | Some raw => if truthy raw then trim raw else []
  | None => []
  end.

Definition set_user_rooms (user : User) (rs : list jsstring) : User :=
  mkUser (user_id user) (user_username user) (user_status user)
    (user_activeRoom user) rs (user_lastSeen user).

Definition set_user_activeRoom (user : User) (roomId : jsstring) : User :=
  mkUser (user_id user) (user_username user) (user_status user)
    roomId (user_rooms user) (user_lastSeen user).

Definition set_room_members (room : Room) (members : list jsstring) : Room :=
  mkRoom (room_id room) (room_name room) (room_description room)
    (room_createdAt room) (room_createdBy room) (room_messages room)
    members (room_typing room).

Definition set_room_typing (room : Room) (typing : list jsstring) : Room :=
  mkRoom (room_id room) (room_name room) (room_description room)
    (room_createdAt room) (room_createdBy room) (room_messages room)
    (room_members room) typing.

(** What one [user_join] draws from the host: the join time, the stamp of
    [createRoom] should the lobby be missing, the stamp of the system
    message. *)
Record JoinDraws := mkJoinDraws {
  join_now : jsstring;
  join_roomStamp : Stamp;
  join_messageStamp : Stamp
}.

Definition user_join (draws : JoinDraws) (st : Server) (socketId : jsstring)
    (payload : JoinPayload) : Server * list Emit * Ack jsstring :=
  let username := joinUsername payload in
  if negb (truthy username) then (st, [], AckError ERR_USERNAME_REQUIRED)
  else if bool_decide (is_Some (usernameToSocketId st !! username))
  then (st, [], AckError ERR_USERNAME_IN_USE)
  else
    let userRecord :=
      {| user_id := socketId;
         user_username := username;
         user_status := js "online";
         user_activeRoom := js "general";
         user_rooms := [];
         user_lastSeen := join_now draws |} in
    let st1 := mkServer (<[socketId := userRecord]> (users st))
                 (<[username := socketId]> (usernameToSocketId st))
                 (rooms st) (privateThreads st) in
    let '(st2, defaultRoom) :=
      match JsMap.get (js "general") (rooms st1) with
      | Some room => (st1, room)
      | None => createRoom (join_roomStamp draws) st1 (js "General")
                  (mkRoomOptions (Some (js "general")) None None None)
      end in
    let userRecord :=
      set_user_rooms userRecord (JsSet.add (room_id defaultRoom) (user_rooms userRecord)) in
    let defaultRoom :=
      set_room_members defaultRoom (JsSet.add socketId (room_members defaultRoom)) in
    let st3 := mkServer (<[socketId := userRecord]> (users st2))
                 (usernameToSocketId st2)
                 (JsMap.set (js "general") defaultRoom (rooms st2))
                 (privateThreads st2) in
    let initialRooms :=
      omap (fun roomId => (fun room => serializeRoom room 30) <$> JsMap.get roomId (rooms st3))
           (user_rooms userRecord) in
    let emits1 :=
      [ (ToSocket socketId,
         initial_state initialRooms (listUserThreads st3 username)
           (user_activeRoom userRecord) (users st3));
        (ToAll, user_list (users st3));
        (ToAll, room_list (roomSummaries st3));
        (ToAll, user_joined username socketId (join_now draws)) ] in
    let '(st4, emits2) :=
      addSystemMessage (join_messageStamp draws) st3 (room_id defaultRoom)
        (username ++ js " joined the chat") in
    (st4, emits1 ++ emits2, AckOk (user_activeRoom userRecord)).

(** [disconnect]: one system message per room of the user, the [i]-th room
    visited drawing [stamps i]. *)
Definition disconnect_room (stamp : Stamp) (socketId username : jsstring)
    (acc : Server * list Emit) (roomId : jsstring) : Server * list Emit :=
  let '(st, emits) := acc in
  match JsMap.get roomId (rooms st) with
  | None => (st, emits)
  | Some room =>
      let room := set_room_members room (JsSet.delete socketId (room_members room)) in
      let room := set_room_typing room (JsSet.delete username (room_typing room)) in
      let st1 := set_rooms st (JsMap.set roomId room (rooms st)) in
      let '(st2, emits2) :=
        addSystemMessage stamp st1 (room_id room) (username ++ js " left the room") in
      (st2, emits ++ emits2 ++ [(ToRoom (room_id room), typing_users (room_id room) (room_typing room))])
  end.

Fixpoint disconnect_rooms (stamps : nat -> Stamp) (i : nat) (socketId username : jsstring)
    (acc : Server * list Emit) (roomIds : list jsstring) : Server * list Emit :=
  match roomIds with
  | [] => acc
  | roomId :: rest =>
      disconnect_rooms stamps (S i) socketId username
        (disconnect_room (stamps i) socketId username acc roomId) rest
  end.

Definition disconnect (stamps : nat -> Stamp) (leftAt : jsstring) (st : Server)
    (socketId : jsstring) : Server * list Emit :=
  match users st !! socketId with
  | None => (st, [])
  | Some user =>
      let username := user_username user in
      let '(st1, emits) :=
        disconnect_rooms stamps 0 socketId username (st, []) (user_rooms user) in
      let st2 := mkServer (delete socketId (users st1))
                   (delete username (usernameToSocketId st1))
                   (rooms st1) (privateThreads st1) in
      (st2, emits ++ [ (ToAll, user_list (users st2));
                       (ToAll, room_list (roomSummaries st2));
                       (ToAll, user_left username socketId leftAt) ])
  end.

(** ** [leave_room] *)

Definition ERR_UNABLE_TO_LEAVE : jsstring := js "Unable to leave room".

Definition leave_room (stamp : Stamp) (st : Server) (socketId roomId : jsstring)
  : Server * list Emit * Ack unit :=
  match users st !! socketId, JsMap.get roomId (rooms st) with
  | Some user, Some room =>
      let user1 := set_user_rooms user (JsSet.delete (room_id room) (user_rooms user)) in
      let room1 := set_room_members room (JsSet.delete socketId (room_members room)) in
      let st1 := mkServer (<[socketId := user1]> (users st)) (usernameToSocketId st)
                   (JsMap.set roomId room1 (rooms st)) (privateThreads st) in
      let '(st2, emits1) :=
        addSystemMessage stamp st1 (room_id room)
          (user_username user ++ js " left " ++ room_name room) in
      let '(st3, emits2) :=
        if bool_decide (user_activeRoom user1 = room_id room) then
          let user2 := set_user_activeRoom user1 (js "general") in
          (mkServer (<[socketId := user2]> (users st2)) (usernameToSocketId st2)
             (rooms st2) (privateThreads st2),
           [(ToSocket socketId, active_room_changed (user_activeRoom user2))])
        else (st2, []) in
      (st3,
       emits1 ++ emits2 ++
       [ (ToRoomExcept (room_id room) socketId,
          room_user_left (room_id room) (user_id user) (user_username user));
         (ToAll, room_list (roomSummaries st3)) ],
       AckOk tt)
  | _, _ => (st, [], AckError ERR_UNABLE_TO_LEAVE)
  end.

(** ** Room history: the socket event and the HTTP route *)

Definition ERR_ROOM_NOT_FOUND : jsstring := js "Room not found".

(** [Math.min(Number(limit) || 30, 100)].  [limit] is [None] when the
    request carries none or one that is not a number, and [Some n] for the
    integer [n]. *)
Definition parsedLimit (limit : option Z) : Z :=
  let n := default 30%Z limit in
  Z.min (if (n =? 0)%Z then 30%Z else n) 100%Z.

Record HistoryPage := mkHistoryPage {
  page_roomId : jsstring;
  page_messages : list Message;
  page_hasMore : bool;
  page_nextCursor : option jsstring
}.

Definition request_room_history (st : Server) (socketId roomId : jsstring)
    (before : option jsstring) (limit : option Z) : Ack HistoryPage :=
  match users st !! socketId, JsMap.get roomId (rooms st) with
  | Some user, Some room =>
      let parsedLimit := parsedLimit limit in
      let beforeIndex :=
        match orNull before with
        | Some b => findIndex (fun message => bool_decide (msg_id message = b))
                      (room_messages room)
        | None => (-1)%Z
        end in
      let endIndex :=
        if (beforeIndex =? -1)%Z then Z.of_nat (length (room_messages room))
        else beforeIndex in
      let startIndex := Z.max 0 (endIndex - parsedLimit) in
      let slice := List.map serializeMessage (slice (room_messages room) startIndex endIndex) in
      let hasMore := (0 <? startIndex)%Z in
      let nextCursor :=
        if hasMore
        then orNull (msg_id <$> at_index (room_messages room) (startIndex - 1))
        else None in
      AckOk (mkHistoryPage roomId slice hasMore nextCursor)
  | _, _ => AckError ERR_ROOM_NOT_FOUND
  end.

Inductive HttpResponse (A : Type) :=
| HttpJson (status : nat) (body : A)
| HttpError (status : nat) (error : jsstring).
Arguments HttpJson {A} status body.
Arguments HttpError {A} status error.

(** [GET /api/rooms/:roomId/messages] *)
Definition get_room_messages (st : Server) (roomId : jsstring)
    (before : option jsstring) (limit : option Z) : HttpResponse HistoryPage :=
  match JsMap.get roomId (rooms st) with
  | None => HttpError 404 ERR_ROOM_NOT_FOUND
  | Some room =>
      let parsedLimit := parsedLimit limit in
      let beforeIndex :=
        match orNull before with
        | Some b => findIndex (fun message => bool_decide (msg_id message = b))
                      (room_messages room)
        | None => (-1)%Z
        end in
      let endIndex :=
        if (beforeIndex =? -1)%Z then Z.of_nat (length (room_messages room))
        else beforeIndex in
      let startIndex := Z.max 0 (endIndex - parsedLimit) in
      let slice := List.map serializeMessage (slice (room_messages room) startIndex endIndex) in
      let hasMore := (0 <? startIndex)%Z in
      let nextCursor :=
        if hasMore
        then orNull (msg_id <$> at_index (room_messages room) (startIndex - 1))
        else None in
      HttpJson 200 (mkHistoryPage roomId slice hasMore nextCursor)
  end.

(** ** Search: [GET /api/search] *)

Record SearchResult := mkSearchResult {
  res_roomId : jsstring;
  res_roomName : jsstring;
  res_message : Message
}.

(** The inner [forEach]: the matching messages of one room are pushed onto
    [results] in the order of the log. *)
Definition search_room (term : jsstring) (results : list SearchResult)
    (room : option Room) : list SearchResult :=
  match room with
  | None => results
  | Some room =>
      fold_left
        (fun results message =>
           if includes (toLowerCase (msg_body message)) term
           then results ++ [mkSearchResult (room_id room) (room_name room)
                              (serializeMessage message)]
           else results)
        (room_messages room) results
  end.

Definition get_search (st : Server) (roomId q : option jsstring) : list SearchResult :=
  match orNull q with
  | None => []
  | Some q =>
      let targetRooms :=
        match orNull roomId with
        | Some roomId => [JsMap.get roomId (rooms st)]
        | None => List.map Some (JsMap.values (rooms st))
        end in
      let term := toLowerCase q in
      let results := fold_left (search_room term) targetRooms [] in
      sliceFrom results (-100)
  end.

(** ** Thread registry *)

(** [Array.prototype.sort(comparefn)] as a stable insertion sort: an element
    goes before the first one that compares greater than it. *)
Section Sort.
Context {A : Type} (comparefn : A -> A -> Z).

Fixpoint sort_insert (x : A) (sorted : list A) : list A :=
  match sorted with
  | [] => [x]
  | y :: sorted' =>
      if (0 <? comparefn y x)%Z then x :: y :: sorted'
      else y :: sort_insert x sorted'
  end.

Definition sort (l : list A) : list A :=
  fold_left (fun sorted x => sort_insert x sorted) l [].
End Sort.

(** [array.join(separator)] *)
Fixpoint join (separator : jsstring) (l : list jsstring) : jsstring :=
  match l with
  | [] => []
  | [x] => x
  | x :: l' => x ++ separator ++ join separator l'
  end.

Definition ERR_NOT_AUTHENTICATED : jsstring := js "Not authenticated".
Definition ERR_RECIPIENT_REQUIRED : jsstring := js "Recipient is required".
Definition ERR_MESSAGE_EMPTY : jsstring := js "Message cannot be empty".
Definition ERR_RECIPIENT_OFFLINE : jsstring := js "Recipient is offline".

Record PrivateAck := mkPrivateAck {
  pack_messageId : jsstring;
  pack_threadId : jsstring
}.

(** [alter_last f l]: the last element of the array is the object that was
    just pushed; a later mutation of that object shows there. *)
Definition alter_last {A : Type} (f : A -> A) (l : list A) : list A :=
  match rev l with
  | [] => []
  | x :: r => rev (f x :: r)
  end.

Section Threads.
(** [String.prototype.localeCompare] is the host's collation: negative,
    zero or positive.  The development is parametric in it. *)
Variable localeCompare : jsstring -> jsstring -> Z.

Definition makeThreadKey (a b : jsstring) : jsstring :=
  join (js "::") (sort localeCompare [a; b]).

Definition ensurePrivateThread (createdAt : jsstring)
    (threads : gmap jsstring Thread) (userA userB : jsstring)
  : gmap jsstring Thread * Thread :=
  let key := makeThreadKey userA userB in
  match threads !! key with
  | Some thread => (threads, thread)
  | None =>
      let thread := mkThread key [userA; userB] [] createdAt in
      (<[key := thread]> threads, thread)
  end.

Definition private_message (createdAt : jsstring) (stamp : Stamp) (st : Server)
    (socketId : jsstring) (to message tempId : option jsstring)
  : Server * list Emit * Ack PrivateAck :=
  let trimmed := match orNull message with Some m => trim m | None => [] end in
  match users st !! socketId with
  | None => (st, [], AckError ERR_NOT_AUTHENTICATED)
  | Some user =>
      match orNull to with
      | None => (st, [], AckError ERR_RECIPIENT_REQUIRED)
      | Some to =>
          if negb (truthy trimmed) then (st, [], AckError ERR_MESSAGE_EMPTY)
          else
            let recipientSocketId := usernameToSocketId st !! to in
            let recipientUser :=
              match orNull recipientSocketId with
              | Some sid => users st !! sid
              | None => None
              end in
            match recipientSocketId, recipientUser with
            | Some recipientSocketId, Some recipientUser =>
                let '(threads, thread) :=
                  ensurePrivateThread createdAt (privateThreads st)
                    (user_username user) (user_username recipientUser) in
                let messageRecord :=
                  buildMessage stamp (thread_id thread) (user_id user)
                    (user_username user) trimmed [] false true (orNull tempId) in
                let thread := addMessageToThread thread messageRecord in
                let messageRecord :=
                  registerDelivered messageRecord (user_username recipientUser) in
                let thread :=
                  set_thread_messages thread
                    (alter_last (fun _ => messageRecord) (thread_messages thread)) in
                let threads :=
                  <[makeThreadKey (user_username user) (user_username recipientUser)
                    := thread]> threads in
                let serialized := serializeMessage messageRecord in
                (mkServer (users st) (usernameToSocketId st) (rooms st) threads,
                 [ (ToSocket socketId,
                    private_message_event
                      (serializeThread thread (user_username user)) serialized);
                   (ToRoom recipientSocketId,
                    private_message_event
                      (serializeThread thread (user_username recipientUser)) serialized);
                   (ToRoom recipientSocketId,
                    private_notification (user_username user) (thread_id thread)) ],
                 AckOk (mkPrivateAck (msg_id messageRecord) (thread_id thread)))
            | _, _ => (st, [], AckError ERR_RECIPIENT_OFFLINE)
            end
      end
  end.
End Threads.

(** ** The other socket events *)

(** What these events emit: one of the payloads above, or one of their
    own. *)
Inductive Notice :=
| notice (payload : Payload)
| room_joined (room : SerializedRoom)
| room_user_joined (roomId userId username : jsstring)
| message_delivery_update (roomId messageId : jsstring) (deliveredTo : gset jsstring)
| message_read_update (roomId messageId : jsstring) (readBy : gset jsstring)
| message_reaction_update (roomId messageId : jsstring)
    (reactions : gmap jsstring (gset jsstring))
| private_read_receipt (threadId messageId : jsstring) (readBy : gset jsstring)
| private_reaction_update (threadId messageId : jsstring)
    (reactions : gmap jsstring (gset jsstring))
| private_typing_notice (from : jsstring) (isTyping : bool).

Definition serializeReactions (reactionMap : option (gmap jsstring (gset jsstring)))
  : gmap jsstring (gset jsstring) :=
  default ∅ reactionMap.

Definition registerRead (message : Message) (username : jsstring) : Message :=
  {| msg_id := msg_id message;
     msg_roomId := msg_roomId message;
     msg_sender := msg_sender message;
     msg_senderId := msg_senderId message;
     msg_body := msg_body message;
     msg_timestamp := msg_timestamp message;
     msg_attachments := msg_attachments message;
     msg_isSystem := msg_isSystem message;
     msg_isPrivate := msg_isPrivate message;
     msg_reactions := msg_reactions message;
     msg_deliveredTo := msg_deliveredTo message;
     msg_readBy := Some (default ∅ (msg_readBy message) ∪ {[ username ]});
     msg_tempId := msg_tempId message |}.

(** [array.find(p)] returns the first element that satisfies [p]; a
    mutation of that object shows at its place in the array. *)
Fixpoint alter_first {A : Type} (p : A -> bool) (f : A -> A) (l : list A) : list A :=
  match l with
  | [] => []
  | x :: l' => if p x then f x :: l' else x :: alter_first p f l'
  end.

Definition hasId (messageId : jsstring) (item : Message) : bool :=
  bool_decide (msg_id item = messageId).

Definition ERR_ROOM_REQUIRED : jsstring := js "Room is required".
Definition ERR_ROOM_NAME_REQUIRED : jsstring := js "Room name is required".

(** [send_message] *)
Definition send_message (stamp : Stamp) (st : Server) (socketId : jsstring)
    (roomId message : option jsstring) (attachments : list jsstring)
    (tempId : option jsstring) : Server * list Emit * Ack jsstring :=
  let trimmed := match orNull message with Some m => trim m | None => [] end in
  match users st !! socketId with
  | None => (st, [], AckError ERR_NOT_AUTHENTICATED)
  | Some user =>
      match orNull roomId with
      | None => (st, [], AckError ERR_ROOM_REQUIRED)
      | Some roomId =>
          if negb (truthy trimmed) then (st, [], AckError ERR_MESSAGE_EMPTY)
          else
            match JsMap.get roomId (rooms st) with
            | None => (st, [], AckError ERR_ROOM_NOT_FOUND)
            | Some room =>
                let messageRecord :=
                  buildMessage stamp roomId (user_id user) (user_username user)
                    trimmed attachments false false (orNull tempId) in
                (set_rooms st
                   (JsMap.set roomId (addMessageToRoom room messageRecord) (rooms st)),
                 [(ToRoom roomId, receive_message (serializeMessage messageRecord))],
                 AckOk (msg_id messageRecord))
            end
      end
  end.

(** [join_room].  [room] is the object [createRoom] returns, stored under
    the id [createRoom] computed; the handler then works through
    [room.id]. *)
Definition join_room (roomStamp messageStamp : Stamp) (st : Server)
    (socketId : jsstring) (requestedRoom roomName description : option jsstring)
  : Server * list (Target * Notice) * Ack (jsstring * SerializedRoom) :=
  match users st !! socketId with
  | None => (st, [], AckError ERR_NOT_AUTHENTICATED)
  | Some user =>
      match orNull (match orNull requestedRoom with
                    | Some r => Some r
                    | None => roomName
                    end) with
      | None => (st, [], AckError ERR_ROOM_NAME_REQUIRED)
      | Some targetName =>
          let options :=
            mkRoomOptions requestedRoom roomName description (Some (user_username user)) in
          let key := orElse requestedRoom (normalizeRoomId (uuid roomStamp) targetName) in
          let '(st1, room) := createRoom roomStamp st targetName options in
          let '(st2, user1, emits1) :=
            if negb (JsSet.has (room_id room) (user_rooms user)) then
              let user1 := set_user_rooms user (JsSet.add (room_id room) (user_rooms user)) in
              let room1 := set_room_members room (JsSet.add socketId (room_members room)) in
              let st' := mkServer (<[socketId := user1]> (users st1))
                           (usernameToSocketId st1)
                           (JsMap.set key room1 (rooms st1)) (privateThreads st1) in
              let '(st'', emits) :=
                addSystemMessage messageStamp st' (room_id room)
                  (user_username user ++ js " joined " ++ room_name room) in
              (st'', user1, List.map (fun e => (e.1, notice e.2)) emits)
            else (st1, user, []) in
          let user2 := set_user_activeRoom user1 (room_id room) in
          let st3 := mkServer (<[socketId := user2]> (users st2))
                       (usernameToSocketId st2) (rooms st2) (privateThreads st2) in
          let payloadRoom :=
            serializeRoom (default room (JsMap.get key (rooms st3))) 30 in
          (st3,
           emits1 ++
           [ (ToSocket socketId, room_joined payloadRoom);
             (ToRoomExcept (room_id room) socketId,
              room_user_joined (room_id room) (user_id user) (user_username user));
             (ToAll, notice (room_list (roomSummaries st3))) ],
           AckOk (room_id room, payloadRoom))
      end
  end.

(** [message_delivered] and [message_read] *)
Definition message_delivered (st : Server) (socketId messageId roomId : jsstring)
  : Server * list (Target * Notice) :=
  match users st !! socketId, JsMap.get roomId (rooms st) with
  | Some user, Some room =>
      match find_first (hasId messageId) (room_messages room) with
      | None => (st, [])
      | Some message =>
          let message := registerDelivered message (user_username user) in
          let room :=
            set_room_messages room
              (alter_first (hasId messageId) (fun _ => message) (room_messages room)) in
          (set_rooms st (JsMap.set roomId room (rooms st)),
           [(ToRoom roomId,
             message_delivery_update roomId messageId
               (default ∅ (msg_deliveredTo message)))])
      end
  | _, _ => (st, [])
  end.

Definition message_read (st : Server) (socketId messageId roomId : jsstring)
  : Server * list (Target * Notice) :=
  match users st !! socketId, JsMap.get roomId (rooms st) with
  | Some user, Some room =>
      match find_first (hasId messageId) (room_messages room) with
      | None => (st, [])
      | Some message =>
          let message := registerRead message (user_username user) in
          let room :=
            set_room_messages room
              (alter_first (hasId messageId) (fun _ => message) (room_messages room)) in
          (set_rooms st (JsMap.set roomId room (rooms st)),
           [(ToRoom roomId,
             message_read_update roomId messageId (default ∅ (msg_readBy message)))])
      end
  | _, _ => (st, [])
  end.

(** [react_to_message] *)
Definition react_to_message (st : Server) (socketId roomId messageId emoji : jsstring)
  : Server * list (Target * Notice) :=
  match users st !! socketId, JsMap.get roomId (rooms st) with
  | Some user, Some room =>
      match find_first (hasId messageId) (room_messages room) with
      | None => (st, [])
      | Some message =>
          let message := toggleReaction message emoji (user_username user) in
          let room :=
            set_room_messages room
              (alter_first (hasId messageId) (fun _ => message) (room_messages room)) in
          (set_rooms st (JsMap.set roomId room (rooms st)),
           [(ToRoom roomId,
             message_reaction_update roomId messageId
               (serializeReactions (msg_reactions message)))])
      end
  | _, _ => (st, [])
  end.

Definition set_threads (st : Server) (threads : gmap jsstring Thread) : Server :=
  mkServer (users st) (usernameToSocketId st) (rooms st) threads.

(** The participants that are connected, each with its socket. *)
Definition participantSockets (st : Server) (thread : Thread) : list jsstring :=
  omap (fun participant => orNull (usernameToSocketId st !! participant))
       (thread_participants thread).

(** [private_message_read] *)
Definition private_message_read (st : Server) (socketId threadId messageId : jsstring)
  : Server * list (Target * Notice) :=
  match users st !! socketId, privateThreads st !! threadId with
  | Some user, Some thread =>
      match find_first (hasId messageId) (thread_messages thread) with
      | None => (st, [])
      | Some message =>
          let message := registerRead message (user_username user) in
          let thread :=
            set_thread_messages thread
              (alter_first (hasId messageId) (fun _ => message) (thread_messages thread)) in
          (set_threads st (<[threadId := thread]> (privateThreads st)),
           List.map
             (fun targetSocket =>
                (ToRoom targetSocket,
                 private_read_receipt threadId messageId (default ∅ (msg_readBy message))))
             (participantSockets st thread))
      end
  | _, _ => (st, [])
  end.

(** [react_to_private_message] *)
Definition react_to_private_message (st : Server)
    (socketId threadId messageId emoji : jsstring)
  : Server * list (Target * Notice) :=
  match users st !! socketId, privateThreads st !! threadId with
  | Some user, Some thread =>
      match find_first (hasId messageId) (thread_messages thread) with
      | None => (st, [])
      | Some message =>
          let message := toggleReaction message emoji (user_username user) in
          let thread :=
            set_thread_messages thread
              (alter_first (hasId messageId) (fun _ => message) (thread_messages thread)) in
          (set_threads st (<[threadId := thread]> (privateThreads st)),
           List.map
             (fun targetSocket =>
                (ToRoom targetSocket,
                 private_reaction_update threadId messageId
                   (serializeReactions (msg_reactions message))))
             (participantSockets st thread))
      end
  | _, _ => (st, [])
  end.

(** [set_active_room] *)
Definition set_active_room (lastSeen : jsstring) (st : Server)
    (socketId roomId : jsstring) : Server :=
  match users st !! socketId, JsMap.get roomId (rooms st) with
  | Some user, Some _ =>
      let user :=
        mkUser (user_id user) (user_username user) (user_status user)
          roomId (user_rooms user) lastSeen in
      mkServer (<[socketId := user]> (users st)) (usernameToSocketId st)
        (rooms st) (privateThreads st)
  | _, _ => st
  end.

(** [private_typing]: nothing but a notice to the recipient. *)
Definition private_typing (st : Server) (socketId to : jsstring) (isTyping : bool)
  : list (Target * Notice) :=
  match users st !! socketId, orNull (usernameToSocketId st !! to) with
  | Some user, Some recipientSocketId =>
      [(ToRoom recipientSocketId, private_typing_notice (user_username user) isTyping)]
  | _, _ => []
  end.

(** ** A comparator for the examples

    ECMA-262 leaves the values of [localeCompare] to the host but requires
    it to be a consistent comparator that returns 0 for canonically
    equivalent strings.  [canonCompare] orders strings by code unit after
    replacing the three letter-like symbols that are canonically equivalent
    to a single letter (KELVIN SIGN U+212A to K, ANGSTROM SIGN U+212B to
    U+00C5, OHM SIGN U+2126 to U+03A9); it stands for the host's collation
    in the examples. *)
Definition canonicalUnit (c : N) : N :=
  if (c =? 0x212A)%N then 0x4B%N
  else if (c =? 0x212B)%N then 0xC5%N
  else if (c =? 0x2126)%N then 0x3A9%N
  else c.

Fixpoint compareUnits (x y : jsstring) : Z :=
  match x, y with
  | [], [] => 0%Z
  | [], _ :: _ => (-1)%Z
  | _ :: _, [] => 1%Z
  | a :: x', b :: y' =>
      if (a <? b)%N then (-1)%Z
      else if (b <? a)%N then 1%Z
      else compareUnits x' y'
  end.

Definition canonCompare (x y : jsstring) : Z :=
  compareUnits (List.map canonicalUnit x) (List.map canonicalUnit y).

(** ** Following the cursor

    The round trip of the pagination contract, as a client would run it:
    request a page, put it in front of the pages already received, and go on
    from [nextCursor] while there is one. *)
Fixpoint followCursor (fuel : nat) (st : Server) (socketId roomId : jsstring)
    (cursor : option jsstring) (limit : option Z) (received : list Message)
  : list Message :=
  match fuel with
  | 0 => received
  | S fuel' =>
      match request_room_history st socketId roomId cursor limit with
      | AckError _ => received
      | AckOk page =>
          let received := page_messages page ++ received in
          match page_nextCursor page with
          | Some next => followCursor fuel' st socketId roomId (Some next) limit received
          | None => received
          end
      end
  end.

(** ** Vocabulary of the properties *)

Definition no_empty (r : gmap jsstring (gset jsstring)) : Prop :=
  forall emoji s, r !! emoji = Some s -> s <> ∅.

Definition reactionsOf (message : Message) : gmap jsstring (gset jsstring) :=
  default ∅ (msg_reactions message).

Definition holders (r : gmap jsstring (gset jsstring)) (emoji : jsstring)
  : gset jsstring :=
  default ∅ (r !! emoji).

Definition toggleAll (message : Message) (toggles : list (jsstring * jsstring))
  : Message :=
  fold_left (fun m t => toggleReaction m t.1 t.2) toggles message.

(** The three outcomes of [user_join]. *)
Inductive JoinOutcome (st : Server) (socketId : jsstring) (payload : JoinPayload)
  : Server * list Emit * Ack jsstring -> Prop :=
| JoinInvalid :
    joinUsername payload = [] ->
    JoinOutcome st socketId payload (st, [], AckError ERR_USERNAME_REQUIRED)
| JoinConflict :
    joinUsername payload <> [] ->
    is_Some (usernameToSocketId st !! joinUsername payload) ->
    JoinOutcome st socketId payload (st, [], AckError ERR_USERNAME_IN_USE)
| JoinAccepted st' emits user :
    joinUsername payload <> [] ->
    usernameToSocketId st !! joinUsername payload = None ->
    users st' = <[socketId := user]> (users st) ->
    usernameToSocketId st' = <[joinUsername payload := socketId]> (usernameToSocketId st) ->
    user_username user = joinUsername payload ->
    user_id user = socketId ->
    JoinOutcome st socketId payload (st', emits, AckOk (js "general")).

(** Sequences of join and disconnect events. *)
Inductive Event :=
| EvJoin (draws : JoinDraws) (socketId : jsstring) (payload : JoinPayload)
| EvDisconnect (stamps : nat -> Stamp) (leftAt : jsstring) (socketId : jsstring).

Definition step (st : Server) (ev : Event) : Server :=
  match ev with
  | EvJoin draws socketId payload => (user_join draws st socketId payload).1.1
  | EvDisconnect stamps leftAt socketId => (disconnect stamps leftAt st socketId).1
  end.

Definition run (st : Server) (evs : list Event) : Server := fold_left step evs st.

(** Every live user is the one its username is bound to, and the username
    is the non-empty trimmed form of a submitted name. *)
Definition registry_ok (st : Server) : Prop :=
  forall socketId user,
    users st !! socketId = Some user ->
    usernameToSocketId st !! user_username user = Some socketId /\
    user_username user <> [] /\
    exists raw, user_username user = trim raw.



(** The body contains the query, both in lower case. *)
Definition matches (query : jsstring) (message : Message) : bool :=
  includes (toLowerCase (msg_body message)) (toLowerCase query).

(** The rooms a search looks at: the room of the filter, if the filter
    names one, all rooms in the order of their creation without a filter. *)
Definition searchedRooms (st : Server) (roomId : option jsstring) : list Room :=
  match orNull roomId with
  | Some roomId => option_list (JsMap.get roomId (rooms st))
  | None => JsMap.values (rooms st)
  end.

Definition roomMatches (query : jsstring) (room : Room) : list SearchResult :=
  List.map (fun message => mkSearchResult (room_id room) (room_name room)
                             (serializeMessage message))
    (List.filter (matches query) (room_messages room)).

(** Every match, room after room, each room in the order of its log. *)
Definition allMatches (st : Server) (roomId : option jsstring) (query : jsstring)
  : list SearchResult :=
  flat_map (roomMatches query) (searchedRooms st roomId).

(** ISO timestamps order by code unit as they do by time. *)
Definition sentBefore (a b : Message) : bool :=
  (compareUnits (msg_timestamp a) (msg_timestamp b) <? 0)%Z.

(** ** Requests and what they keep *)

(** A message as the factory and the receipt and reaction events leave it:
    the reactions are a map without empty sets, the sender is among those
    the message was delivered to and, unless it is a system message, among
    those who read it. *)
Definition message_ok (m : Message) : Prop :=
  (exists r, msg_reactions m = Some r /\ no_empty r) /\
  (exists d, msg_deliveredTo m = Some d /\ msg_sender m ∈ d) /\
  (exists rb, msg_readBy m = Some rb /\ (msg_isSystem m = false -> msg_sender m ∈ rb)).

(** [m'] is [m] later: the same message, its receipts at least those of
    [m]; the reactions are free. *)
Definition grows (m m' : Message) : Prop :=
  msg_id m' = msg_id m /\
  msg_roomId m' = msg_roomId m /\
  msg_sender m' = msg_sender m /\
  msg_senderId m' = msg_senderId m /\
  msg_body m' = msg_body m /\
  msg_timestamp m' = msg_timestamp m /\
  msg_attachments m' = msg_attachments m /\
  msg_isSystem m' = msg_isSystem m /\
  msg_isPrivate m' = msg_isPrivate m /\
  msg_tempId m' = msg_tempId m /\
  default ∅ (msg_deliveredTo m) ⊆ default ∅ (msg_deliveredTo m') /\
  default ∅ (msg_readBy m) ⊆ default ∅ (msg_readBy m').

Definition room_ok (k : jsstring) (r : Room) : Prop :=
  room_id r = k /\
  length (room_messages r) <= MAX_ROOM_MESSAGES /\
  Forall message_ok (room_messages r).

(** [r'] is the room [r] later. *)
Definition room_step (r r' : Room) : Prop :=
  room_id r' = room_id r /\
  room_name r' = room_name r /\
  room_description r' = room_description r /\
  room_createdAt r' = room_createdAt r /\
  room_createdBy r' = room_createdBy r /\
  (length (room_messages r) <= MAX_ROOM_MESSAGES ->
   length (room_messages r') <= MAX_ROOM_MESSAGES) /\
  (Forall message_ok (room_messages r) -> Forall message_ok (room_messages r')).

Definition room_rel (k : jsstring) (o o' : option Room) : Prop :=
  match o, o' with
  | Some r, Some r' => room_step r r'
  | None, Some r' => room_ok k r'
  | None, None => True
  | Some _, None => False
  end.

Definition thread_ok (k : jsstring) (t : Thread) : Prop :=
  thread_id t = k /\
  length (thread_participants t) = 2 /\
  length (thread_messages t) <= MAX_PRIVATE_MESSAGES /\
  Forall message_ok (thread_messages t).

Definition thread_step (t t' : Thread) : Prop :=
  thread_id t' = thread_id t /\
  thread_participants t' = thread_participants t /\
  thread_createdAt t' = thread_createdAt t /\
  (length (thread_messages t) <= MAX_PRIVATE_MESSAGES ->
   length (thread_messages t') <= MAX_PRIVATE_MESSAGES) /\
  (Forall message_ok (thread_messages t) -> Forall message_ok (thread_messages t')).

Definition thread_rel (k : jsstring) (o o' : option Thread) : Prop :=
  match o, o' with
  | Some t, Some t' => thread_step t t'
  | None, Some t' => thread_ok k t'
  | None, None => True
  | Some _, None => False
  end.

(** [st'] is the state [st] later, as far as rooms and threads go. *)
Definition server_evolves (st st' : Server) : Prop :=
  (forall k, room_rel k (JsMap.get k (rooms st)) (JsMap.get k (rooms st'))) /\
  (forall k, thread_rel k (privateThreads st !! k) (privateThreads st' !! k)).

Definition rooms_ok (st : Server) : Prop :=
  forall k r, JsMap.get k (rooms st) = Some r -> room_ok k r.

Definition threads_ok (st : Server) : Prop :=
  forall k t, privateThreads st !! k = Some t -> thread_ok k t.

(** Every room a user lists exists and lists the user's socket, and the
    user is stored under its own id. *)
Definition membership_ok (st : Server) : Prop :=
  forall socketId user,
    users st !! socketId = Some user ->
    user_id user = socketId /\
    NoDup (user_rooms user) /\
    forall roomId, roomId ∈ user_rooms user ->
      exists room, JsMap.get roomId (rooms st) = Some room /\
                   socketId ∈ room_members room.

(** The events that change users, rooms or threads (the typing events and
    their timers apart). *)
Inductive Request :=
| UserJoin (draws : JoinDraws) (socketId : jsstring) (payload : JoinPayload)
| Disconnect (stamps : nat -> Stamp) (leftAt socketId : jsstring)
| JoinRoom (roomStamp messageStamp : Stamp) (socketId : jsstring)
    (requestedRoom roomName description : option jsstring)
| LeaveRoom (stamp : Stamp) (socketId roomId : jsstring)
| SendMessage (stamp : Stamp) (socketId : jsstring) (roomId message : option jsstring)
    (attachments : list jsstring) (tempId : option jsstring)
| MessageDelivered (socketId messageId roomId : jsstring)
| MessageRead (socketId messageId roomId : jsstring)
| ReactToMessage (socketId roomId messageId emoji : jsstring)
| PrivateMessage (createdAt : jsstring) (stamp : Stamp) (socketId : jsstring)
    (to message tempId : option jsstring)
| PrivateMessageRead (socketId threadId messageId : jsstring)
| ReactToPrivateMessage (socketId threadId messageId emoji : jsstring)
| SetActiveRoom (lastSeen socketId roomId : jsstring).

Section Serve.
Variable localeCompare : jsstring -> jsstring -> Z.

Definition handle (st : Server) (request : Request) : Server :=
  match request with
  | UserJoin draws socketId payload => (user_join draws st socketId payload).1.1
  | Disconnect stamps leftAt socketId => (disconnect stamps leftAt st socketId).1
  | JoinRoom roomStamp messageStamp socketId requestedRoom roomName description =>
      (join_room roomStamp messageStamp st socketId requestedRoom roomName description).1.1
  | LeaveRoom stamp socketId roomId => (leave_room stamp st socketId roomId).1.1
  | SendMessage stamp socketId roomId message attachments tempId =>
      (send_message stamp st socketId roomId message attachments tempId).1.1
  | MessageDelivered socketId messageId roomId =>
      (message_delivered st socketId messageId roomId).1
  | MessageRead socketId messageId roomId =>
      (message_read st socketId messageId roomId).1
  | ReactToMessage socketId roomId messageId emoji =>
      (react_to_message st socketId roomId messageId emoji).1
  | PrivateMessage createdAt stamp socketId to message tempId =>
      (private_message localeCompare createdAt stamp st socketId to message tempId).1.1
  | PrivateMessageRead socketId threadId messageId =>
      (private_message_read st socketId threadId messageId).1
  | ReactToPrivateMessage socketId threadId messageId emoji =>
      (react_to_private_message st socketId threadId messageId emoji).1
  | SetActiveRoom lastSeen socketId roomId =>
      set_active_room lastSeen st socketId roomId
  end.

Definition serve (st : Server) (requests : list Request) : Server :=
  fold_left handle requests st.
End Serve.

(** ** Vocabulary of the further properties *)

(** The requests that are not a join or a disconnect leave every name
    bound as it was and every user with its name. *)
Definition registry_same (st st' : Server) : Prop :=
  usernameToSocketId st' = usernameToSocketId st /\
  forall socketId,
    user_username <$> users st' !! socketId = user_username <$> users st !! socketId.

Definition blank (s : jsstring) : Prop := Forall (fun c => isWhiteSpace c = true) s.

Definition rawUsername (payload : JoinPayload) : option jsstring :=
  match payload with
  | PayloadString s => Some s
  | PayloadObject u => u
  | PayloadMissing => None
  end.

(** The message [send_message] builds. *)
Definition sentMessage (stamp : Stamp) (user : User) (roomId body : jsstring)
    (attachments : list jsstring) (tempId : option jsstring) : Message :=
  buildMessage stamp roomId (user_id user) (user_username user) (trim body)
    attachments false false (orNull tempId).

(** The system message [join_room] builds. *)
Definition joinMessage (stamp : Stamp) (user : User) (room : Room) : Message :=
  buildMessage stamp (room_id room) (js "system") (js "System")
    (user_username user ++ js " joined " ++ room_name room) [] true false None.

(** The state after [join_room] on a room that exists, asked for by its
    id. *)
Definition joinedState (messageStamp : Stamp) (st : Server) (socketId rid : jsstring)
    (user : User) (room : Room) : Server :=
  if JsSet.has rid (user_rooms user) then
    mkServer (<[socketId := set_user_activeRoom user rid]> (users st))
      (usernameToSocketId st) (rooms st) (privateThreads st)
  else
    mkServer
      (<[socketId :=
           set_user_activeRoom
             (set_user_rooms user (JsSet.add rid (user_rooms user))) rid]> (users st))
      (usernameToSocketId st)
      (JsMap.set rid
         (addMessageToRoom
            (set_room_members room (JsSet.add socketId (room_members room)))
            (joinMessage messageStamp user room))
         (rooms st))
      (privateThreads st).

(** Every room is stored under its id. *)
Definition keyed (rs : list (jsstring * Room)) : Prop :=
  forall k r, JsMap.get k rs = Some r -> room_id r = k.

(** A room the disconnecting user was in, afterwards: the socket and the
    name are gone from its sets and its log has received
    "<username> left the room". *)
Definition leftRoom (stamp : Stamp) (socketId username : jsstring) (room : Room) : Room :=
  addMessageToRoom
    (set_room_typing
       (set_room_members room (JsSet.delete socketId (room_members room)))
       (JsSet.delete username (room_typing room)))
    (buildMessage stamp (room_id room) (js "system") (js "System")
       (username ++ js " left the room") [] true false None).

(** The rooms of [rs] are rooms of [rs'], and a socket listed by a room is
    still listed unless [gone] allows it to go. *)
Definition members_kept (gone : jsstring -> jsstring -> Prop)
    (rs rs' : list (jsstring * Room)) : Prop :=
  forall k room,
    JsMap.get k rs = Some room ->
    exists room',
      JsMap.get k rs' = Some room' /\
      forall s, s ∈ room_members room -> s ∈ room_members room' \/ gone s k.

Definition never (s k : jsstring) : Prop := False.

(** ** The client's history loop

    [client/src]: [sortMessages] of [utils/chatHelpers.js], and of the chat
    context [ensureRoomState], the [UPSERT_ROOM] case of the reducer and
    [fetchOlderMessages]; [handleLoadMore] of [components/ChatLayout.jsx].
    One request is in flight at a time, so that the room the callback reads
    is the one the reducer replaces. *)

Record RoomState := mkRoomState {
  rs_id : jsstring;
  rs_name : jsstring;
  rs_description : jsstring;
  rs_createdAt : jsstring;
  rs_createdBy : jsstring;
  rs_memberCount : nat;
  rs_hasMore : bool;
  rs_nextCursor : option jsstring;
  rs_messages : list Message
}.

Section Client.
(** [new Date(timestamp).getTime()], on timestamps that are dates. *)
Variable getTime : jsstring -> Z.

Definition sortMessages (messages : list Message) : list Message :=
  sort (fun a b => getTime (msg_timestamp a) - getTime (msg_timestamp b))%Z messages.

Definition ensureRoomState (room : SerializedRoom) : RoomState :=
  {| rs_id := sroom_id room;
     rs_name := sroom_name room;
     rs_description := sroom_description room;
     rs_createdAt := sroom_createdAt room;
     rs_createdBy := sroom_createdBy room;
     rs_memberCount := sroom_memberCount room;
     rs_hasMore := sroom_hasMore room;
     rs_nextCursor := None;
     rs_messages := sortMessages (sroom_messages room) |}.

(** [Array.from(combined.reduce((map, item) => map.set(item.id, item), new Map()).values())] *)
Definition dedupe (combined : list Message) : list Message :=
  JsMap.values
    (fold_left (fun map item => JsMap.set (msg_id item) item map) combined []).

(** The callback of [fetchOlderMessages] on an [ok] response, with the
    [UPSERT_ROOM] it dispatches. *)
Definition receiveHistory (room : RoomState) (response : HistoryPage) : RoomState :=
  let combined := page_messages response ++ rs_messages room in
  let deduped := dedupe combined in
  let merged := sortMessages deduped in
  {| rs_id := rs_id room;
     rs_name := rs_name room;
     rs_description := rs_description room;
     rs_createdAt := rs_createdAt room;
     rs_createdBy := rs_createdBy room;
     rs_memberCount := rs_memberCount room;
     rs_hasMore := page_hasMore response;
     rs_nextCursor :=
       match page_nextCursor response with
       | Some cursor => Some cursor
       | None => rs_nextCursor room
       end;
     rs_messages := sortMessages merged |}.

(** [handleLoadMore] against a server in state [st]. *)
Definition handleLoadMore (st : Server) (socketId : jsstring) (room : RoomState)
  : RoomState :=
  if rs_hasMore room then
    let before := msg_id <$> head (rs_messages room) in
    match request_room_history st socketId (rs_id room) before (Some 30%Z) with
    | AckOk response => receiveHistory room response
    | AckError _ => room
    end
  else room.

(** The log is in the order of its timestamps. *)
Definition chronological (l : list Message) : Prop :=
  StronglySorted
    (fun a b => (getTime (msg_timestamp a) <= getTime (msg_timestamp b))%Z) l.

End Client.

(** The thread a private message between [userA] and [userB] goes to: the
    one stored under their key, or a new one. *)
Definition threadOf (localeCompare : jsstring -> jsstring -> Z) (createdAt : jsstring)
    (st : Server) (userA userB : jsstring) : Thread :=
  let key := makeThreadKey localeCompare userA userB in
  default (mkThread key [userA; userB] [] createdAt) (privateThreads st !! key).

(** The message a private send stores. *)
Definition privateMessageOf (stamp : Stamp) (thread : Thread) (sender recipient : User)
    (body : jsstring) (tempId : option jsstring) : Message :=
  registerDelivered
    (buildMessage stamp (thread_id thread) (user_id sender) (user_username sender)
       (trim body) [] false true (orNull tempId))
    (user_username recipient).

(** A slug: runs of [a-z0-9] separated by single hyphens.  [afterUnit]
    tells that the previous code unit was one of [a-z0-9]: only there may a
    hyphen stand, or the string end. *)
Fixpoint slugFrom (afterUnit : bool) (s : jsstring) : bool :=
  match s with
  | [] => afterUnit
  | c :: s' =>
      if isSlugUnit c then slugFrom true s'
      else (c =? 0x2D)%N && afterUnit && slugFrom false s'
  end.

Definition isSlug (s : jsstring) : bool := slugFrom false s.

(** Units of [a-z0-9] and hyphens, no two hyphens in a row; [afterHyphen]
    tells that the previous code unit was a hyphen. *)
Fixpoint runsFrom (afterHyphen : bool) (s : jsstring) : bool :=
  match s with
  | [] => true
  | c :: s' =>
      if isSlugUnit c then runsFrom false s'
      else (c =? 0x2D)%N && negb afterHyphen && runsFrom true s'
  end.

(** The socket.io rooms named by the socket ids that the names [names] are
    bound to. *)
Definition boundTo (st : Server) (names : list jsstring) (target : Target) : Prop :=
  exists name s, name ∈ names /\ usernameToSocketId st !! name = Some s /\
                 target = ToRoom s.

(** [l'] is the log [l] later, at most [n] messages having been appended
    since: each message of [l] has grown into the one at its place in
    [grown], [appended] holds what was appended, and [l'] is what a log of
    capacity [max] keeps of them, the last [max]. *)
Definition log_later (max n : nat) (l l' : list Message) : Prop :=
  exists grown appended,
    Forall2 grows l grown /\ length appended <= n /\
    l' = lastn max (grown ++ appended).

(** [st'] is the state [st] later, at most [n] messages having been
    appended to each log: as far as the logs within capacity go. *)
Definition server_later (n : nat) (st st' : Server) : Prop :=
  (forall k room,
     JsMap.get k (rooms st) = Some room ->
     exists room',
       JsMap.get k (rooms st') = Some room' /\
       (length (room_messages room) <= MAX_ROOM_MESSAGES ->
        log_later MAX_ROOM_MESSAGES n (room_messages room) (room_messages room'))) /\
  (forall k thread,
     privateThreads st !! k = Some thread ->
     exists thread',
       privateThreads st' !! k = Some thread' /\
       (length (thread_messages thread) <= MAX_PRIVATE_MESSAGES ->
        log_later MAX_PRIVATE_MESSAGES n (thread_messages thread)
          (thread_messages thread'))).

(** ** Typing notices and their timers

    [typingTimers] maps the key [socketId:roomId] to a pending timer.  The
    callback of a timer holds the room object, which is the one stored under
    [roomId] (a room is never removed nor replaced), and the user object,
    whose name does not change: a pending timer is recorded with the room id
    and the username its callback will use. *)

Record TypingTimer := mkTypingTimer {
  timer_roomId : jsstring;
  timer_username : jsstring
}.

Record Timed := mkTimed {
  server : Server;
  typingTimers : gmap jsstring TypingTimer
}.

Definition timerKey (socketId roomId : jsstring) : jsstring :=
  socketId ++ js ":" ++ roomId.

(** [typing] *)
Definition typing (st : Timed) (socketId roomId : jsstring) (isTyping : bool)
  : Timed * list Emit :=
  match users (server st) !! socketId, JsMap.get roomId (rooms (server st)) with
  | Some user, Some room =>
      let key := timerKey socketId roomId in
      if isTyping then
        let room :=
          set_room_typing room (JsSet.add (user_username user) (room_typing room)) in
        (mkTimed (set_rooms (server st) (JsMap.set roomId room (rooms (server st))))
           (<[key := mkTypingTimer roomId (user_username user)]> (typingTimers st)),
         [(ToRoom roomId, typing_users roomId (room_typing room))])
      else
        let room :=
          set_room_typing room (JsSet.delete (user_username user) (room_typing room)) in
        (mkTimed (set_rooms (server st) (JsMap.set roomId room (rooms (server st))))
           (delete key (typingTimers st)),
         [(ToRoom roomId, typing_users roomId (room_typing room))])
  | _, _ => (st, [])
  end.

(** The timer under [key] fires, [TYPING_TIMEOUT_MS] after it was set; a
    timer that was cleared does not. *)
Definition typing_timeout (st : Timed) (key : jsstring) : Timed * list Emit :=
  match typingTimers st !! key with
  | None => (st, [])
  | Some timer =>
      match JsMap.get (timer_roomId timer) (rooms (server st)) with
      | None => (st, [])
      | Some room =>
          let room :=
            set_room_typing room
              (JsSet.delete (timer_username timer) (room_typing room)) in
          (mkTimed
             (set_rooms (server st)
                (JsMap.set (timer_roomId timer) room (rooms (server st))))
             (delete key (typingTimers st)),
           [(ToRoom (timer_roomId timer),
             typing_users (timer_roomId timer) (room_typing room))])
      end
  end.

(** [disconnect], with the timers of the socket it clears. *)
Definition disconnect_timed (stamps : nat -> Stamp) (leftAt : jsstring) (st : Timed)
    (socketId : jsstring) : Timed * list Emit :=
  match users (server st) !! socketId with
  | None => (st, [])
  | Some _ =>
      let '(st', emits) := disconnect stamps leftAt (server st) socketId in
      (mkTimed st'
         (filter (fun entry => startsWith entry.1 (socketId ++ js ":") = false)
                 (typingTimers st)),
       emits)
  end.

End Engine.

Arguments HttpJson {A} status body.
Arguments HttpError {A} status error.

(** ** Sample data *)

Definition stamp0 : Stamp := mkStamp (js "id-0") (js "2025-01-01T00:00:00.000Z").
Definition stamp1 : Stamp := mkStamp (js "id-1") (js "2025-01-01T00:00:01.000Z").
Definition stamp2 : Stamp := mkStamp (js "id-2") (js "2025-01-01T00:00:02.000Z").

Definition draws0 : JoinDraws :=
  mkJoinDraws (js "2025-01-01T00:00:01.000Z") stamp1 stamp1.
Definition draws1 : JoinDraws :=
  mkJoinDraws (js "2025-01-01T00:00:02.000Z") stamp2 stamp2.

Definition twoDigits (n : nat) : jsstring :=
  [N.of_nat (48 + n / 10); N.of_nat (48 + n mod 10)].

(** The [n]-th second of 2025, as [toISOString] prints it ([n] < 3600). *)
Definition sampleTime (n : nat) : jsstring :=
  js "2025-01-01T00:" ++ twoDigits (n / 60) ++ js ":" ++ twoDigits (n mod 60)
  ++ js ".000Z".

(** Message number [n] of Ada, saying "Hello", sent at second [n]. *)
Definition sampleMessageIn (roomId : jsstring) (n : nat) : Message :=
  buildMessage
    (mkStamp (js "m-" ++ twoDigits (n / 100) ++ twoDigits (n mod 100)) (sampleTime n))
    roomId (js "s1") (js "Ada") (js "Hello") [] false false None.

Definition sampleMessage (n : nat) : Message := sampleMessageIn (js "general") n.

Definition sampleRoom : Room :=
  mkRoom (js "general") (js "General") [] [] (js "system") [] [] [].

Definition sampleThread : Thread :=
  mkThread (js "Ada::Grace") [js "Ada"; js "Grace"] [] [].

(** The letter K and the KELVIN SIGN: canonically equivalent, distinct
    strings. *)
Definition latinK : jsstring := [0x4B%N].
Definition kelvinSign : jsstring := [0x212A%N].

(** Ada is connected on socket [s1]. *)
Definition adaOnline : Server :=
  (user_join (host := latin1) draws0 (initialServer (host := latin1) (fun _ => stamp0)) (js "s1")
     (PayloadString (js "Ada"))).1.1.

(** Ada on [s1] and Grace on [s2]. *)
Definition adaGraceOnline : Server :=
  (user_join (host := latin1) draws1 adaOnline (js "s2") (PayloadString (js "Grace"))).1.1.

(** Ada is connected and the lobby holds 100 messages. *)
Definition hundredMessages : list Message := List.map sampleMessage (seq 0 100).

Definition historyServer : Server :=
  mkServer
    {[ js "s1" := mkUser (js "s1") (js "Ada") (js "online") (js "general")
                    [js "general"] (js "2025-01-01T00:00:01.000Z") ]}
    {[ js "Ada" := js "s1" ]}
    [ (js "general",
       mkRoom (js "general") (js "General") [] (js "2025-01-01T00:00:00.000Z")
         (js "system") hundredMessages [js "s1"] []) ]
    ∅.

(** The lobby holds one message, sent at second 200; the room created
    after it holds 100 messages sent at seconds 0 to 99. *)
Definition searchServer : Server :=
  mkServer ∅ ∅
    [ (js "general",
       mkRoom (js "general") (js "General") [] (sampleTime 0) (js "system")
         [sampleMessageIn (js "general") 200] [] []);
      (js "random",
       mkRoom (js "random") (js "Random") [] (sampleTime 0) (js "system")
         (List.map (sampleMessageIn (js "random")) (seq 0 100)) [] []) ]
    ∅.

(** A username of 25 code units. *)
Definition longName : jsstring := repeat 0x61%N 25.

(** The ids of the sample messages numbered [ns]. *)
Definition sampleIds (ns : list nat) : list jsstring :=
  List.map (fun n => msg_id (sampleMessage n)) ns.

(** The lobby of [historyServer]. *)
Definition sampleLobby : Room :=
  mkRoom (js "general") (js "General") [] (js "2025-01-01T00:00:00.000Z")
    (js "system") hundredMessages [js "s1"] [].

(** Ada and Grace as [adaGraceOnline] holds them. *)
Definition ada : User :=
  mkUser (js "s1") (js "Ada") (js "online") (js "general") [js "general"]
    (js "2025-01-01T00:00:01.000Z").
Definition grace : User :=
  mkUser (js "s2") (js "Grace") (js "online") (js "general") [js "general"]
    (js "2025-01-01T00:00:02.000Z").

(** The room "random" as the server starts with it. *)
Definition sampleRandom : Room :=
  mkRoom (js "random") (js "Random")
    (js "Anything goes. Share memes, links, and fun stuff.")
    (js "2025-01-01T00:00:00.000Z") (js "system") [] [] [].

Definition sampleRequests : list Request :=
  [ SendMessage stamp1 (js "s1") (Some (js "general")) (Some (js "hi")) [] None;
    LeaveRoom stamp2 (js "s1") (js "general");
    Disconnect (fun _ => stamp2) (js "2025-01-01T00:00:03.000Z") (js "s1") ].

(** [new Date(timestamp).getTime()] on the timestamps of the first hour of
    2025, as [sampleTime] prints them. *)
Definition digitAt (s : jsstring) (i : nat) : Z := (Z.of_N (nth i s 48%N) - 48)%Z.

Definition sampleGetTime (timestamp : jsstring) : Z :=
  (1735689600000
   + 1000 * (60 * (10 * digitAt timestamp 14 + digitAt timestamp 15)
             + (10 * digitAt timestamp 17 + digitAt timestamp 18)))%Z.

(** * Properties *)

(** ** The log bound *)

Section LogBound.
Context {A : Type}.
Implicit Types (l ms : list A) (max : nat).

Lemma trimMessages_lastn l max : trimMessages l max = lastn max l.
Proof.
  unfold trimMessages, lastn.
  destruct (Nat.ltb_spec max (length l)) as [H|H]; [done|].
  replace (length l - max) with 0 by lia. done.
Qed.

Lemma lastn_length l max : length (lastn max l) = Nat.min max (length l).
Proof. unfold lastn. rewrite length_drop. lia. Qed.

Lemma lastn_app_lastn l x max :
  lastn max (lastn max l ++ [x]) = lastn max (l ++ [x]).
Proof.
  unfold lastn. rewrite !length_app, length_drop. simpl.
  destruct (Nat.le_gt_cases (length l) max) as [H|H].
  - replace (length l - max) with 0 by lia. simpl.
    by rewrite Nat.sub_0_r.
  - rewrite !drop_app, drop_drop, length_drop.
    f_equal; f_equal; lia.
Qed.

(** Pushing and trimming one at a time keeps the last [max] elements of
    everything that was ever in the log. *)
Lemma fold_push_trim ms : forall l max,
  length l <= max ->
  fold_left (fun acc x => trimMessages (acc ++ [x]) max) ms l
  = lastn max (l ++ ms).
Proof.
  induction ms as [|x ms IH] using rev_ind; intros l max Hl; simpl.
  - rewrite app_nil_r. unfold lastn.
    by replace (length l - max) with 0 by lia.
  - rewrite fold_left_app. simpl. rewrite IH by done.
    rewrite trimMessages_lastn, lastn_app_lastn.
    by rewrite app_assoc.
Qed.
End LogBound.

Lemma room_messages_fold (ms : list Message) : forall room,
  room_messages (fold_left addMessageToRoom ms room)
  = fold_left (fun acc x => trimMessages (acc ++ [x]) MAX_ROOM_MESSAGES) ms
      (room_messages room).
Proof. induction ms as [|x ms IH]; intros room; simpl; [done|]. by rewrite IH. Qed.

Lemma thread_messages_fold (ms : list Message) : forall thread,
  thread_messages (fold_left addMessageToThread ms thread)
  = fold_left (fun acc x => trimMessages (acc ++ [x]) MAX_PRIVATE_MESSAGES) ms
      (thread_messages thread).
Proof. induction ms as [|x ms IH]; intros thread; simpl; [done|]. by rewrite IH. Qed.

Lemma lastn_app_long {A : Type} (l ms : list A) (n : nat) :
  n <= length ms -> lastn n (l ++ ms) = lastn n ms.
Proof.
  intros H. unfold lastn. rewrite length_app.
  replace (length l + length ms - n) with (length l + (length ms - n)) by lia.
  apply drop_app_add.
Qed.

(** C1. A room or thread log that is within its capacity of 250 stays within
    it under every sequence of appends; it holds the last 250 of the
    messages it ever received, in arrival order, so after more than 250
    appends it holds exactly the 250 latest appended messages. *)
Theorem C1_log_bound (room : Room) (thread : Thread) (ms : list Message) :
  length (room_messages room) <= MAX_ROOM_MESSAGES ->
  length (thread_messages thread) <= MAX_PRIVATE_MESSAGES ->
  let room' := fold_left addMessageToRoom ms room in
  let thread' := fold_left addMessageToThread ms thread in
  (length (room_messages room') <= 250 /\ length (thread_messages thread') <= 250) /\
  (room_messages room' = lastn 250 (room_messages room ++ ms) /\
   thread_messages thread' = lastn 250 (thread_messages thread ++ ms)) /\
  (250 < length ms ->
   length (room_messages room') = 250 /\ room_messages room' = lastn 250 ms /\
   length (thread_messages thread') = 250 /\ thread_messages thread' = lastn 250 ms).
Proof.
  intros Hr Ht room' thread'. subst room' thread'.
  rewrite room_messages_fold, thread_messages_fold.
  rewrite !fold_push_trim by done.
  unfold MAX_ROOM_MESSAGES, MAX_PRIVATE_MESSAGES in *.
  split; [|split].
  - rewrite !lastn_length. lia.
  - done.
  - intros Hn. rewrite !lastn_app_long by lia.
    rewrite !lastn_length. repeat split; lia.
Qed.

Lemma C1_log_bound_witness :
  let ms := List.map sampleMessage (seq 0 300) in
  let room' := fold_left addMessageToRoom ms sampleRoom in
  length (room_messages room') = 250 /\
  room_messages room' = lastn 250 ms.
Proof.
  intros ms room'.
  destruct (C1_log_bound sampleRoom sampleThread ms) as (_ & _ & H).
  - simpl. lia.
  - simpl. lia.
  - destruct H as (H1 & H2 & _); [|by split].
    subst ms. rewrite length_map, length_seq. lia.
Defined.

(** ** Reactions *)

Lemma set_reactions_same (message : Message) r :
  msg_reactions message = Some r -> set_reactions message r = message.
Proof. destruct message; simpl; intros ->; done. Qed.

Lemma set_reactions_twice (message : Message) r1 r2 :
  set_reactions (set_reactions message r1) r2 = set_reactions message r2.
Proof. done. Qed.

(** What one toggle does to the map, case by case. *)
Lemma toggleReaction_reactions (message : Message) (emoji username : jsstring) :
  let r := reactionsOf message in
  toggleReaction message emoji username =
  set_reactions message
    (if bool_decide (username ∈ holders r emoji) then
       if bool_decide (holders r emoji ∖ {[username]} = ∅)
       then delete emoji r
       else <[emoji := holders r emoji ∖ {[username]}]> r
     else <[emoji := holders r emoji ∪ {[username]}]> r).
Proof.
  intros r. subst r. unfold toggleReaction, reactionsOf, holders, setWith.
  set (r := default ∅ (msg_reactions message)).
  destruct (r !! emoji) as [s|] eqn:Hs; simpl.
  - destruct (bool_decide (username ∈ s)); [|done].
    destruct (decide (s ∖ {[username]} = ∅)) as [He|He].
    + rewrite He, size_empty. simpl.
      by rewrite !bool_decide_eq_true_2.
    + rewrite (bool_decide_eq_false_2 (size _ = 0)).
      * by rewrite (bool_decide_eq_false_2 (_ = ∅)).
      * intros Hz. by apply size_empty_inv, leibniz_equiv in Hz.
  - rewrite bool_decide_eq_false_2 by set_solver.
    by rewrite insert_insert_eq.
Qed.

Lemma toggleReaction_no_empty (message : Message) (emoji username : jsstring) :
  no_empty (reactionsOf message) ->
  no_empty (reactionsOf (toggleReaction message emoji username)).
Proof.
  intros Hne. rewrite toggleReaction_reactions.
  unfold reactionsOf at 1. simpl.
  intros e s.
  repeat case_bool_decide.
  - intros Hl. apply lookup_delete_Some in Hl as [_ Hl]. by eapply Hne.
  - intros Hl. apply lookup_insert_Some in Hl as [[_ <-]|[_ Hl]]; [done|by eapply Hne].
  - intros Hl. apply lookup_insert_Some in Hl as [[_ <-]|[_ Hl]]; [set_solver|by eapply Hne].
Qed.

Lemma toggleAll_no_empty toggles : forall message,
  no_empty (reactionsOf message) -> no_empty (reactionsOf (toggleAll message toggles)).
Proof.
  induction toggles as [|t toggles IH]; intros message H; [done|].
  apply IH. by apply toggleReaction_no_empty.
Qed.

Lemma toggleReaction_twice (message : Message) r (emoji username : jsstring) :
  msg_reactions message = Some r -> no_empty r ->
  toggleReaction (toggleReaction message emoji username) emoji username = message.
Proof.
  intros Hr Hne.
  rewrite (toggleReaction_reactions (toggleReaction _ _ _)).
  rewrite toggleReaction_reactions. rewrite set_reactions_twice.
  unfold reactionsOf. simpl. rewrite Hr. simpl.
  apply set_reactions_same. rewrite Hr. f_equal.
  unfold holders.
  destruct (r !! emoji) as [s|] eqn:Hs; simpl.
  - destruct (decide (username ∈ s)) as [Hin|Hin].
    + rewrite (bool_decide_eq_true_2 _ Hin).
      destruct (decide (s ∖ {[username]} = ∅)) as [He|He].
      * rewrite (bool_decide_eq_true_2 _ He).
        rewrite lookup_delete_eq. simpl.
        rewrite bool_decide_eq_false_2 by set_solver.
        rewrite insert_delete_eq. symmetry. apply insert_id. rewrite Hs. f_equal.
        apply set_eq. intros x. destruct (decide (x = username)); set_solver.
      * rewrite (bool_decide_eq_false_2 _ He).
        rewrite lookup_insert_eq. simpl.
        rewrite bool_decide_eq_false_2 by set_solver.
        rewrite insert_insert_eq. symmetry. apply insert_id. rewrite Hs. f_equal.
        apply set_eq. intros x. destruct (decide (x = username)); set_solver.
    + rewrite (bool_decide_eq_false_2 _ Hin).
      rewrite lookup_insert_eq. simpl.
      rewrite bool_decide_eq_true_2 by set_solver.
      assert (Heq : (s ∪ {[username]}) ∖ {[username]} = s) by set_solver.
      rewrite Heq.
      rewrite bool_decide_eq_false_2 by (exact (Hne _ _ Hs)).
      rewrite insert_insert_eq. symmetry. by apply insert_id.
  - rewrite (bool_decide_eq_false_2 (username ∈ ∅)) by set_solver.
    rewrite lookup_insert_eq. simpl.
    rewrite bool_decide_eq_true_2 by set_solver.
    rewrite bool_decide_eq_true_2 by set_solver.
    rewrite delete_insert_eq. symmetry. by apply delete_id.
Qed.

(** C5. On a message whose reaction sets are all non-empty (as
    [buildMessage] and every toggle leave them): toggling the same
    (emoji, username) twice gives back the message; toggling once when the
    username is absent adds that one (emoji, username) entry and nothing
    else; the last holder toggling off removes the emoji key; and after any
    sequence of toggles no emoji maps to the empty set. *)
Theorem C5_toggle_reaction (message : Message)
    (r : gmap jsstring (gset jsstring)) (emoji username : jsstring) :
  msg_reactions message = Some r -> no_empty r ->
  toggleReaction (toggleReaction message emoji username) emoji username = message
  /\ (username ∉ holders r emoji ->
      forall e u,
        u ∈ holders (reactionsOf (toggleReaction message emoji username)) e
        <-> u ∈ holders r e \/ (e = emoji /\ u = username))
  /\ (r !! emoji = Some {[username]} ->
      reactionsOf (toggleReaction message emoji username) !! emoji = None)
  /\ (forall toggles, no_empty (reactionsOf (toggleAll message toggles))).
Proof.
  intros Hr Hne. split; [|split; [|split]].
  - by eapply toggleReaction_twice.
  - intros Hnot e u. rewrite toggleReaction_reactions.
    unfold reactionsOf. simpl. rewrite Hr. simpl.
    rewrite (bool_decide_eq_false_2 _ Hnot).
    unfold holders at 1.
    destruct (decide (e = emoji)) as [->|Hneq].
    + rewrite lookup_insert_eq. simpl. set_solver.
    + rewrite lookup_insert_ne by done. fold (holders r e). naive_solver.
  - intros Hs. rewrite toggleReaction_reactions.
    unfold reactionsOf. simpl. rewrite Hr. simpl.
    unfold holders. rewrite Hs. simpl.
    rewrite bool_decide_eq_true_2 by set_solver.
    rewrite bool_decide_eq_true_2 by set_solver.
    apply lookup_delete_eq.
  - intros toggles. apply toggleAll_no_empty.
    unfold reactionsOf. rewrite Hr. exact Hne.
Qed.

Lemma C5_toggle_reaction_witness :
  let message := sampleMessage 0 in
  let thumbsUp := [0xD83D; 0xDC4D]%N in
  toggleReaction (toggleReaction message thumbsUp (js "Grace")) thumbsUp (js "Grace")
  = message.
Proof.
  intros message thumbsUp.
  refine (proj1 (C5_toggle_reaction message ∅ thumbsUp (js "Grace") _ _)).
  - reflexivity.
  - intros e s Hs. by rewrite lookup_empty in Hs.
Defined.

(** ** The identity registry *)

Section Registry.
Context `{host : Host}.

(** What the handlers other than the registry's own do to [users] and
    [usernameToSocketId]: nothing. *)
Lemma createRoom_registry stamp st name options :
  users (createRoom stamp st name options).1 = users st /\
  usernameToSocketId (createRoom stamp st name options).1 = usernameToSocketId st.
Proof. unfold createRoom. by destruct (JsMap.get _ _). Qed.

Lemma addSystemMessage_registry stamp st roomId text :
  users (addSystemMessage stamp st roomId text).1 = users st /\
  usernameToSocketId (addSystemMessage stamp st roomId text).1 = usernameToSocketId st.
Proof. unfold addSystemMessage. by destruct (JsMap.get _ _). Qed.

Lemma disconnect_room_registry stamp socketId username acc roomId :
  users (disconnect_room stamp socketId username acc roomId).1 = users acc.1 /\
  usernameToSocketId (disconnect_room stamp socketId username acc roomId).1
  = usernameToSocketId acc.1.
Proof.
  unfold disconnect_room. destruct acc as [st emits].
  destruct (JsMap.get roomId (rooms st)) as [room|]; [|done].
  match goal with |- context [addSystemMessage ?a ?b ?c ?d] =>
    pose proof (addSystemMessage_registry a b c d) as H;
    destruct (addSystemMessage a b c d) as [st2 emits2] end.
  exact H.
Qed.

Lemma disconnect_rooms_registry stamps socketId username roomIds : forall i acc,
  users (disconnect_rooms stamps i socketId username acc roomIds).1 = users acc.1 /\
  usernameToSocketId (disconnect_rooms stamps i socketId username acc roomIds).1
  = usernameToSocketId acc.1.
Proof.
  induction roomIds as [|roomId rest IH]; intros i acc; simpl; [done|].
  destruct (IH (S i) (disconnect_room (stamps i) socketId username acc roomId)) as [-> ->].
  apply disconnect_room_registry.
Qed.

Lemma user_join_outcome draws st socketId payload :
  JoinOutcome st socketId payload (user_join draws st socketId payload).
Proof.
  unfold user_join.
  destruct (joinUsername payload) as [|c name] eqn:Hname; simpl.
  { by apply JoinInvalid. }
  rewrite <- Hname.
  case_bool_decide as Hin.
  { apply JoinConflict; [congruence|done]. }
  assert (Hfree : usernameToSocketId st !! joinUsername payload = None).
  { destruct (usernameToSocketId st !! joinUsername payload) eqn:E; [|done].
    exfalso. apply Hin. by eexists. }
  match goal with |- context [match JsMap.get ?k ?m with Some room => (?s1, room) | None => ?cr end] =>
    assert (Hreg : users (match JsMap.get k m with Some room => (s1, room) | None => cr end).1
                   = users s1 /\
                   usernameToSocketId (match JsMap.get k m with Some room => (s1, room) | None => cr end).1
                   = usernameToSocketId s1)
      by (destruct (JsMap.get k m); [done|apply createRoom_registry]);
    destruct (match JsMap.get k m with Some room => (s1, room) | None => cr end)
      as [st2 defaultRoom]
  end.
  simpl in Hreg. destruct Hreg as [Hu Hn].
  match goal with |- context [addSystemMessage ?a ?b ?c ?d] =>
    pose proof (addSystemMessage_registry a b c d) as [Hu4 Hn4];
    destruct (addSystemMessage a b c d) as [st4 emits2] end.
  simpl in Hu4, Hn4.
  eapply JoinAccepted; [congruence|done|..].
  - rewrite Hu4, Hu. apply insert_insert_eq.
  - by rewrite Hn4, Hn.
  - reflexivity.
  - reflexivity.
Qed.

Lemma disconnect_registry stamps leftAt st socketId user :
  users st !! socketId = Some user ->
  users (disconnect stamps leftAt st socketId).1 = delete socketId (users st) /\
  usernameToSocketId (disconnect stamps leftAt st socketId).1
  = delete (user_username user) (usernameToSocketId st).
Proof.
  intros Hu. unfold disconnect. rewrite Hu.
  pose proof (disconnect_rooms_registry stamps socketId (user_username user)
                (user_rooms user) 0 (st, [])) as [H1 H2].
  destruct (disconnect_rooms _ _ _ _ _ _) as [st1 emits]. simpl in *.
  by rewrite H1, H2.
Qed.

Lemma disconnect_unknown stamps leftAt st socketId :
  users st !! socketId = None -> disconnect stamps leftAt st socketId = (st, []).
Proof. intros Hu. unfold disconnect. by rewrite Hu. Qed.

Lemma joinUsername_trim payload :
  joinUsername payload <> [] -> exists raw, joinUsername payload = trim raw.
Proof.
  unfold joinUsername.
  destruct payload as [s|[s|]|]; simpl; try done;
    (destruct s; simpl; [done|]; intros _; by eexists).
Qed.

Lemma initialServer_registry stamps :
  users (initialServer stamps) = ∅ /\ usernameToSocketId (initialServer stamps) = ∅.
Proof.
  unfold initialServer. simpl.
  repeat match goal with |- context [createRoom ?a ?b ?c ?d] =>
    lazymatch b with
    | context [createRoom] => fail
    | _ => destruct (createRoom_registry a b c d) as [-> ->]
    end end.
  done.
Qed.

Lemma step_registry_ok st ev : registry_ok st -> registry_ok (step st ev).
Proof.
  intros Hok. destruct ev as [draws sid payload|stamps leftAt sid]; simpl.
  - destruct (user_join_outcome draws st sid payload)
      as [|? ?|st' emits user Hne Hfree Hu Hn Hname Hid]; simpl; try done.
    intros sid' user'. rewrite Hu, Hn.
    destruct (decide (sid = sid')) as [<-|Hneq].
    + rewrite lookup_insert_eq. intros [= <-]. rewrite Hname.
      rewrite lookup_insert_eq. split; [done|]. split; [done|].
      by apply joinUsername_trim.
    + rewrite lookup_insert_ne by done. intros Hl.
      destruct (Hok _ _ Hl) as (Hb & Hnz & Hraw).
      split; [|done].
      rewrite lookup_insert_ne; [done|]. intros Heq. rewrite Heq in Hfree. congruence.
  - destruct (users st !! sid) as [user|] eqn:Hu.
    + destruct (disconnect_registry stamps leftAt st sid user Hu) as [Hu' Hn'].
      intros sid' user'. rewrite Hu', Hn'. intros Hl.
      apply lookup_delete_Some in Hl as [Hneq Hl].
      destruct (Hok _ _ Hl) as (Hb & Hnz & Hraw).
      split; [|done].
      rewrite lookup_delete_ne; [done|]. intros Heq.
      destruct (Hok _ _ Hu) as (Hb' & _). rewrite Heq in Hb'. congruence.
    + by rewrite disconnect_unknown.
Qed.

Lemma run_registry_ok evs : forall st, registry_ok st -> registry_ok (run st evs).
Proof.
  induction evs as [|ev evs IH]; intros st Hok; [done|].
  apply IH. by apply step_registry_ok.
Qed.

Lemma reachable_registry_ok stamps evs : registry_ok (run (initialServer stamps) evs).
Proof.
  apply run_registry_ok. intros sid user.
  destruct (initialServer_registry stamps) as [-> _]. by rewrite lookup_empty.
Qed.

(** What does hold of the name a live user holds.  After every sequence of
    join and disconnect events: two live users with the same username are
    the same connection; a join whose trimmed username is held by a live
    user is refused with "That username is already in use" and changes
    nothing; and a disconnect removes the user and frees the username it
    held, which the next join with that name obtains. *)
Lemma held_username_is_unique_and_released (boot : nat -> Stamp) (evs : list Event) :
  let st := run (initialServer boot) evs in
  (forall s1 s2 u1 u2,
     users st !! s1 = Some u1 -> users st !! s2 = Some u2 ->
     user_username u1 = user_username u2 -> s1 = s2)
  /\ (forall draws socketId payload s u,
        users st !! s = Some u -> joinUsername payload = user_username u ->
        user_join draws st socketId payload = (st, [], AckError ERR_USERNAME_IN_USE))
  /\ (forall stamps leftAt socketId u,
        users st !! socketId = Some u ->
        let st' := (disconnect stamps leftAt st socketId).1 in
        users st' !! socketId = None /\
        usernameToSocketId st' !! user_username u = None /\
        forall draws socketId' payload,
          joinUsername payload = user_username u ->
          exists st'' emits u',
            user_join draws st' socketId' payload = (st'', emits, AckOk (js "general")) /\
            users st'' !! socketId' = Some u' /\
            user_username u' = user_username u).
Proof.
  intros st. pose proof (reachable_registry_ok boot evs) as Hok. fold st in Hok.
  split; [|split].
  - intros s1 s2 u1 u2 H1 H2 Heq.
    destruct (Hok _ _ H1) as (B1 & _). destruct (Hok _ _ H2) as (B2 & _).
    rewrite Heq in B1. congruence.
  - intros draws sid payload s u Hu Hname.
    destruct (Hok _ _ Hu) as (Hb & Hnz & _).
    unfold user_join. rewrite Hname.
    destruct (user_username u) as [|c name] eqn:E; [done|]. simpl.
    rewrite bool_decide_eq_true_2; [done|]. by eexists.
  - intros stamps leftAt sid u Hu st'.
    destruct (disconnect_registry stamps leftAt st sid u Hu) as [Hu' Hn'].
    fold st' in Hu', Hn'.
    split; [rewrite Hu'; apply lookup_delete_eq|].
    split; [rewrite Hn'; apply lookup_delete_eq|].
    intros draws sid' payload Hname.
    destruct (Hok _ _ Hu) as (_ & Hnz & _).
    destruct (user_join_outcome draws st' sid' payload)
      as [Hz|_ Hin|st'' emits u' _ _ Hu'' _ Hname' _].
    + congruence.
    + rewrite Hname, Hn', lookup_delete_eq in Hin. by destruct Hin.
    + exists st'', emits, u'. split; [done|].
      rewrite Hu'', lookup_insert_eq. split; [done|congruence].
Qed.

(** C2.  A username outlives its connection.  After any sequence of join
    and disconnect events, let a new connection join under a free name,
    join again under another free name, which [user_join] accepts without
    looking whether the connection has a user already, and disconnect.
    Then the connection is gone and the users are those of before, none of
    whom holds the first name; yet the first name is still bound to the
    dead connection, [disconnect] having released only the name the user
    held last, and a join under it by anyone is refused with "That username
    is already in use", for ever. *)
Theorem C2_username_outlives_connection (boot : nat -> Stamp) (evs : list Event)
    (draws1 draws2 draws3 : JoinDraws) (stamps : nat -> Stamp) (leftAt : jsstring)
    (socketId other : jsstring) (first second : JoinPayload) :
  let st := run (initialServer boot) evs in
  joinUsername first <> [] -> joinUsername second <> [] ->
  joinUsername first <> joinUsername second ->
  usernameToSocketId st !! joinUsername first = None ->
  usernameToSocketId st !! joinUsername second = None ->
  users st !! socketId = None ->
  let st1 := step st (EvJoin draws1 socketId first) in
  let st2 := step st1 (EvJoin draws2 socketId second) in
  let st3 := step st2 (EvDisconnect stamps leftAt socketId) in
  (user_join draws1 st socketId first).2 = AckOk (js "general") /\
  (user_join draws2 st1 socketId second).2 = AckOk (js "general") /\
  users st3 = users st /\
  (forall s u, users st3 !! s = Some u -> user_username u <> joinUsername first) /\
  usernameToSocketId st3 !! joinUsername first = Some socketId /\
  user_join draws3 st3 other first = (st3, [], AckError ERR_USERNAME_IN_USE).
Proof.
  intros st Hf Hs Hne Hfree1 Hfree2 Hnew st1 st2 st3.
  pose proof (reachable_registry_ok boot evs) as Hok. fold st in Hok.
  subst st1. simpl in *.
  destruct (user_join_outcome draws1 st socketId first)
    as [Hz|_ Hin|st1 emits1 u1 _ _ Hu1 Hn1 Hname1 _]; simpl in *.
  { done. }
  { rewrite Hfree1 in Hin. by destruct Hin. }
  assert (Hfree2' : usernameToSocketId st1 !! joinUsername second = None).
  { rewrite Hn1, lookup_insert_ne by done. exact Hfree2. }
  subst st2.
  destruct (user_join_outcome draws2 st1 socketId second)
    as [Hz|_ Hin|st2 emits2 u2 _ _ Hu2 Hn2 Hname2 _]; simpl in *.
  { done. }
  { rewrite Hfree2' in Hin. by destruct Hin. }
  assert (Hu2' : users st2 !! socketId = Some u2) by (rewrite Hu2; apply lookup_insert_eq).
  destruct (disconnect_registry stamps leftAt st2 socketId u2 Hu2') as [Hu3 Hn3].
  fold st3 in Hu3, Hn3.
  assert (Husers : users st3 = users st).
  { rewrite Hu3, Hu2, Hu1, !delete_insert_eq. by apply delete_id. }
  assert (Hbound : usernameToSocketId st3 !! joinUsername first = Some socketId).
  { rewrite Hn3, Hname2, Hn2, Hn1, delete_insert_eq.
    rewrite lookup_delete_ne by done. apply lookup_insert_eq. }
  split; [done|]. split; [done|]. split; [exact Husers|]. split; [|split; [exact Hbound|]].
  - intros s u Hu Heq. rewrite Husers in Hu.
    destruct (Hok _ _ Hu) as (Hb & _). rewrite Heq, Hfree1 in Hb. done.
  - unfold user_join.
    destruct (joinUsername first) as [|c name] eqn:E; [done|]. simpl.
    rewrite bool_decide_eq_true_2; [done|]. by eexists.
Qed.

(** C8 (as the server has it).  After every sequence of join and
    disconnect events every live user holds a username of at least one
    code unit, the trimmed form of a submitted name; a join whose username
    trims to the empty string is refused with "Username is required" and
    changes nothing; a join with any other username that is not bound is
    accepted, whatever its length. *)
Theorem C8_username_nonempty (boot : nat -> Stamp) (evs : list Event) :
  let st := run (initialServer boot) evs in
  (forall socketId u,
     users st !! socketId = Some u ->
     1 <= length (user_username u) /\ exists raw, user_username u = trim raw)
  /\ (forall draws socketId payload,
        joinUsername payload = [] ->
        user_join draws st socketId payload = (st, [], AckError ERR_USERNAME_REQUIRED))
  /\ (forall draws socketId payload,
        joinUsername payload <> [] ->
        usernameToSocketId st !! joinUsername payload = None ->
        exists st' emits u,
          user_join draws st socketId payload = (st', emits, AckOk (js "general")) /\
          users st' !! socketId = Some u /\
          user_username u = joinUsername payload).
Proof.
  intros st. pose proof (reachable_registry_ok boot evs) as Hok. fold st in Hok.
  split; [|split].
  - intros sid u Hu. destruct (Hok _ _ Hu) as (_ & Hnz & Hraw).
    split; [|done]. destruct (user_username u); [done|simpl; lia].
  - intros draws sid payload Hz. unfold user_join. by rewrite Hz.
  - intros draws sid payload Hnz Hfree.
    destruct (user_join_outcome draws st sid payload)
      as [Hz|_ Hin|st' emits u _ _ Hu _ Hname _].
    + done.
    + rewrite Hfree in Hin. by destruct Hin.
    + exists st', emits, u. by rewrite Hu, lookup_insert_eq.
Qed.

End Registry.

(** On the server as it starts: connection [s1] joins as Ada, joins again as
    Bea and disconnects; nobody is connected, and Ada is still taken. *)
Lemma C2_username_outlives_connection_witness :
  let st1 := step (host := latin1) (initialServer (host := latin1) (fun _ => stamp0))
               (EvJoin draws0 (js "s1") (PayloadString (js "Ada"))) in
  let st2 := step (host := latin1) st1 (EvJoin draws1 (js "s1") (PayloadString (js "Bea"))) in
  let st3 := step (host := latin1) st2
               (EvDisconnect (fun _ => stamp2) (js "2025-01-01T00:00:03.000Z") (js "s1")) in
  users st3 = ∅ /\
  usernameToSocketId st3 !! js "Ada" = Some (js "s1") /\
  user_join (host := latin1) draws1 st3 (js "s2") (PayloadString (js "Ada"))
  = (st3, [], AckError ERR_USERNAME_IN_USE).
Proof.
  destruct (C2_username_outlives_connection (host := latin1) (fun _ => stamp0) []
              draws0 draws1 draws1 (fun _ => stamp2) (js "2025-01-01T00:00:03.000Z")
              (js "s1") (js "s2") (PayloadString (js "Ada")) (PayloadString (js "Bea")))
    as (_ & _ & Hu & _ & Hb & Hj).
  - vm_compute. discriminate.
  - vm_compute. discriminate.
  - vm_compute. discriminate.
  - vm_compute. reflexivity.
  - vm_compute. reflexivity.
  - vm_compute. reflexivity.
  - split; [|exact (conj Hb Hj)].
    exact (eq_trans Hu (proj1 (initialServer_registry (host := latin1) (fun _ => stamp0)))).
Defined.

(** The server accepts a username of 25 code units: the user it registers
    holds it. *)
Lemma C8_long_username_accepted :
  (user_join (host := latin1) draws0 (initialServer (host := latin1) (fun _ => stamp0)) (js "s1")
     (PayloadString longName)).2
  = AckOk (js "general") /\
  (length ∘ user_username) <$>
    (users (user_join (host := latin1) draws0 (initialServer (host := latin1) (fun _ => stamp0)) (js "s1")
              (PayloadString longName)).1.1
       !! js "s1")
  = Some 25.
Proof. split; vm_compute; reflexivity. Qed.

(** ** Leaving a room *)

Lemma JsMap_get_set_eq {V : Type} (k : jsstring) (v : V) m :
  JsMap.get k (JsMap.set k v m) = Some v.
Proof.
  induction m as [|[k' v'] m IH]; simpl.
  - by rewrite decide_True.
  - destruct (decide (k' = k)) as [->|Hne]; simpl.
    + by rewrite decide_True.
    + by rewrite decide_False.
Qed.

Lemma JsMap_get_set_ne {V : Type} (k k0 : jsstring) (v : V) m :
  k <> k0 -> JsMap.get k0 (JsMap.set k v m) = JsMap.get k0 m.
Proof.
  intros Hne. induction m as [|[k' v'] m IH]; simpl.
  - by rewrite decide_False.
  - destruct (decide (k' = k)) as [->|Hne']; simpl.
    + by rewrite !decide_False.
    + destruct (decide (k' = k0)); [done|]. exact IH.
Qed.


(** ** Thread keys *)

Lemma alter_last_snoc {A : Type} (f : A -> A) (l : list A) (x : A) :
  alter_last f (l ++ [x]) = l ++ [f x].
Proof. unfold alter_last. rewrite rev_app_distr. simpl. by rewrite rev_involutive. Qed.

Lemma lastn_snoc {A : Type} (l : list A) (x : A) (n : nat) :
  1 <= n -> lastn n (l ++ [x]) = lastn (n - 1) l ++ [x].
Proof.
  intros Hn. unfold lastn. rewrite length_app. simpl.
  rewrite drop_app_le by lia. do 2 f_equal. lia.
Qed.

Section ThreadProperties.
Variable localeCompare : jsstring -> jsstring -> Z.

Lemma makeThreadKey_cases (a b : jsstring) :
  makeThreadKey localeCompare a b =
  if (0 <? localeCompare a b)%Z then b ++ js "::" ++ a else a ++ js "::" ++ b.
Proof. unfold makeThreadKey, sort. simpl. by destruct (0 <? _)%Z. Qed.

(** The key is symmetric on every pair that the comparator, when it
    answers 0, answers on equal strings only. *)
Lemma makeThreadKey_symmetric_when_separated (a b : jsstring) :
  (forall x y, (0 < localeCompare x y)%Z <-> (localeCompare y x < 0)%Z) ->
  (localeCompare a b = 0%Z -> a = b) ->
  makeThreadKey localeCompare a b = makeThreadKey localeCompare b a.
Proof.
  intros Hanti Hsep. rewrite !makeThreadKey_cases.
  destruct (Z.ltb_spec 0 (localeCompare a b)) as [Hab|Hab];
    destruct (Z.ltb_spec 0 (localeCompare b a)) as [Hba|Hba]; try done.
  - pose proof (proj1 (Hanti _ _) Hab). lia.
  - assert (Hz : localeCompare a b = 0%Z).
    { destruct (Z.eq_dec (localeCompare a b) 0) as [|Hne]; [done|].
      assert (localeCompare a b < 0)%Z as Hlt by lia.
      apply Hanti in Hlt. lia. }
    by rewrite (Hsep Hz).
Qed.

(** C6, on the letter K and the KELVIN SIGN.  The two strings are
    canonically equivalent, so a conforming [localeCompare] answers 0 on
    them in both orders; the sort then keeps each pair in the order it was
    given and the two keys differ. *)
Theorem C6_thread_key_not_symmetric :
  localeCompare latinK kelvinSign = 0%Z ->
  localeCompare kelvinSign latinK = 0%Z ->
  makeThreadKey localeCompare latinK kelvinSign = latinK ++ js "::" ++ kelvinSign /\
  makeThreadKey localeCompare kelvinSign latinK = kelvinSign ++ js "::" ++ latinK /\
  makeThreadKey localeCompare latinK kelvinSign
  <> makeThreadKey localeCompare kelvinSign latinK.
Proof.
  intros H1 H2. rewrite !makeThreadKey_cases, H1, H2. simpl.
  repeat split. discriminate.
Qed.
End ThreadProperties.

Lemma C6_thread_key_not_symmetric_witness :
  makeThreadKey canonCompare latinK kelvinSign
  <> makeThreadKey canonCompare kelvinSign latinK.
Proof.
  refine (proj2 (proj2 (C6_thread_key_not_symmetric canonCompare _ _))).
  - reflexivity.
  - reflexivity.
Defined.

(** ** Private messages *)

Lemma trimMessages_alter_last {A : Type} (f : A -> A) (l : list A) (x : A) (max : nat) :
  1 <= max ->
  alter_last f (trimMessages (l ++ [x]) max) = trimMessages (l ++ [f x]) max.
Proof.
  intros Hmax. rewrite !trimMessages_lastn, !lastn_snoc by done.
  apply alter_last_snoc.
Qed.

Section PrivateMessages.
Variable localeCompare : jsstring -> jsstring -> Z.

End PrivateMessages.



(** ** Room history *)

(** The page size: 30 when the request names none (or names 0), the
    requested size up to 100, and 100 above. *)
Lemma parsedLimit_cases (limit : option Z) :
  parsedLimit None = 30%Z /\
  parsedLimit (Some 0%Z) = 30%Z /\
  (forall n, (0 < n <= 100)%Z -> parsedLimit (Some n) = n) /\
  (forall n, (100 <= n)%Z -> parsedLimit (Some n) = 100%Z).
Proof.
  unfold parsedLimit. simpl. repeat split.
  - intros n Hn. destruct (Z.eqb_spec n 0); lia.
  - intros n Hn. destruct (Z.eqb_spec n 0); lia.
Qed.

Lemma findIndex_first (b : jsstring) (pre post : list Message) (m : Message) :
  Forall (fun m' => msg_id m' <> b) pre -> msg_id m = b ->
  findIndex (fun message => bool_decide (msg_id message = b)) (pre ++ m :: post)
  = Z.of_nat (length pre).
Proof.
  intros Hpre Hm. induction Hpre as [|x pre Hx Hpre IH]; simpl.
  - by rewrite bool_decide_eq_true_2.
  - rewrite bool_decide_eq_false_2 by done. rewrite IH.
    destruct (Z.eqb_spec (Z.of_nat (length pre)) (-1)); lia.
Qed.

Lemma slice_of_prefix {A : Type} (pre rest : list A) (start : Z) :
  (0 <= start <= Z.of_nat (length pre))%Z ->
  slice (pre ++ rest) start (Z.of_nat (length pre)) = drop (Z.to_nat start) pre.
Proof.
  intros Hs. unfold slice, relIndex. rewrite length_app.
  destruct (Z.ltb_spec start 0) as [?|_]; [lia|].
  destruct (Z.ltb_spec (Z.of_nat (length pre)) 0) as [?|_]; [lia|].
  rewrite !Z.min_l by lia.
  rewrite drop_app_le by lia.
  apply take_app_length'. rewrite length_drop. lia.
Qed.

(** The page the handler answers with, when the messages before the cursor
    (all of the log when there is no cursor) are [pre]: the last
    [parsedLimit] messages of [pre]; [hasMore] tells whether [pre] holds
    more; [nextCursor] is the id of the message just before the page. *)
Lemma request_room_history_page (st : Server) (socketId roomId : jsstring)
    (user : User) (room : Room) (cursor : option jsstring) (limit : option Z)
    (pre rest : list Message) :
  users st !! socketId = Some user ->
  JsMap.get roomId (rooms st) = Some room ->
  room_messages room = pre ++ rest ->
  Forall (fun m => msg_id m <> []) pre ->
  (0 < parsedLimit limit)%Z ->
  (cursor = None /\ rest = []) \/
  (exists b m post, cursor = Some b /\ b <> [] /\ rest = m :: post /\ msg_id m = b /\
                    Forall (fun m' => msg_id m' <> b) pre) ->
  let n := Z.to_nat (parsedLimit limit) in
  request_room_history st socketId roomId cursor limit
  = AckOk {| page_roomId := roomId;
             page_messages := List.map serializeMessage (lastn n pre);
             page_hasMore := n <? length pre;
             page_nextCursor :=
               if n <? length pre then msg_id <$> pre !! (length pre - n - 1)
               else None |}.
Proof.
  intros Hu Hr Hlog Hids Hlim Hcur n.
  unfold request_room_history. rewrite Hu, Hr.
  set (L := parsedLimit limit) in *.
  assert (Hend :
    (let beforeIndex :=
       match orNull cursor with
       | Some b => findIndex (fun message => bool_decide (msg_id message = b))
                     (room_messages room)
       | None => (-1)%Z
       end in
     if (beforeIndex =? -1)%Z then Z.of_nat (length (room_messages room))
     else beforeIndex) = Z.of_nat (length pre)).
  { destruct Hcur as [[-> ->]|(b & m & post & -> & Hb & -> & Hm & Hpre)]; simpl.
    - by rewrite Hlog, app_nil_r.
    - destruct b as [|c b]; [done|]. simpl.
      rewrite Hlog, findIndex_first by done.
      destruct (Z.eqb_spec (Z.of_nat (length pre)) (-1)); [lia|done]. }
  simpl in Hend. rewrite Hend. clear Hend.
  set (start := Z.max 0 (Z.of_nat (length pre) - L)).
  assert (Hstart : Z.to_nat start = length pre - n) by (subst start n; lia).
  rewrite Hlog, slice_of_prefix by (subst start; lia).
  rewrite Hstart. fold (lastn n pre).
  assert (Hmore : (0 <? start)%Z = (n <? length pre)).
  { subst start n. destruct (Z.ltb_spec 0 (Z.max 0 (Z.of_nat (length pre) - L)));
      destruct (Nat.ltb_spec (Z.to_nat L) (length pre)); lia. }
  rewrite Hmore. do 2 f_equal.
  destruct (Nat.ltb_spec n (length pre)) as [Hlt|Hge]; [|done].
  unfold at_index.
  destruct (Z.ltb_spec (start - 1) 0) as [?|_]; [subst start n; lia|].
  replace (Z.to_nat (start - 1)) with (length pre - n - 1) by (subst start n; lia).
  rewrite lookup_app_l by lia.
  destruct (pre !! (length pre - n - 1)) as [m'|] eqn:Hm'; [|done]. simpl.
  assert (Hid : msg_id m' <> []).
  { eapply (proj1 (Forall_forall _ _) Hids). by eapply list_elem_of_lookup_2. }
  by destruct (msg_id m').
Qed.

Lemma first_page_of_hundred :
  request_room_history historyServer (js "s1") (js "general") None (Some 30%Z)
  = AckOk (mkHistoryPage (js "general")
             (List.map serializeMessage (lastn 30 hundredMessages))
             true (Some (msg_id (sampleMessage 69)))).
Proof. vm_compute. reflexivity. Qed.

Lemma second_page_of_hundred :
  (page_messages <$>
     match request_room_history historyServer (js "s1") (js "general")
             (Some (msg_id (sampleMessage 69))) (Some 30%Z) with
     | AckOk page => Some page
     | AckError _ => None
     end)
  = Some (List.map serializeMessage (List.map sampleMessage (seq 39 30))).
Proof. vm_compute. reflexivity. Qed.

Lemma followed_pages_of_hundred :
  List.map msg_id
    (followCursor 100 historyServer (js "s1") (js "general") None (Some 30%Z) [])
  = sampleIds (seq 0 7 ++ seq 8 30 ++ seq 39 30 ++ seq 70 30).
Proof. vm_compute. reflexivity. Qed.

Lemma followed_pages_incomplete :
  followCursor 100 historyServer (js "s1") (js "general") None (Some 30%Z) []
  <> List.map serializeMessage hundredMessages.
Proof.
  intros Heq. pose proof followed_pages_of_hundred as Hids.
  rewrite Heq in Hids. apply (f_equal length) in Hids.
  vm_compute in Hids. discriminate.
Qed.

(** C3, on a log of 100 messages read in pages of 30.  The first page is
    the last 30 messages, with [hasMore] and the id of message 69 as
    [nextCursor]; the page before that cursor is messages 39 to 68.
    Following [nextCursor] to the end yields 97 messages, not 100: the
    messages 69, 38 and 7, each named by a cursor, are in no page. *)
Theorem C3_follow_cursor_skips_messages :
  request_room_history historyServer (js "s1") (js "general") None (Some 30%Z)
  = AckOk (mkHistoryPage (js "general")
             (List.map serializeMessage (lastn 30 hundredMessages))
             true (Some (msg_id (sampleMessage 69))))
  /\ (page_messages <$>
        match request_room_history historyServer (js "s1") (js "general")
                (Some (msg_id (sampleMessage 69))) (Some 30%Z) with
        | AckOk page => Some page
        | AckError _ => None
        end)
     = Some (List.map serializeMessage (List.map sampleMessage (seq 39 30)))
  /\ List.map msg_id
       (followCursor 100 historyServer (js "s1") (js "general") None (Some 30%Z) [])
     = sampleIds (seq 0 7 ++ seq 8 30 ++ seq 39 30 ++ seq 70 30)
  /\ followCursor 100 historyServer (js "s1") (js "general") None (Some 30%Z) []
     <> List.map serializeMessage hundredMessages.
Proof.
  exact (conj first_page_of_hundred
          (conj second_page_of_hundred
             (conj followed_pages_of_hundred followed_pages_incomplete))).
Qed.

(** C4. For a room that exists, the HTTP route answers 200 with a page, and
    the socket event, for a connection that has a user, acknowledges with
    the same page: the same messages, [hasMore] and [nextCursor].  Without
    a user the socket event fails; the route has no user to ask for. *)
Theorem C4_http_and_socket_history_agree (st : Server) (socketId roomId : jsstring)
    (before : option jsstring) (limit : option Z) (room : Room) :
  JsMap.get roomId (rooms st) = Some room ->
  exists page,
    get_room_messages st roomId before limit = HttpJson 200 page /\
    (is_Some (users st !! socketId) ->
     request_room_history st socketId roomId before limit = AckOk page) /\
    (users st !! socketId = None ->
     request_room_history st socketId roomId before limit
     = AckError ERR_ROOM_NOT_FOUND).
Proof.
  intros Hr. unfold get_room_messages, request_room_history. rewrite Hr.
  eexists. split; [reflexivity|]. split.
  - intros [user ->]. reflexivity.
  - intros ->. reflexivity.
Qed.

Lemma C4_http_and_socket_history_agree_witness :
  exists page,
    get_room_messages historyServer (js "general")
      (Some (msg_id (sampleMessage 69))) (Some 30%Z) = HttpJson 200 page /\
    request_room_history historyServer (js "s1") (js "general")
      (Some (msg_id (sampleMessage 69))) (Some 30%Z) = AckOk page.
Proof.
  destruct (C4_http_and_socket_history_agree historyServer (js "s1") (js "general")
              (Some (msg_id (sampleMessage 69))) (Some 30%Z)
              (mkRoom (js "general") (js "General") [] (js "2025-01-01T00:00:00.000Z")
                 (js "system") hundredMessages [js "s1"] []))
    as (page & Hhttp & Hsock & _).
  - reflexivity.
  - exists page. split; [exact Hhttp|]. apply Hsock. vm_compute. eauto.
Defined.

(** ** Search *)

Section Search.
Context `{host : Host}.

Lemma sliceFrom_lastn {A : Type} (l : list A) (n : nat) :
  1 <= n -> sliceFrom l (- Z.of_nat n) = lastn n l.
Proof.
  intros Hn. unfold sliceFrom, slice, relIndex, lastn.
  destruct (Z.ltb_spec (- Z.of_nat n) 0) as [_|?]; [|lia].
  destruct (Z.ltb_spec (Z.of_nat (length l)) 0) as [?|_]; [lia|].
  rewrite Z.min_id.
  replace (Z.to_nat (Z.max (Z.of_nat (length l) + - Z.of_nat n) 0))
    with (length l - n) by lia.
  apply take_ge. rewrite length_drop. lia.
Qed.

Lemma lastn_elem_of {A : Type} (x : A) (l : list A) (n : nat) :
  x ∈ lastn n l -> x ∈ l.
Proof.
  unfold lastn. intros Hin.
  rewrite <- (take_drop (length l - n) l). apply elem_of_app. by right.
Qed.

Lemma search_room_matches (query : jsstring) (room : Room) (results : list SearchResult) :
  search_room (toLowerCase query) results (Some room)
  = results ++ roomMatches query room.
Proof.
  unfold search_room, roomMatches.
  generalize dependent results.
  induction (room_messages room) as [|m ms IH]; intros results; simpl.
  - by rewrite app_nil_r.
  - rewrite IH. unfold matches.
    destruct (includes _ _); simpl; [by rewrite <- app_assoc|done].
Qed.

Lemma search_rooms_matches (query : jsstring) (targets : list Room) :
  forall results,
    fold_left (search_room (toLowerCase query)) (List.map Some targets) results
    = results ++ flat_map (roomMatches query) targets.
Proof.
  induction targets as [|room targets IH]; intros results.
  - simpl. by rewrite app_nil_r.
  - cbn [List.map fold_left flat_map].
    rewrite search_room_matches, IH. by rewrite <- app_assoc.
Qed.

(** C9 (as the route has it).  Without a query, or with the empty query,
    the search answers nothing.  With a query it answers the matches of the
    searched rooms, room after room in the order of creation and each room
    in the order of its log, cut to the last 100 of that list; with a room
    filter these are the 100 latest matches of that room.  A message
    matches when its body, lower-cased by the engine, contains the query,
    lower-cased by the engine: the theorem holds whatever that lower-casing
    is. *)
Theorem C9_search_last_hundred_matches (st : Server) (roomId q : option jsstring) :
  (orNull q = None -> get_search st roomId q = [])
  /\ (forall query,
        orNull q = Some query ->
        get_search st roomId q = lastn 100 (allMatches st roomId query) /\
        length (get_search st roomId q) <= 100 /\
        (forall result,
           result ∈ get_search st roomId q ->
           exists room message,
             room ∈ searchedRooms st roomId /\
             message ∈ room_messages room /\
             matches query message = true /\
             result = mkSearchResult (room_id room) (room_name room)
                        (serializeMessage message)) /\
        (forall id room,
           orNull roomId = Some id -> JsMap.get id (rooms st) = Some room ->
           List.map res_message (get_search st roomId q)
           = List.map serializeMessage
               (lastn 100 (List.filter (matches query) (room_messages room))))).
Proof.
  split.
  - intros Hq. unfold get_search. by rewrite Hq.
  - intros query Hq.
    assert (Heq : get_search st roomId q = lastn 100 (allMatches st roomId query)).
    { unfold get_search, allMatches, searchedRooms. rewrite Hq.
      change (-100)%Z with (- Z.of_nat 100)%Z. rewrite sliceFrom_lastn by lia. f_equal.
      destruct (orNull roomId) as [id|].
      - destruct (JsMap.get id (rooms st)) as [room|].
        + cbn [fold_left option_list].
          rewrite search_room_matches. simpl. by rewrite app_nil_r.
        + done.
      - unfold JsMap.values. by rewrite search_rooms_matches. }
    split; [exact Heq|]. split; [|split].
    + rewrite Heq, lastn_length. lia.
    + intros result Hin. rewrite Heq in Hin.
      apply lastn_elem_of in Hin.
      unfold allMatches in Hin.
      apply list_elem_of_In, in_flat_map in Hin as (room & Hroom & Hres).
      unfold roomMatches in Hres.
      apply in_map_iff in Hres as (message & <- & Hm).
      apply filter_In in Hm as [Hm Hmatch].
      exists room, message.
      by rewrite <- !list_elem_of_In in *.
    + intros id room Hid Hroom. rewrite Heq.
      unfold allMatches, searchedRooms. rewrite Hid, Hroom. simpl.
      rewrite app_nil_r. unfold roomMatches, lastn.
      rewrite length_map, skipn_map, List.map_map. done.
Qed.

End Search.

Lemma search_empty_query :
  get_search (host := latin1) historyServer None (Some []) = [] /\
  length (allMatches (host := latin1) historyServer None []) = 100.
Proof. split; vm_compute; reflexivity. Qed.

Lemma search_drops_latest :
  matches (host := latin1) (js "hello") (sampleMessageIn (js "general") 200) = true /\
  List.map res_roomId (get_search (host := latin1) searchServer None (Some (js "hello")))
  = repeat (js "random") 100 /\
  forallb (fun result => sentBefore (res_message result)
                           (sampleMessageIn (js "general") 200))
    (get_search (host := latin1) searchServer None (Some (js "hello"))) = true.
Proof. repeat split; vm_compute; reflexivity. Qed.

(** Two inputs on which the search is not "the messages containing [q],
    the 100 most recent".  The empty query is contained in the body of each
    of the 100 messages, and the search answers nothing.  And over all
    rooms, with 101 matches, the 100 results all come from the room created
    last and were all sent before the one match of the lobby, which is left
    out.  Bodies and queries are in Basic Latin, where the engine lower-cases
    as [latin1] does. *)
Lemma C9_search_counterexample :
  (get_search (host := latin1) historyServer None (Some []) = [] /\
   length (allMatches (host := latin1) historyServer None []) = 100)
  /\ (matches (host := latin1) (js "hello") (sampleMessageIn (js "general") 200) = true /\
      List.map res_roomId (get_search (host := latin1) searchServer None (Some (js "hello")))
      = repeat (js "random") 100 /\
      forallb (fun result => sentBefore (res_message result)
                               (sampleMessageIn (js "general") 200))
        (get_search (host := latin1) searchServer None (Some (js "hello"))) = true).
Proof. exact (conj search_empty_query search_drops_latest). Qed.

(** ** Examples *)

(** Ada, who is in the lobby only, leaves "random": the call succeeds and
    the log of "random" receives "Ada left Random". *)
Example leave_room_not_a_member :
  (user_rooms <$> users adaOnline !! js "s1") = Some [js "general"] /\
  (leave_room stamp2 adaOnline (js "s1") (js "random")).2 = AckOk tt /\
  (List.map msg_body <$>
     (room_messages <$>
        JsMap.get (js "random")
          (rooms (leave_room stamp2 adaOnline (js "s1") (js "random")).1.1)))
  = Some [js "Ada left Random"].
Proof. repeat split; vm_compute; reflexivity. Qed.

(** A socket that joins twice keeps its first name bound: after it
    disconnects, the first name stays unavailable. *)
Example first_name_stays_bound :
  let st1 := (user_join (host := latin1) draws1 adaOnline (js "s1") (PayloadString (js "Bea"))).1.1 in
  let st2 := (disconnect (fun _ => stamp2) (sampleTime 9) st1 (js "s1")).1 in
  users st2 = ∅ /\
  (user_join (host := latin1) draws1 st2 (js "s2") (PayloadString (js "Ada"))).2
  = AckError ERR_USERNAME_IN_USE.
Proof. split; vm_compute; reflexivity. Qed.

(** On a page size below zero the page is empty, [hasMore] is set and there
    is no cursor. *)
Example negative_limit_page :
  request_room_history historyServer (js "s1") (js "general") None (Some (-5)%Z)
  = AckOk (mkHistoryPage (js "general") [] true None).
Proof. vm_compute. reflexivity. Qed.

(** * Further properties *)

Section Further.
Context `{host : Host}.

(** ** How logs, rooms and threads evolve *)

Lemma grows_refl (m : Message) : grows m m.
Proof. unfold grows. repeat split; done. Qed.

Lemma grows_trans (m1 m2 m3 : Message) : grows m1 m2 -> grows m2 m3 -> grows m1 m3.
Proof.
  unfold grows. intros H1 H2.
  destruct H1 as (?&?&?&?&?&?&?&?&?&?&?&?).
  destruct H2 as (?&?&?&?&?&?&?&?&?&?&?&?).
  repeat split; try congruence; set_solver.
Qed.

Lemma registerDelivered_grows (m : Message) (username : jsstring) :
  grows m (registerDelivered m username).
Proof. unfold grows. simpl. repeat split; try done. set_solver. Qed.

Lemma registerRead_grows (m : Message) (username : jsstring) :
  grows m (registerRead m username).
Proof. unfold grows. simpl. repeat split; try done. set_solver. Qed.

Lemma toggleReaction_grows (m : Message) (emoji username : jsstring) :
  grows m (toggleReaction m emoji username).
Proof. rewrite toggleReaction_reactions. unfold grows. simpl. repeat split; done. Qed.

Lemma buildMessage_ok stamp roomId senderId senderName body attachments isSystem isPrivate tempId :
  message_ok (buildMessage stamp roomId senderId senderName body attachments
                isSystem isPrivate tempId).
Proof.
  unfold message_ok. simpl. split; [|split].
  - exists ∅. split; [done|]. intros e s Hs. by rewrite lookup_empty in Hs.
  - eexists. split; [done|]. set_solver.
  - eexists. split; [done|]. intros ->. set_solver.
Qed.

Lemma registerDelivered_ok (m : Message) (username : jsstring) :
  message_ok m -> message_ok (registerDelivered m username).
Proof.
  intros (Hr & (d & Hd & Hin) & Hrb). unfold message_ok. simpl.
  split; [done|]. split; [|done].
  eexists. split; [done|]. rewrite Hd. simpl. set_solver.
Qed.

Lemma registerRead_ok (m : Message) (username : jsstring) :
  message_ok m -> message_ok (registerRead m username).
Proof.
  intros (Hr & Hd & (rb & Hrb & Hin)). unfold message_ok. simpl.
  split; [done|]. split; [done|].
  eexists. split; [done|]. rewrite Hrb. simpl. intros Hs. set_solver.
Qed.

Lemma toggleReaction_ok (m : Message) (emoji username : jsstring) :
  message_ok m -> message_ok (toggleReaction m emoji username).
Proof.
  intros ((r & Hr & Hne) & Hd & Hrb).
  assert (Hne' : no_empty (reactionsOf (toggleReaction m emoji username))).
  { apply toggleReaction_no_empty. unfold reactionsOf. by rewrite Hr. }
  revert Hne'. rewrite toggleReaction_reactions. unfold reactionsOf at 1. simpl.
  intros Hne'. unfold message_ok. simpl. split; [|done]. eauto.
Qed.

Lemma Forall2_grows_refl (l : list Message) : Forall2 grows l l.
Proof. induction l; constructor; [apply grows_refl|done]. Qed.

Lemma Forall2_grows_trans (l1 l2 l3 : list Message) :
  Forall2 grows l1 l2 -> Forall2 grows l2 l3 -> Forall2 grows l1 l3.
Proof.
  intros H. revert l3. induction H as [|x y l1 l2 Hxy H IH]; intros l3 H3.
  - by inversion H3.
  - inversion H3 as [|? z ? l3' Hyz H3']; subst. constructor.
    + by eapply grows_trans.
    + by apply IH.
Qed.

Lemma alter_first_found {A : Type} (p : A -> bool) (g : A -> A) (l : list A) (x : A) :
  find_first p l = Some x ->
  alter_first p (fun _ => g x) l = alter_first p g l.
Proof.
  unfold find_first. induction l as [|y l IH]; simpl; [done|].
  destruct (p y) eqn:Hp.
  - by intros [= ->].
  - intros H. by rewrite IH.
Qed.

Lemma alter_first_length {A : Type} (p : A -> bool) (g : A -> A) (l : list A) :
  length (alter_first p g l) = length l.
Proof. induction l as [|y l IH]; simpl; [done|]. destruct (p y); simpl; congruence. Qed.

Lemma alter_first_grows (p : Message -> bool) (g : Message -> Message) (l : list Message) :
  (forall m, grows m (g m)) -> Forall2 grows l (alter_first p g l).
Proof.
  intros Hg. induction l as [|y l IH]; simpl; [constructor|].
  destruct (p y); constructor; try done; first [apply Forall2_grows_refl|apply grows_refl].
Qed.

Lemma alter_first_Forall {A : Type} (P : A -> Prop) (p : A -> bool) (g : A -> A) (l : list A) :
  (forall x, P x -> P (g x)) -> Forall P l -> Forall P (alter_first p g l).
Proof.
  intros Hg H. induction H as [|y l Hy H IH]; simpl; [constructor|].
  destruct (p y); constructor; auto.
Qed.

Lemma trimMessages_bound {A : Type} (l : list A) (max : nat) :
  length (trimMessages l max) <= max.
Proof. rewrite trimMessages_lastn, lastn_length. lia. Qed.

Lemma trimMessages_Forall {A : Type} (P : A -> Prop) (l : list A) (max : nat) :
  Forall P l -> Forall P (trimMessages l max).
Proof. rewrite trimMessages_lastn. unfold lastn. apply Forall_drop. Qed.

Lemma JsMap_get_set {V : Type} (k k0 : jsstring) (v : V) m :
  JsMap.get k0 (JsMap.set k v m) = if decide (k = k0) then Some v else JsMap.get k0 m.
Proof.
  destruct (decide (k = k0)) as [->|Hne].
  - apply JsMap_get_set_eq.
  - by apply JsMap_get_set_ne.
Qed.

Lemma room_step_refl (r : Room) : room_step r r.
Proof. unfold room_step. repeat split; done. Qed.

Lemma room_step_trans (r1 r2 r3 : Room) :
  room_step r1 r2 -> room_step r2 r3 -> room_step r1 r3.
Proof.
  unfold room_step. intros (?&?&?&?&?&?&?) (?&?&?&?&?&?&?).
  repeat split; try congruence; eauto.
Qed.

Lemma room_step_members (r : Room) (members : list jsstring) :
  room_step r (set_room_members r members).
Proof. unfold room_step. simpl. repeat split; done. Qed.

Lemma room_step_typing (r : Room) (typing : list jsstring) :
  room_step r (set_room_typing r typing).
Proof. unfold room_step. simpl. repeat split; done. Qed.

Lemma room_step_push (r : Room) (m : Message) :
  message_ok m -> room_step r (addMessageToRoom r m).
Proof.
  intros Hm. unfold room_step. simpl. repeat split; try done.
  - intros _. apply trimMessages_bound.
  - intros H. apply trimMessages_Forall, Forall_app. split; [done|]. by constructor.
Qed.

Lemma room_step_alter (r : Room) (p : Message -> bool) (g : Message -> Message) :
  (forall m, grows m (g m)) -> (forall m, message_ok m -> message_ok (g m)) ->
  room_step r (set_room_messages r (alter_first p g (room_messages r))).
Proof.
  intros Hg Hok. unfold room_step. simpl. repeat split; try done.
  - by rewrite alter_first_length.
  - by apply alter_first_Forall.
Qed.

Lemma thread_step_refl (t : Thread) : thread_step t t.
Proof. unfold thread_step. repeat split; done. Qed.

Lemma thread_step_trans (t1 t2 t3 : Thread) :
  thread_step t1 t2 -> thread_step t2 t3 -> thread_step t1 t3.
Proof.
  unfold thread_step. intros (?&?&?&?&?) (?&?&?&?&?).
  repeat split; try congruence; eauto.
Qed.

Lemma thread_step_alter (t : Thread) (p : Message -> bool) (g : Message -> Message) :
  (forall m, grows m (g m)) -> (forall m, message_ok m -> message_ok (g m)) ->
  thread_step t (set_thread_messages t (alter_first p g (thread_messages t))).
Proof.
  intros Hg Hok. unfold thread_step. simpl. repeat split; try done.
  - by rewrite alter_first_length.
  - by apply alter_first_Forall.
Qed.

Lemma room_rel_refl (k : jsstring) (o : option Room) : room_rel k o o.
Proof. destruct o; simpl; [apply room_step_refl|done]. Qed.

Lemma room_rel_trans (k : jsstring) (o1 o2 o3 : option Room) :
  room_rel k o1 o2 -> room_rel k o2 o3 -> room_rel k o1 o3.
Proof.
  destruct o1 as [r1|], o2 as [r2|], o3 as [r3|]; simpl; try done.
  - apply room_step_trans.
  - intros (Hid & Hlen & Hok) (Hid' & _ & _ & _ & _ & Hlen' & Hok').
    unfold room_ok. split; [congruence|]. split; auto.
Qed.

Lemma thread_rel_refl (k : jsstring) (o : option Thread) : thread_rel k o o.
Proof. destruct o; simpl; [apply thread_step_refl|done]. Qed.

Lemma thread_rel_trans (k : jsstring) (o1 o2 o3 : option Thread) :
  thread_rel k o1 o2 -> thread_rel k o2 o3 -> thread_rel k o1 o3.
Proof.
  destruct o1 as [r1|], o2 as [r2|], o3 as [r3|]; simpl; try done.
  - apply thread_step_trans.
  - intros (Hid & Hp & Hlen & Hok) (Hid' & Hp' & _ & Hlen' & Hok').
    unfold thread_ok. split; [congruence|]. split; [congruence|]. split; auto.
Qed.

Lemma server_evolves_refl (st : Server) : server_evolves st st.
Proof. split; intros k; [apply room_rel_refl|apply thread_rel_refl]. Qed.

Lemma server_evolves_trans (st1 st2 st3 : Server) :
  server_evolves st1 st2 -> server_evolves st2 st3 -> server_evolves st1 st3.
Proof.
  intros [R1 T1] [R2 T2]. split; intros k.
  - eapply room_rel_trans; [apply R1|apply R2].
  - eapply thread_rel_trans; [apply T1|apply T2].
Qed.

(** A state with the same rooms and threads. *)
Lemma server_evolves_same (st st' : Server) :
  rooms st' = rooms st -> privateThreads st' = privateThreads st ->
  server_evolves st st'.
Proof. intros Hr Ht. unfold server_evolves. rewrite Hr, Ht. apply server_evolves_refl. Qed.

(** One room replaced by a later form of itself. *)
Lemma server_evolves_room (st st' : Server) (k : jsstring) (r r' : Room) :
  JsMap.get k (rooms st) = Some r -> room_step r r' ->
  rooms st' = JsMap.set k r' (rooms st) ->
  privateThreads st' = privateThreads st ->
  server_evolves st st'.
Proof.
  intros Hget Hstep Hr Ht. unfold server_evolves. rewrite Hr, Ht. split; intros k0.
  - rewrite JsMap_get_set. destruct (decide (k = k0)) as [<-|_].
    + by rewrite Hget.
    + apply room_rel_refl.
  - apply thread_rel_refl.
Qed.

Lemma addSystemMessage_evolves stamp st roomId text :
  server_evolves st (addSystemMessage stamp st roomId text).1.
Proof.
  unfold addSystemMessage.
  destruct (JsMap.get roomId (rooms st)) as [room|] eqn:Hr; simpl.
  - eapply server_evolves_room; [exact Hr| |done|done].
    apply room_step_push, buildMessage_ok.
  - apply server_evolves_refl.
Qed.

Lemma createRoom_evolves stamp st name options :
  server_evolves st (createRoom stamp st name options).1.
Proof.
  unfold createRoom.
  set (key := orElse _ _).
  destruct (JsMap.get key (rooms st)) as [room|] eqn:Hr; simpl.
  - apply server_evolves_refl.
  - split; intros k0; simpl; [|apply thread_rel_refl].
    rewrite JsMap_get_set. destruct (decide (key = k0)) as [<-|_].
    + rewrite Hr. simpl. unfold room_ok. simpl. split; [done|]. split; [lia|constructor].
    + apply room_rel_refl.
Qed.

(** What [createRoom] returns is the room stored under the id it computed. *)
Lemma createRoom_stored stamp st name options :
  JsMap.get (orElse (opt_id options) (normalizeRoomId (uuid stamp) name))
    (rooms (createRoom stamp st name options).1)
  = Some (createRoom stamp st name options).2.
Proof.
  unfold createRoom. set (key := orElse _ _).
  destruct (JsMap.get key (rooms st)) as [room|] eqn:Hr; simpl; [done|].
  apply JsMap_get_set_eq.
Qed.

(** ** Every request leaves a later state *)

Ltac with_system_message H :=
  match goal with |- context [addSystemMessage ?a ?b ?c ?d] =>
    pose proof (addSystemMessage_evolves a b c d) as H;
    destruct (addSystemMessage a b c d) as [? ?]
  end.

Lemma user_join_evolves draws st socketId payload :
  server_evolves st (user_join draws st socketId payload).1.1.
Proof.
  unfold user_join.
  destruct (negb (truthy _)); [apply server_evolves_refl|].
  case_bool_decide; [apply server_evolves_refl|].
  match goal with |- context [match JsMap.get ?k ?m with Some room => (?s1, room) | None => ?cr end] =>
    destruct (JsMap.get k m) as [room|] eqn:Hg
  end.
  - with_system_message Hev. simpl in *.
    eapply server_evolves_trans; [|exact Hev].
    eapply server_evolves_room; [exact Hg|apply room_step_members|done|done].
  - match goal with |- context [createRoom ?a ?b ?c ?d] =>
      pose proof (createRoom_evolves a b c d) as Hc;
      pose proof (createRoom_stored a b c d) as Hs;
      destruct (createRoom a b c d) as [st2 defaultRoom]
    end.
    with_system_message Hev. simpl in *.
    eapply server_evolves_trans; [|exact Hev].
    eapply server_evolves_trans; [eapply server_evolves_trans; [|exact Hc]|].
    + by apply server_evolves_same.
    + eapply server_evolves_room; [exact Hs|apply room_step_members|done|done].
Qed.

Lemma disconnect_room_evolves stamp socketId username acc roomId :
  server_evolves acc.1 (disconnect_room stamp socketId username acc roomId).1.
Proof.
  unfold disconnect_room. destruct acc as [st emits].
  destruct (JsMap.get roomId (rooms st)) as [room|] eqn:Hr; [|apply server_evolves_refl].
  with_system_message Hev. simpl in *.
  eapply server_evolves_trans; [|exact Hev].
  eapply server_evolves_room; [exact Hr| |done|done].
  eapply room_step_trans; [apply room_step_members|apply room_step_typing].
Qed.

Lemma disconnect_rooms_evolves stamps socketId username roomIds : forall i acc,
  server_evolves acc.1 (disconnect_rooms stamps i socketId username acc roomIds).1.
Proof.
  induction roomIds as [|roomId rest IH]; intros i acc; simpl.
  - apply server_evolves_refl.
  - eapply server_evolves_trans; [apply disconnect_room_evolves|apply IH].
Qed.

Lemma disconnect_evolves stamps leftAt st socketId :
  server_evolves st (disconnect stamps leftAt st socketId).1.
Proof.
  unfold disconnect. destruct (users st !! socketId) as [user|]; [|apply server_evolves_refl].
  pose proof (disconnect_rooms_evolves stamps socketId (user_username user)
                (user_rooms user) 0 (st, [])) as Hev.
  destruct (disconnect_rooms _ _ _ _ _ _) as [st1 emits]. simpl in *.
  eapply server_evolves_trans; [exact Hev|]. by apply server_evolves_same.
Qed.

Lemma leave_room_evolves stamp st socketId roomId :
  server_evolves st (leave_room stamp st socketId roomId).1.1.
Proof.
  unfold leave_room.
  destruct (users st !! socketId) as [user|]; [|apply server_evolves_refl].
  destruct (JsMap.get roomId (rooms st)) as [room|] eqn:Hr; [|apply server_evolves_refl].
  with_system_message Hev. simpl in *.
  assert (H1 : server_evolves st s).
  { eapply server_evolves_trans; [|exact Hev].
    eapply server_evolves_room; [exact Hr|apply room_step_members|done|done]. }
  case_bool_decide; simpl; [|done].
  eapply server_evolves_trans; [exact H1|]. by apply server_evolves_same.
Qed.

Lemma send_message_evolves stamp st socketId roomId message attachments tempId :
  server_evolves st (send_message stamp st socketId roomId message attachments tempId).1.1.
Proof.
  unfold send_message.
  destruct (users st !! socketId) as [user|]; [|apply server_evolves_refl].
  destruct (orNull roomId) as [rid|]; [|apply server_evolves_refl].
  destruct (negb (truthy _)); [apply server_evolves_refl|].
  destruct (JsMap.get rid (rooms st)) as [room|] eqn:Hr; [|apply server_evolves_refl].
  simpl. eapply server_evolves_room; [exact Hr| |done|done].
  apply room_step_push, buildMessage_ok.
Qed.

Lemma room_message_event_evolves st roomId room messageId (g : Message -> Message) message :
  JsMap.get roomId (rooms st) = Some room ->
  find_first (hasId messageId) (room_messages room) = Some message ->
  (forall m, grows m (g m)) -> (forall m, message_ok m -> message_ok (g m)) ->
  server_evolves st
    (set_rooms st
       (JsMap.set roomId
          (set_room_messages room
             (alter_first (hasId messageId) (fun _ => g message) (room_messages room)))
          (rooms st))).
Proof.
  intros Hr Hf Hg Hok.
  eapply server_evolves_room; [exact Hr| |done|done].
  rewrite (alter_first_found _ g _ _ Hf). by apply room_step_alter.
Qed.

Lemma message_delivered_evolves st socketId messageId roomId :
  server_evolves st (message_delivered st socketId messageId roomId).1.
Proof.
  unfold message_delivered.
  destruct (users st !! socketId) as [user|]; [|apply server_evolves_refl].
  destruct (JsMap.get roomId (rooms st)) as [room|] eqn:Hr; [|apply server_evolves_refl].
  destruct (find_first _ _) as [message|] eqn:Hf; [|apply server_evolves_refl].
  simpl.
  apply (room_message_event_evolves st roomId room messageId
           (fun m => registerDelivered m (user_username user)) message Hr Hf).
  - intros m. apply registerDelivered_grows.
  - intros m. apply registerDelivered_ok.
Qed.

Lemma message_read_evolves st socketId messageId roomId :
  server_evolves st (message_read st socketId messageId roomId).1.
Proof.
  unfold message_read.
  destruct (users st !! socketId) as [user|]; [|apply server_evolves_refl].
  destruct (JsMap.get roomId (rooms st)) as [room|] eqn:Hr; [|apply server_evolves_refl].
  destruct (find_first _ _) as [message|] eqn:Hf; [|apply server_evolves_refl].
  simpl.
  apply (room_message_event_evolves st roomId room messageId
           (fun m => registerRead m (user_username user)) message Hr Hf).
  - intros m. apply registerRead_grows.
  - intros m. apply registerRead_ok.
Qed.

Lemma react_to_message_evolves st socketId roomId messageId emoji :
  server_evolves st (react_to_message st socketId roomId messageId emoji).1.
Proof.
  unfold react_to_message.
  destruct (users st !! socketId) as [user|]; [|apply server_evolves_refl].
  destruct (JsMap.get roomId (rooms st)) as [room|] eqn:Hr; [|apply server_evolves_refl].
  destruct (find_first _ _) as [message|] eqn:Hf; [|apply server_evolves_refl].
  simpl.
  apply (room_message_event_evolves st roomId room messageId
           (fun m => toggleReaction m emoji (user_username user)) message Hr Hf).
  - intros m. apply toggleReaction_grows.
  - intros m. apply toggleReaction_ok.
Qed.

(** One thread replaced by a later form of itself. *)
Lemma server_evolves_thread (st st' : Server) (k : jsstring) (t t' : Thread) :
  privateThreads st !! k = Some t -> thread_step t t' ->
  privateThreads st' = <[k := t']> (privateThreads st) ->
  rooms st' = rooms st ->
  server_evolves st st'.
Proof.
  intros Hget Hstep Ht Hr. unfold server_evolves. rewrite Hr, Ht. split; intros k0.
  - apply room_rel_refl.
  - destruct (decide (k = k0)) as [<-|Hne].
    + by rewrite lookup_insert_eq, Hget.
    + rewrite lookup_insert_ne by done. apply thread_rel_refl.
Qed.

Lemma private_message_read_evolves st socketId threadId messageId :
  server_evolves st (private_message_read st socketId threadId messageId).1.
Proof.
  unfold private_message_read.
  destruct (users st !! socketId) as [user|]; [|apply server_evolves_refl].
  destruct (privateThreads st !! threadId) as [thread|] eqn:Ht; [|apply server_evolves_refl].
  destruct (find_first _ _) as [message|] eqn:Hf; [|apply server_evolves_refl].
  simpl. eapply server_evolves_thread; [exact Ht| |done|done].
  rewrite (alter_first_found _ (fun m => registerRead m (user_username user)) _ _ Hf).
  apply thread_step_alter.
  - intros m. apply registerRead_grows.
  - intros m. apply registerRead_ok.
Qed.

Lemma react_to_private_message_evolves st socketId threadId messageId emoji :
  server_evolves st (react_to_private_message st socketId threadId messageId emoji).1.
Proof.
  unfold react_to_private_message.
  destruct (users st !! socketId) as [user|]; [|apply server_evolves_refl].
  destruct (privateThreads st !! threadId) as [thread|] eqn:Ht; [|apply server_evolves_refl].
  destruct (find_first _ _) as [message|] eqn:Hf; [|apply server_evolves_refl].
  simpl. eapply server_evolves_thread; [exact Ht| |done|done].
  rewrite (alter_first_found _ (fun m => toggleReaction m emoji (user_username user)) _ _ Hf).
  apply thread_step_alter.
  - intros m. apply toggleReaction_grows.
  - intros m. apply toggleReaction_ok.
Qed.

Lemma set_active_room_evolves lastSeen st socketId roomId :
  server_evolves st (set_active_room lastSeen st socketId roomId).
Proof.
  unfold set_active_room.
  destruct (users st !! socketId) as [user|]; [|apply server_evolves_refl].
  destruct (JsMap.get roomId (rooms st)); [|apply server_evolves_refl].
  by apply server_evolves_same.
Qed.

Lemma join_room_evolves roomStamp messageStamp st socketId requestedRoom roomName description :
  server_evolves st
    (join_room roomStamp messageStamp st socketId requestedRoom roomName description).1.1.
Proof.
  unfold join_room.
  destruct (users st !! socketId) as [user|]; [|apply server_evolves_refl].
  destruct (orNull _) as [targetName|]; [|apply server_evolves_refl].
  match goal with |- context [createRoom ?a ?b ?c ?d] =>
    pose proof (createRoom_evolves a b c d) as Hc;
    pose proof (createRoom_stored a b c d) as Hs;
    destruct (createRoom a b c d) as [st1 room]
  end.
  simpl in Hc, Hs.
  destruct (negb (JsSet.has (room_id room) (user_rooms user))).
  - with_system_message Hev. simpl in *.
    eapply server_evolves_trans; [exact Hc|].
    eapply server_evolves_trans; [|eapply server_evolves_trans; [exact Hev|]].
    + eapply server_evolves_room; [exact Hs|apply room_step_members|done|done].
    + by apply server_evolves_same.
  - simpl. eapply server_evolves_trans; [exact Hc|]. by apply server_evolves_same.
Qed.

Section ServeEvolves.
Variable localeCompare : jsstring -> jsstring -> Z.

Lemma private_message_evolves createdAt stamp st socketId to message tempId :
  server_evolves st
    (private_message localeCompare createdAt stamp st socketId to message tempId).1.1.
Proof.
  unfold private_message.
  destruct (users st !! socketId) as [user|]; [|apply server_evolves_refl].
  destruct (orNull to) as [toName|]; [|apply server_evolves_refl].
  destruct (negb (truthy _)); [apply server_evolves_refl|].
  destruct (usernameToSocketId st !! toName) as [sid|]; [|apply server_evolves_refl].
  simpl. destruct (truthy sid); [|apply server_evolves_refl].
  destruct (users st !! sid) as [recipient|]; [|apply server_evolves_refl].
  unfold ensurePrivateThread.
  set (key := makeThreadKey localeCompare (user_username user) (user_username recipient)).
  set (body := match orNull message with Some m => trim m | None => [] end).
  assert (Hm : forall tid,
    message_ok (registerDelivered
                  (buildMessage stamp tid (user_id user) (user_username user) body []
                     false true (orNull tempId)) (user_username recipient))).
  { intros tid. apply registerDelivered_ok, buildMessage_ok. }
  destruct (privateThreads st !! key) as [thread|] eqn:Ht; simpl.
  - rewrite trimMessages_alter_last by (unfold MAX_PRIVATE_MESSAGES; lia).
    eapply server_evolves_thread; [exact Ht| |done|done].
    unfold thread_step. simpl. repeat split; try done.
    + intros _. apply trimMessages_bound.
    + intros H. apply trimMessages_Forall, Forall_app. split; [done|]. constructor; [apply Hm|done].
  - split; intros k0; simpl; [apply room_rel_refl|].
    destruct (decide (key = k0)) as [<-|Hne].
    + rewrite lookup_insert_eq, Ht. simpl. unfold thread_ok. simpl.
      split; [done|]. split; [done|].
      match goal with |- context [trimMessages [?x] _] =>
        change [x] with ([] ++ [x]) end.
      rewrite trimMessages_alter_last by (unfold MAX_PRIVATE_MESSAGES; lia).
      split; [unfold MAX_PRIVATE_MESSAGES; lia|].
      apply trimMessages_Forall. constructor; [apply Hm|done].
    + rewrite !lookup_insert_ne by done. apply thread_rel_refl.
Qed.

Lemma handle_evolves (st : Server) (request : Request) :
  server_evolves st (handle localeCompare st request).
Proof.
  destruct request; simpl.
  - apply user_join_evolves.
  - apply disconnect_evolves.
  - apply join_room_evolves.
  - apply leave_room_evolves.
  - apply send_message_evolves.
  - apply message_delivered_evolves.
  - apply message_read_evolves.
  - apply react_to_message_evolves.
  - apply private_message_evolves.
  - apply private_message_read_evolves.
  - apply react_to_private_message_evolves.
  - apply set_active_room_evolves.
Qed.

Lemma serve_evolves (requests : list Request) : forall st,
  server_evolves st (serve localeCompare st requests).
Proof.
  induction requests as [|request requests IH]; intros st; simpl.
  - apply server_evolves_refl.
  - eapply server_evolves_trans; [apply handle_evolves|apply IH].
Qed.
End ServeEvolves.

(** ** What holds in every state the requests lead to *)

Lemma evolves_rooms_ok (st st' : Server) :
  rooms_ok st -> server_evolves st st' -> rooms_ok st'.
Proof.
  intros Hok [Hr _] k r' Hget. specialize (Hr k). rewrite Hget in Hr.
  destruct (JsMap.get k (rooms st)) as [r|] eqn:Hg; simpl in Hr; [|done].
  destruct (Hok _ _ Hg) as (Hid & Hlen & Hms).
  destruct Hr as (Hid' & _ & _ & _ & _ & Hlen' & Hms').
  unfold room_ok. split; [congruence|]. split; auto.
Qed.

Lemma evolves_threads_ok (st st' : Server) :
  threads_ok st -> server_evolves st st' -> threads_ok st'.
Proof.
  intros Hok [_ Ht] k t' Hget. specialize (Ht k). rewrite Hget in Ht.
  destruct (privateThreads st !! k) as [t|] eqn:Hg; simpl in Ht; [|done].
  destruct (Hok _ _ Hg) as (Hid & Hp & Hlen & Hms).
  destruct Ht as (Hid' & Hp' & _ & Hlen' & Hms').
  unfold thread_ok. split; [congruence|]. split; [congruence|]. split; auto.
Qed.

Lemma createRooms_evolves {A : Type} (create : Server -> A -> Server) (l : list A) :
  (forall st x, server_evolves st (create st x)) ->
  forall st, server_evolves st (fold_left create l st).
Proof.
  intros Hc. induction l as [|x l IH]; intros st; simpl.
  - apply server_evolves_refl.
  - eapply server_evolves_trans; [apply Hc|apply IH].
Qed.

Lemma initialServer_evolves stamps :
  server_evolves (mkServer ∅ ∅ [] ∅) (initialServer stamps).
Proof.
  unfold initialServer. apply createRooms_evolves.
  intros st room. apply createRoom_evolves.
Qed.

Lemma initialServer_ok stamps :
  rooms_ok (initialServer stamps) /\ threads_ok (initialServer stamps).
Proof.
  split.
  - eapply evolves_rooms_ok; [|apply initialServer_evolves]. intros k r. simpl. done.
  - eapply evolves_threads_ok; [|apply initialServer_evolves].
    intros k t. simpl. by rewrite lookup_empty.
Qed.

Lemma initialServer_rooms stamps :
  List.map fst (rooms (initialServer stamps)) = [js "general"; js "random"].
Proof. vm_compute. reflexivity. Qed.

Lemma registry_same_refl st : registry_same st st.
Proof. by split. Qed.

Lemma registry_same_ok st st' :
  registry_ok st -> registry_same st st' -> registry_ok st'.
Proof.
  intros Hok [Hn Hu] sid user' Hl. rewrite Hn.
  specialize (Hu sid). rewrite Hl in Hu. simpl in Hu.
  destruct (users st !! sid) as [user|] eqn:E; [|done].
  injection Hu as Hu. rewrite Hu. by apply Hok.
Qed.

(** A user replaced under its socket by one with the same name. *)
Lemma registry_same_update (st st' : Server) socketId user user' :
  users st !! socketId = Some user ->
  user_username user' = user_username user ->
  users st' = <[socketId := user']> (users st) ->
  usernameToSocketId st' = usernameToSocketId st ->
  registry_same st st'.
Proof.
  intros Hu Hname Hus Hn. split; [done|]. intros sid. rewrite Hus.
  destruct (decide (socketId = sid)) as [<-|Hne].
  - rewrite lookup_insert_eq, Hu. simpl. by rewrite Hname.
  - by rewrite lookup_insert_ne.
Qed.

Lemma registry_same_fields (st st' : Server) :
  users st' = users st -> usernameToSocketId st' = usernameToSocketId st ->
  registry_same st st'.
Proof. intros Hu Hn. split; [done|]. intros sid. by rewrite Hu. Qed.

Lemma leave_room_registry stamp st socketId roomId :
  registry_same st (leave_room stamp st socketId roomId).1.1.
Proof.
  unfold leave_room.
  destruct (users st !! socketId) as [user|] eqn:Hu; [|apply registry_same_refl].
  destruct (JsMap.get roomId (rooms st)) as [room|]; [|apply registry_same_refl].
  match goal with |- context [addSystemMessage ?a ?b ?c ?d] =>
    pose proof (addSystemMessage_registry a b c d) as [Hu2 Hn2];
    destruct (addSystemMessage a b c d) as [st2 emits1] end.
  simpl in Hu2, Hn2.
  case_bool_decide; simpl.
  - eapply registry_same_update; [exact Hu| | |by rewrite Hn2]; [|simpl].
    2:{ rewrite Hu2. apply insert_insert_eq. }
    done.
  - eapply registry_same_update; [exact Hu| |exact Hu2|exact Hn2]. done.
Qed.

Lemma join_room_registry roomStamp messageStamp st socketId requestedRoom roomName description :
  registry_same st
    (join_room roomStamp messageStamp st socketId requestedRoom roomName description).1.1.
Proof.
  unfold join_room.
  destruct (users st !! socketId) as [user|] eqn:Hu; [|apply registry_same_refl].
  destruct (orNull _) as [targetName|]; [|apply registry_same_refl].
  match goal with |- context [createRoom ?a ?b ?c ?d] =>
    pose proof (createRoom_registry a b c d) as [Hu1 Hn1];
    destruct (createRoom a b c d) as [st1 room]
  end.
  simpl in Hu1, Hn1.
  destruct (negb (JsSet.has (room_id room) (user_rooms user))).
  - match goal with |- context [addSystemMessage ?a ?b ?c ?d] =>
      pose proof (addSystemMessage_registry a b c d) as [Hu2 Hn2];
      destruct (addSystemMessage a b c d) as [st2 emits1] end.
    simpl in Hu2, Hn2. simpl.
    eapply registry_same_update; [exact Hu| | |by rewrite Hn2, Hn1]; [|simpl].
    2:{ rewrite Hu2, Hu1. apply insert_insert_eq. }
    done.
  - simpl. eapply registry_same_update; [exact Hu| | |by rewrite Hn1]; [|simpl].
    2:{ by rewrite Hu1. }
    done.
Qed.

Lemma set_active_room_registry lastSeen st socketId roomId :
  registry_same st (set_active_room lastSeen st socketId roomId).
Proof.
  unfold set_active_room.
  destruct (users st !! socketId) as [user|] eqn:Hu; [|apply registry_same_refl].
  destruct (JsMap.get roomId (rooms st)); [|apply registry_same_refl].
  eapply registry_same_update; [exact Hu| |done|done]. done.
Qed.

Lemma send_message_registry stamp st socketId roomId message attachments tempId :
  registry_same st (send_message stamp st socketId roomId message attachments tempId).1.1.
Proof.
  unfold send_message.
  destruct (users st !! socketId); [|apply registry_same_refl].
  destruct (orNull roomId); [|apply registry_same_refl].
  destruct (negb (truthy _)); [apply registry_same_refl|].
  destruct (JsMap.get _ _); by apply registry_same_fields.
Qed.

Lemma message_delivered_registry st socketId messageId roomId :
  registry_same st (message_delivered st socketId messageId roomId).1.
Proof.
  unfold message_delivered.
  destruct (users st !! socketId); [|apply registry_same_refl].
  destruct (JsMap.get _ _); [|apply registry_same_refl].
  destruct (find_first _ _); by apply registry_same_fields.
Qed.

Lemma message_read_registry st socketId messageId roomId :
  registry_same st (message_read st socketId messageId roomId).1.
Proof.
  unfold message_read.
  destruct (users st !! socketId); [|apply registry_same_refl].
  destruct (JsMap.get _ _); [|apply registry_same_refl].
  destruct (find_first _ _); by apply registry_same_fields.
Qed.

Lemma react_to_message_registry st socketId roomId messageId emoji :
  registry_same st (react_to_message st socketId roomId messageId emoji).1.
Proof.
  unfold react_to_message.
  destruct (users st !! socketId); [|apply registry_same_refl].
  destruct (JsMap.get _ _); [|apply registry_same_refl].
  destruct (find_first _ _); by apply registry_same_fields.
Qed.

Lemma private_message_read_registry st socketId threadId messageId :
  registry_same st (private_message_read st socketId threadId messageId).1.
Proof.
  unfold private_message_read.
  destruct (users st !! socketId); [|apply registry_same_refl].
  destruct (privateThreads st !! threadId); [|apply registry_same_refl].
  destruct (find_first _ _); by apply registry_same_fields.
Qed.

Lemma react_to_private_message_registry st socketId threadId messageId emoji :
  registry_same st (react_to_private_message st socketId threadId messageId emoji).1.
Proof.
  unfold react_to_private_message.
  destruct (users st !! socketId); [|apply registry_same_refl].
  destruct (privateThreads st !! threadId); [|apply registry_same_refl].
  destruct (find_first _ _); by apply registry_same_fields.
Qed.

Section ServeRegistry.
Variable localeCompare : jsstring -> jsstring -> Z.

Lemma private_message_registry createdAt stamp st socketId to message tempId :
  registry_same st
    (private_message localeCompare createdAt stamp st socketId to message tempId).1.1.
Proof.
  unfold private_message.
  destruct (users st !! socketId) as [user|]; [|apply registry_same_refl].
  destruct (orNull to) as [toName|]; [|apply registry_same_refl].
  destruct (negb (truthy _)); [apply registry_same_refl|].
  destruct (usernameToSocketId st !! toName) as [sid|]; [|apply registry_same_refl].
  simpl. destruct (truthy sid); [|apply registry_same_refl].
  destruct (users st !! sid) as [recipient|]; [|apply registry_same_refl].
  destruct (ensurePrivateThread _ _ _ _ _) as [threads thread].
  by apply registry_same_fields.
Qed.

Lemma handle_registry_ok (st : Server) (request : Request) :
  registry_ok st -> registry_ok (handle localeCompare st request).
Proof.
  intros Hok.
  destruct request as [draws sid payload|stamps leftAt sid| | | | | | | | | |]; simpl.
  - apply (step_registry_ok st (EvJoin draws sid payload) Hok).
  - apply (step_registry_ok st (EvDisconnect stamps leftAt sid) Hok).
  - eapply registry_same_ok; [exact Hok|apply join_room_registry].
  - eapply registry_same_ok; [exact Hok|apply leave_room_registry].
  - eapply registry_same_ok; [exact Hok|apply send_message_registry].
  - eapply registry_same_ok; [exact Hok|apply message_delivered_registry].
  - eapply registry_same_ok; [exact Hok|apply message_read_registry].
  - eapply registry_same_ok; [exact Hok|apply react_to_message_registry].
  - eapply registry_same_ok; [exact Hok|apply private_message_registry].
  - eapply registry_same_ok; [exact Hok|apply private_message_read_registry].
  - eapply registry_same_ok; [exact Hok|apply react_to_private_message_registry].
  - eapply registry_same_ok; [exact Hok|apply set_active_room_registry].
Qed.

Lemma serve_registry_ok (requests : list Request) : forall st,
  registry_ok st -> registry_ok (serve localeCompare st requests).
Proof.
  induction requests as [|request requests IH]; intros st Hok; [done|].
  apply IH. by apply handle_registry_ok.
Qed.
End ServeRegistry.

(** ** Trimming *)

Lemma trimStart_split (s : jsstring) :
  exists ws, s = ws ++ trimStart s /\ blank ws.
Proof.
  induction s as [|c s (ws & Hs & Hws)]; simpl.
  - exists []. split; [done|constructor].
  - destruct (isWhiteSpace c) eqn:Hc.
    + exists (c :: ws). split; [simpl; congruence|by constructor].
    + exists []. split; [done|constructor].
Qed.

Lemma trimStart_head (s : jsstring) (c : N) (s' : jsstring) :
  trimStart s = c :: s' -> isWhiteSpace c = false.
Proof.
  induction s as [|a s IH]; simpl; [done|].
  destruct (isWhiteSpace a) eqn:Ha; [done|]. by intros [= <- _].
Qed.

Lemma trimStart_fixed (s : jsstring) :
  (forall c s', s = c :: s' -> isWhiteSpace c = false) -> trimStart s = s.
Proof. destruct s as [|c s]; simpl; [done|]. intros H. by rewrite (H c s). Qed.

Lemma trimStart_blank (s : jsstring) : blank s -> trimStart s = [].
Proof. induction 1 as [|c s Hc _ IH]; simpl; [done|]. by rewrite Hc. Qed.

Lemma trimEnd_split (s : jsstring) :
  exists ws, s = trimEnd s ++ ws /\ blank ws.
Proof.
  unfold trimEnd. destruct (trimStart_split (rev s)) as (ws & Hs & Hws).
  exists (rev ws). split.
  - rewrite <- rev_app_distr, <- Hs. by rewrite rev_involutive.
  - unfold blank. by apply Forall_rev.
Qed.

Lemma trimEnd_last (s : jsstring) (c : N) (s' : jsstring) :
  trimEnd s = s' ++ [c] -> isWhiteSpace c = false.
Proof.
  unfold trimEnd. intros H. apply (f_equal (@rev N)) in H.
  rewrite rev_involutive, rev_app_distr in H. simpl in H.
  by eapply trimStart_head.
Qed.

Lemma trimEnd_fixed (s : jsstring) :
  (forall c s', s = s' ++ [c] -> isWhiteSpace c = false) -> trimEnd s = s.
Proof.
  intros H. unfold trimEnd. rewrite trimStart_fixed; [apply rev_involutive|].
  intros c s' Hr. apply (H c (rev s')).
  apply (f_equal (@rev N)) in Hr. rewrite rev_involutive in Hr. by rewrite Hr.
Qed.

Lemma trim_head (s : jsstring) (c : N) (s' : jsstring) :
  trim s = c :: s' -> isWhiteSpace c = false.
Proof.
  unfold trim. intros H.
  destruct (trimEnd_split (trimStart s)) as (ws & Hs & _).
  rewrite H in Hs. simpl in Hs. by eapply trimStart_head.
Qed.

Lemma trim_last (s : jsstring) (c : N) (s' : jsstring) :
  trim s = s' ++ [c] -> isWhiteSpace c = false.
Proof. unfold trim. apply trimEnd_last. Qed.

Lemma trim_idempotent (s : jsstring) : trim (trim s) = trim s.
Proof.
  unfold trim at 1.
  rewrite (trimStart_fixed (trim s)) by (intros c s'; apply trim_head).
  apply trimEnd_fixed. intros c s'. apply trim_last.
Qed.

Lemma trim_empty_iff (s : jsstring) : trim s = [] <-> blank s.
Proof.
  split.
  - intros H. destruct (trimStart_split s) as (ws1 & Hs1 & Hw1).
    destruct (trimEnd_split (trimStart s)) as (ws2 & Hs2 & Hw2).
    unfold trim in H. rewrite H in Hs2. simpl in Hs2.
    rewrite Hs1, Hs2. by apply Forall_app.
  - intros H. unfold trim. by rewrite (trimStart_blank s H).
Qed.

Lemma joinUsername_raw (payload : JoinPayload) :
  joinUsername payload = match rawUsername payload with
                         | Some raw => trim raw
                         | None => []
                         end.
Proof.
  unfold joinUsername, rawUsername.
  destruct payload as [s|[s|]|]; try done; by destruct s.
Qed.

(** X1.  The join is refused for want of a username exactly when the payload
    carries none or one made of white space only; the state is then as
    before and nothing is emitted. *)
Theorem user_join_required_iff_blank (draws : JoinDraws) (st : Server)
    (socketId : jsstring) (payload : JoinPayload) :
  ((user_join draws st socketId payload).2 = AckError ERR_USERNAME_REQUIRED
   <-> match rawUsername payload with
       | Some raw => blank raw
       | None => True
       end)
  /\ ((user_join draws st socketId payload).2 = AckError ERR_USERNAME_REQUIRED ->
      (user_join draws st socketId payload).1 = (st, [])).
Proof.
  assert (Hblank : joinUsername payload = [] <->
                   match rawUsername payload with Some raw => blank raw | None => True end).
  { rewrite joinUsername_raw. destruct (rawUsername payload) as [raw|]; [|done].
    apply trim_empty_iff. }
  destruct (user_join_outcome draws st socketId payload)
    as [Hz|Hnz _|st' emits user Hnz _ _ _ _ _]; simpl.
  - split; [|done]. split; [intros _; by apply Hblank|done].
  - split; [|discriminate]. split; [discriminate|]. intros H. by apply Hblank in H.
  - split; [|discriminate]. split; [discriminate|]. intros H. by apply Hblank in H.
Qed.

Section Reachable.
Variable localeCompare : jsstring -> jsstring -> Z.

(** X2.  In every state the requests lead to, a username belongs to one
    connection, is bound to it, is not empty and neither starts nor ends
    with white space. *)
Theorem usernames_unique_and_trimmed (boot : nat -> Stamp) (requests : list Request) :
  let st := serve localeCompare (initialServer boot) requests in
  (forall s1 s2 u1 u2,
     users st !! s1 = Some u1 -> users st !! s2 = Some u2 ->
     user_username u1 = user_username u2 -> s1 = s2)
  /\ (forall socketId user,
        users st !! socketId = Some user ->
        usernameToSocketId st !! user_username user = Some socketId /\
        user_username user <> [] /\
        trim (user_username user) = user_username user /\
        (forall c rest, user_username user = c :: rest -> isWhiteSpace c = false) /\
        (forall c rest, user_username user = rest ++ [c] -> isWhiteSpace c = false)).
Proof.
  intros st.
  assert (Hok : registry_ok st).
  { apply serve_registry_ok. intros sid user.
    destruct (initialServer_registry boot) as [-> _]. by rewrite lookup_empty. }
  split.
  - intros s1 s2 u1 u2 H1 H2 Heq.
    destruct (Hok _ _ H1) as (B1 & _). destruct (Hok _ _ H2) as (B2 & _).
    rewrite Heq in B1. congruence.
  - intros sid user Hu. destruct (Hok _ _ Hu) as (Hb & Hnz & raw & Hraw).
    split; [done|]. split; [done|]. rewrite Hraw. split; [apply trim_idempotent|].
    split; [intros c rest; apply trim_head|intros c rest; apply trim_last].
Qed.

(** X3.  In every state the requests lead to, every room is stored under its
    id and every thread under its, a thread has two participants, and no
    log is longer than 250. *)
Theorem every_log_within_capacity (boot : nat -> Stamp) (requests : list Request) :
  let st := serve localeCompare (initialServer boot) requests in
  (forall k room,
     JsMap.get k (rooms st) = Some room ->
     room_id room = k /\ length (room_messages room) <= 250)
  /\ (forall k thread,
        privateThreads st !! k = Some thread ->
        thread_id thread = k /\ length (thread_participants thread) = 2 /\
        length (thread_messages thread) <= 250).
Proof.
  intros st. destruct (initialServer_ok boot) as [Hr Ht].
  pose proof (serve_evolves localeCompare requests (initialServer boot)) as Hev.
  fold st in Hev. split.
  - intros k room Hg.
    destruct (evolves_rooms_ok _ _ Hr Hev k room Hg) as (? & ? & _). done.
  - intros k thread Hg.
    destruct (evolves_threads_ok _ _ Ht Hev k thread Hg) as (? & ? & ? & _). done.
Qed.

(** X4.  In every state the requests lead to, each message of each log has
    its sender among those it was delivered to and, unless it is a system
    message, among its readers, and no emoji of its reactions maps to the
    empty set. *)
Theorem every_message_well_formed (boot : nat -> Stamp) (requests : list Request) :
  let st := serve localeCompare (initialServer boot) requests in
  let well_formed m :=
    msg_sender m ∈ default ∅ (msg_deliveredTo m) /\
    (msg_isSystem m = false -> msg_sender m ∈ default ∅ (msg_readBy m)) /\
    (forall emoji, reactionsOf m !! emoji <> Some ∅) in
  (forall k room,
     JsMap.get k (rooms st) = Some room -> Forall well_formed (room_messages room))
  /\ (forall k thread,
        privateThreads st !! k = Some thread ->
        Forall well_formed (thread_messages thread)).
Proof.
  intros st well_formed. destruct (initialServer_ok boot) as [Hr Ht].
  pose proof (serve_evolves localeCompare requests (initialServer boot)) as Hev.
  fold st in Hev.
  assert (Hwf : forall m, message_ok m -> well_formed m).
  { intros m ((r & Hr' & Hne) & (d & Hd & Hin) & (rb & Hrb & Hrd)).
    unfold well_formed. rewrite Hd, Hrb. simpl. split; [done|]. split; [done|].
    intros emoji He. unfold reactionsOf in He. rewrite Hr' in He. simpl in He.
    by apply (Hne _ _ He). }
  split.
  - intros k room Hg.
    destruct (evolves_rooms_ok _ _ Hr Hev k room Hg) as (_ & _ & Hall).
    eapply Forall_impl; [exact Hall|exact Hwf].
  - intros k thread Hg.
    destruct (evolves_threads_ok _ _ Ht Hev k thread Hg) as (_ & _ & _ & Hall).
    eapply Forall_impl; [exact Hall|exact Hwf].
Qed.

(** X5.  A room is never destroyed and never renamed: whatever the requests,
    a room of the state before is a room of the state after, under the same
    key, with its id, name, description, creation time and creator. *)
Theorem rooms_are_never_destroyed (st : Server) (requests : list Request)
    (k : jsstring) (room : Room) :
  JsMap.get k (rooms st) = Some room ->
  exists room',
    JsMap.get k (rooms (serve localeCompare st requests)) = Some room' /\
    room_id room' = room_id room /\
    room_name room' = room_name room /\
    room_description room' = room_description room /\
    room_createdAt room' = room_createdAt room /\
    room_createdBy room' = room_createdBy room.
Proof.
  intros Hg. destruct (serve_evolves localeCompare requests st) as [Hr _].
  specialize (Hr k). rewrite Hg in Hr.
  destruct (JsMap.get k (rooms (serve localeCompare st requests))) as [room'|]; [|done].
  exists room'. simpl in Hr. destruct Hr as (?&?&?&?&?&_). done.
Qed.

End Reachable.

(** ** The handlers one by one *)

Lemma JsMap_set_set {V : Type} (k : jsstring) (v1 v2 : V) m :
  JsMap.set k v2 (JsMap.set k v1 m) = JsMap.set k v2 m.
Proof.
  induction m as [|[k' v'] m IH]; simpl.
  - by rewrite decide_True.
  - destruct (decide (k' = k)) as [->|Hne]; simpl.
    + by rewrite decide_True.
    + rewrite decide_False by done. by rewrite IH.
Qed.

Lemma JsMap_set_same {V : Type} (k : jsstring) (v : V) m :
  JsMap.get k m = Some v -> JsMap.set k v m = m.
Proof.
  induction m as [|[k' v'] m IH]; simpl; [done|].
  destruct (decide (k' = k)) as [->|Hne].
  - by intros [= ->].
  - intros H. by rewrite IH.
Qed.

Lemma server_eta (st : Server) :
  mkServer (users st) (usernameToSocketId st) (rooms st) (privateThreads st) = st.
Proof. by destruct st. Qed.

Lemma room_eta (r : Room) : set_room_messages r (room_messages r) = r.
Proof. by destruct r. Qed.

Lemma thread_eta (t : Thread) : set_thread_messages t (thread_messages t) = t.
Proof. by destruct t. Qed.

(** X7.  [send_message] fails exactly when the connection has no user, the
    room id is missing, the body is blank or the id names no room, and then
    changes nothing.  Otherwise, whether or not the user is a member of the
    room, the message, its body trimmed and the sender its only receipt, is
    appended to the log of that room and of no other, emitted to the room
    and acknowledged by its id. *)
Theorem send_message_appends (stamp : Stamp) (st : Server) (socketId : jsstring)
    (roomId message : option jsstring) (attachments : list jsstring)
    (tempId : option jsstring) :
  let result := send_message stamp st socketId roomId message attachments tempId in
  let valid :=
    exists user rid body room,
      users st !! socketId = Some user /\ orNull roomId = Some rid /\
      orNull message = Some body /\ ~ blank body /\
      JsMap.get rid (rooms st) = Some room in
  ((exists error, result.2 = AckError error) <-> ~ valid)
  /\ (~ valid -> result.1 = (st, []))
  /\ (forall user rid body room,
        users st !! socketId = Some user -> orNull roomId = Some rid ->
        orNull message = Some body -> ~ blank body ->
        JsMap.get rid (rooms st) = Some room ->
        let m := sentMessage stamp user rid body attachments tempId in
        result.2 = AckOk (uuid stamp) /\
        result.1.2 = [(ToRoom rid, receive_message (serializeMessage m))] /\
        msg_deliveredTo m = Some {[ user_username user ]} /\
        msg_readBy m = Some {[ user_username user ]} /\
        JsMap.get rid (rooms result.1.1)
        = Some (set_room_messages room
                  (trimMessages (room_messages room ++ [m]) MAX_ROOM_MESSAGES)) /\
        (forall k, k <> rid -> JsMap.get k (rooms result.1.1) = JsMap.get k (rooms st)) /\
        users result.1.1 = users st /\
        usernameToSocketId result.1.1 = usernameToSocketId st /\
        privateThreads result.1.1 = privateThreads st).
Proof.
  intros result valid.
  assert (Hsucc : forall user rid body room,
    users st !! socketId = Some user -> orNull roomId = Some rid ->
    orNull message = Some body -> ~ blank body ->
    JsMap.get rid (rooms st) = Some room ->
    result = (set_rooms st
                (JsMap.set rid
                   (addMessageToRoom room
                      (sentMessage stamp user rid body attachments tempId)) (rooms st)),
              [(ToRoom rid,
                receive_message
                  (serializeMessage (sentMessage stamp user rid body attachments tempId)))],
              AckOk (uuid stamp))).
  { intros user rid body room Hu Hrid Hbody Hnb Hroom. subst result.
    unfold send_message. rewrite Hu, Hrid, Hbody, Hroom.
    destruct (trim body) as [|c rest] eqn:Ht.
    - exfalso. apply Hnb. by apply trim_empty_iff.
    - unfold sentMessage. rewrite Ht. reflexivity. }
  assert (Hfail : ~ valid -> exists error, result = (st, [], AckError error)).
  { intros Hnv. subst result valid. unfold send_message.
    destruct (users st !! socketId) as [user|] eqn:Hu; [|by eexists].
    destruct (orNull roomId) as [rid|] eqn:Hrid; [|by eexists].
    destruct (orNull message) as [body|] eqn:Hbody; simpl; [|by eexists].
    destruct (trim body) as [|c rest] eqn:Ht; simpl; [by eexists|].
    destruct (JsMap.get rid (rooms st)) as [room|] eqn:Hroom; [|by eexists].
    exfalso. apply Hnv. exists user, rid, body, room. repeat split; try done.
    intros Hb. apply trim_empty_iff in Hb. congruence. }
  split; [|split].
  - split.
    + intros [error He] (user & rid & body & room & Hu & Hrid & Hbody & Hnb & Hroom).
      rewrite (Hsucc _ _ _ _ Hu Hrid Hbody Hnb Hroom) in He. discriminate.
    + intros Hnv. destruct (Hfail Hnv) as [error ->]. by eexists.
  - intros Hnv. by destruct (Hfail Hnv) as [error ->].
  - intros user rid body room Hu Hrid Hbody Hnb Hroom m.
    rewrite (Hsucc _ _ _ _ Hu Hrid Hbody Hnb Hroom). simpl.
    rewrite JsMap_get_set_eq. repeat split; try done.
    intros k Hk. by apply JsMap_get_set_ne.
Qed.

Lemma find_alter_first {A : Type} (p : A -> bool) (l : list A) (x y : A) :
  find_first p l = Some x -> p y = true ->
  find_first p (alter_first p (fun _ => y) l) = Some y.
Proof.
  unfold find_first. induction l as [|a l IH]; simpl; [done|].
  destruct (p a) eqn:Hp; simpl.
  - intros _ Hy. by rewrite Hy.
  - intros H Hy. rewrite Hp. by apply IH.
Qed.

Lemma alter_alter_first {A : Type} (p : A -> bool) (l : list A) (y z : A) :
  p y = true ->
  alter_first p (fun _ => z) (alter_first p (fun _ => y) l)
  = alter_first p (fun _ => z) l.
Proof.
  intros Hy. induction l as [|a l IH]; simpl; [done|].
  destruct (p a) eqn:Hp; simpl.
  - by rewrite Hy.
  - by rewrite Hp, IH.
Qed.

Lemma alter_first_same {A : Type} (p : A -> bool) (l : list A) (x : A) :
  find_first p l = Some x -> alter_first p (fun _ => x) l = l.
Proof.
  unfold find_first. induction l as [|a l IH]; simpl; [done|].
  destruct (p a) eqn:Hp.
  - by intros [= ->].
  - intros H. by rewrite IH.
Qed.

Lemma find_first_elem {A : Type} (p : A -> bool) (l : list A) (x : A) :
  find_first p l = Some x -> x ∈ l /\ p x = true.
Proof.
  unfold find_first. intros H. apply find_some in H as [Hin Hp].
  split; [by apply list_elem_of_In|done].
Qed.

Lemma hasId_toggle messageId m emoji username :
  hasId messageId (toggleReaction m emoji username) = hasId messageId m.
Proof. rewrite toggleReaction_reactions. done. Qed.

Lemma toggleReaction_twice_ok (m : Message) (emoji username : jsstring) :
  message_ok m ->
  toggleReaction (toggleReaction m emoji username) emoji username = m.
Proof. intros ((r & Hr & Hne) & _). by eapply toggleReaction_twice. Qed.

(** X8.  A reaction sent twice is a reaction not sent.  On a state whose
    messages are well formed, the same [react_to_message] (or
    [react_to_private_message]) handled twice in a row gives back the
    state. *)
Theorem reacting_twice_restores_the_state (st : Server)
    (socketId conversationId messageId emoji : jsstring) :
  rooms_ok st -> threads_ok st ->
  (react_to_message
     (react_to_message st socketId conversationId messageId emoji).1
     socketId conversationId messageId emoji).1 = st
  /\ (react_to_private_message
        (react_to_private_message st socketId conversationId messageId emoji).1
        socketId conversationId messageId emoji).1 = st.
Proof.
  intros Hrooms Hthreads. split.
  - unfold react_to_message at 2.
    destruct (users st !! socketId) as [user|] eqn:Hu;
      [|simpl; unfold react_to_message; by rewrite Hu].
    destruct (JsMap.get conversationId (rooms st)) as [room|] eqn:Hr;
      [|simpl; unfold react_to_message; by rewrite Hu, Hr].
    destruct (find_first _ _) as [m|] eqn:Hf;
      [|simpl; unfold react_to_message; by rewrite Hu, Hr, Hf].
    destruct (find_first_elem _ _ _ Hf) as [Hin Hp].
    assert (Hok : message_ok m).
    { destruct (Hrooms _ _ Hr) as (_ & _ & Hall).
      by eapply (proj1 (Forall_forall _ _) Hall). }
    unfold react_to_message. simpl. rewrite Hu, JsMap_get_set_eq. simpl.
    rewrite (find_alter_first _ _ m) by (by rewrite ?hasId_toggle).
    simpl. rewrite toggleReaction_twice_ok by done.
    rewrite alter_alter_first by (by rewrite hasId_toggle).
    rewrite (alter_first_same _ _ _ Hf), JsMap_set_set.
    change (set_room_messages (set_room_messages room ?a) ?b)
      with (set_room_messages room b).
    rewrite room_eta, (JsMap_set_same _ _ _ Hr). unfold set_rooms. simpl.
    apply server_eta.
  - unfold react_to_private_message at 2.
    destruct (users st !! socketId) as [user|] eqn:Hu;
      [|simpl; unfold react_to_private_message; by rewrite Hu].
    destruct (privateThreads st !! conversationId) as [thread|] eqn:Hr;
      [|simpl; unfold react_to_private_message; by rewrite Hu, Hr].
    destruct (find_first _ _) as [m|] eqn:Hf;
      [|simpl; unfold react_to_private_message; by rewrite Hu, Hr, Hf].
    destruct (find_first_elem _ _ _ Hf) as [Hin Hp].
    assert (Hok : message_ok m).
    { destruct (Hthreads _ _ Hr) as (_ & _ & _ & Hall).
      by eapply (proj1 (Forall_forall _ _) Hall). }
    unfold react_to_private_message. simpl. rewrite Hu, lookup_insert_eq. simpl.
    rewrite (find_alter_first _ _ m) by (by rewrite ?hasId_toggle).
    simpl. rewrite toggleReaction_twice_ok by done.
    rewrite alter_alter_first by (by rewrite hasId_toggle).
    rewrite (alter_first_same _ _ _ Hf), insert_insert_eq.
    change (set_thread_messages (set_thread_messages thread ?a) ?b)
      with (set_thread_messages thread b).
    rewrite thread_eta, (insert_id _ _ _ Hr). unfold set_threads. simpl.
    apply server_eta.
Qed.

Lemma registerDelivered_twice (m : Message) (username : jsstring) :
  registerDelivered (registerDelivered m username) username
  = registerDelivered m username.
Proof.
  unfold registerDelivered. simpl. f_equal. f_equal. set_solver.
Qed.

Lemma registerRead_twice (m : Message) (username : jsstring) :
  registerRead (registerRead m username) username = registerRead m username.
Proof.
  unfold registerRead. simpl. f_equal. f_equal. set_solver.
Qed.

(** X9.  A receipt sent twice is a receipt sent once: [message_delivered],
    [message_read] and [private_message_read] handled a second time change
    nothing more and emit what they emitted the first time.  And a receipt
    that finds its message leaves the user in the receipts of the first
    message with that id. *)
Theorem receipts_are_idempotent (st : Server)
    (socketId messageId conversationId : jsstring) :
  message_delivered (message_delivered st socketId messageId conversationId).1
    socketId messageId conversationId
  = message_delivered st socketId messageId conversationId
  /\ message_read (message_read st socketId messageId conversationId).1
       socketId messageId conversationId
     = message_read st socketId messageId conversationId
  /\ private_message_read (private_message_read st socketId conversationId messageId).1
       socketId conversationId messageId
     = private_message_read st socketId conversationId messageId
  /\ (forall user room m,
        users st !! socketId = Some user ->
        JsMap.get conversationId (rooms st) = Some room ->
        find_first (hasId messageId) (room_messages room) = Some m ->
        exists room' m',
          JsMap.get conversationId
            (rooms (message_delivered st socketId messageId conversationId).1)
          = Some room' /\
          find_first (hasId messageId) (room_messages room') = Some m' /\
          default ∅ (msg_deliveredTo m')
          = default ∅ (msg_deliveredTo m) ∪ {[ user_username user ]}).
Proof.
  split; [|split; [|split]].
  - unfold message_delivered at 2.
    destruct (users st !! socketId) as [user|] eqn:Hu;
      [|simpl; unfold message_delivered; by rewrite Hu].
    destruct (JsMap.get conversationId (rooms st)) as [room|] eqn:Hr;
      [|simpl; unfold message_delivered; by rewrite Hu, Hr].
    destruct (find_first _ _) as [m|] eqn:Hf;
      [|simpl; unfold message_delivered; by rewrite Hu, Hr, Hf].
    destruct (find_first_elem _ _ _ Hf) as [Hin Hp].
    unfold message_delivered. simpl. rewrite Hu, Hr, Hf, JsMap_get_set_eq. simpl.
    rewrite (find_alter_first _ _ m) by done.
    rewrite registerDelivered_twice, alter_alter_first by done.
    assert (He : default ∅ (msg_deliveredTo (registerDelivered m (user_username user)))
                 ∪ {[user_username user]}
                 = default ∅ (msg_deliveredTo m) ∪ {[user_username user]})
      by (simpl; set_solver).
    by rewrite He, JsMap_set_set.
  - unfold message_read at 2.
    destruct (users st !! socketId) as [user|] eqn:Hu;
      [|simpl; unfold message_read; by rewrite Hu].
    destruct (JsMap.get conversationId (rooms st)) as [room|] eqn:Hr;
      [|simpl; unfold message_read; by rewrite Hu, Hr].
    destruct (find_first _ _) as [m|] eqn:Hf;
      [|simpl; unfold message_read; by rewrite Hu, Hr, Hf].
    destruct (find_first_elem _ _ _ Hf) as [Hin Hp].
    unfold message_read. simpl. rewrite Hu, Hr, Hf, JsMap_get_set_eq. simpl.
    rewrite (find_alter_first _ _ m) by done.
    rewrite registerRead_twice, alter_alter_first by done.
    assert (He : default ∅ (msg_readBy (registerRead m (user_username user)))
                 ∪ {[user_username user]}
                 = default ∅ (msg_readBy m) ∪ {[user_username user]})
      by (simpl; set_solver).
    by rewrite He, JsMap_set_set.
  - unfold private_message_read at 2.
    destruct (users st !! socketId) as [user|] eqn:Hu;
      [|simpl; unfold private_message_read; by rewrite Hu].
    destruct (privateThreads st !! conversationId) as [thread|] eqn:Hr;
      [|simpl; unfold private_message_read; by rewrite Hu, Hr].
    destruct (find_first _ _) as [m|] eqn:Hf;
      [|simpl; unfold private_message_read; by rewrite Hu, Hr, Hf].
    destruct (find_first_elem _ _ _ Hf) as [Hin Hp].
    unfold private_message_read. simpl. rewrite Hu, Hr, Hf, lookup_insert_eq. simpl.
    rewrite (find_alter_first _ _ m) by done.
    rewrite registerRead_twice, alter_alter_first by done.
    assert (He : default ∅ (msg_readBy (registerRead m (user_username user)))
                 ∪ {[user_username user]}
                 = default ∅ (msg_readBy m) ∪ {[user_username user]})
      by (simpl; set_solver).
    rewrite insert_insert_eq. by rewrite He.
  - intros user room m Hu Hr Hf.
    destruct (find_first_elem _ _ _ Hf) as [Hin Hp].
    unfold message_delivered. rewrite Hu, Hr, Hf. simpl.
    rewrite JsMap_get_set_eq. eexists _, _. split; [done|]. simpl.
    split; [by apply (find_alter_first _ _ m)|done].
Qed.

Lemma JsSet_has_add (x : jsstring) (s : list jsstring) :
  JsSet.has x (JsSet.add x s) = true.
Proof.
  unfold JsSet.add. destruct (JsSet.has x s) eqn:H; [done|].
  unfold JsSet.has. apply bool_decide_eq_true_2, elem_of_app. right. by constructor.
Qed.

Lemma JsSet_elem_of_add (x y : jsstring) (s : list jsstring) :
  y ∈ JsSet.add x s <-> y = x \/ y ∈ s.
Proof.
  unfold JsSet.add, JsSet.has. case_bool_decide as Hin.
  - split; [by right|]. intros [->|H]; done.
  - rewrite elem_of_app, list_elem_of_singleton. tauto.
Qed.

Lemma JsSet_elem_of_delete (x y : jsstring) (s : list jsstring) :
  y ∈ JsSet.delete x s <-> y <> x /\ y ∈ s.
Proof.
  unfold JsSet.delete. rewrite !list_elem_of_In, filter_In.
  rewrite negb_true_iff, bool_decide_eq_false. tauto.
Qed.

Lemma JsSet_add_NoDup (x : jsstring) (s : list jsstring) :
  NoDup s -> NoDup (JsSet.add x s).
Proof.
  intros H. unfold JsSet.add, JsSet.has. case_bool_decide as Hin; [done|].
  apply NoDup_app. split; [done|]. split; [|apply NoDup_singleton].
  intros y Hy Hx. apply list_elem_of_singleton in Hx as ->. done.
Qed.

Lemma JsSet_delete_NoDup (x : jsstring) (s : list jsstring) :
  NoDup s -> NoDup (JsSet.delete x s).
Proof.
  unfold JsSet.delete. intros H. apply NoDup_ListNoDup.
  apply List.NoDup_filter. by apply NoDup_ListNoDup.
Qed.

Lemma orElse_truthy (x fallback : jsstring) : x <> [] -> orElse (Some x) fallback = x.
Proof. unfold orElse, orNull. by destruct x. Qed.

Lemma join_room_existing roomStamp messageStamp st socketId rid roomName description
    user room :
  users st !! socketId = Some user -> rid <> [] ->
  JsMap.get rid (rooms st) = Some room -> room_id room = rid ->
  (join_room roomStamp messageStamp st socketId (Some rid) roomName description).1.1
  = joinedState messageStamp st socketId rid user room.
Proof.
  intros Hu Hrid Hr Hid. unfold join_room, joinedState. rewrite Hu.
  assert (Ht : orNull (Some rid) = Some rid) by (unfold orNull; by destruct rid).
  rewrite Ht. rewrite Ht.
  unfold createRoom. simpl. rewrite (orElse_truthy rid _ Hrid), Hr, Hid.
  destruct (JsSet.has rid (user_rooms user)) eqn:Hhas; simpl.
  - done.
  - unfold addSystemMessage. simpl. rewrite JsMap_get_set_eq. simpl.
    rewrite insert_insert_eq, JsMap_set_set. unfold joinMessage. by rewrite Hid.
Qed.

(** X10.  Joining a room twice is joining it once.  For a room that exists,
    asked for by its id: after [join_room] the user lists the room, the room
    lists the socket and is the user's active room, and the log has
    received "<username> joined <room.name>" only if the user did not list
    the room before; the same request handled again gives the same state. *)
Theorem join_room_is_idempotent (roomStamp messageStamp roomStamp' messageStamp' : Stamp)
    (st : Server) (socketId rid : jsstring) (roomName description : option jsstring)
    (user : User) (room : Room) :
  users st !! socketId = Some user -> rid <> [] ->
  JsMap.get rid (rooms st) = Some room -> room_id room = rid ->
  socketId ∈ room_members room \/ rid ∉ user_rooms user ->
  let st1 :=
    (join_room roomStamp messageStamp st socketId (Some rid) roomName description).1.1 in
  (exists user1 room1,
     users st1 !! socketId = Some user1 /\
     JsMap.get rid (rooms st1) = Some room1 /\
     rid ∈ user_rooms user1 /\ user_activeRoom user1 = rid /\
     socketId ∈ room_members room1 /\
     room_messages room1
     = if JsSet.has rid (user_rooms user) then room_messages room
       else trimMessages (room_messages room ++ [joinMessage messageStamp user room])
              MAX_ROOM_MESSAGES)
  /\ (join_room roomStamp' messageStamp' st1 socketId (Some rid) roomName description).1.1
     = st1.
Proof.
  intros Hu Hrid Hr Hid Hmem st1.
  assert (H1 : st1 = joinedState messageStamp st socketId rid user room)
    by (by apply join_room_existing).
  assert (Hex : exists user1 room1,
     users st1 !! socketId = Some user1 /\
     JsMap.get rid (rooms st1) = Some room1 /\
     rid ∈ user_rooms user1 /\ user_activeRoom user1 = rid /\
     socketId ∈ room_members room1 /\ room_id room1 = rid /\
     room_messages room1
     = if JsSet.has rid (user_rooms user) then room_messages room
       else trimMessages (room_messages room ++ [joinMessage messageStamp user room])
              MAX_ROOM_MESSAGES).
  { rewrite H1. unfold joinedState.
    destruct (JsSet.has rid (user_rooms user)) eqn:Hhas; simpl.
    - apply bool_decide_eq_true in Hhas.
      eexists _, room. rewrite lookup_insert_eq. split; [done|].
      split; [done|]. simpl. repeat split; try done.
      destruct Hmem; done.
    - eexists _, _. rewrite lookup_insert_eq, JsMap_get_set_eq.
      split; [done|]. split; [done|]. simpl.
      split; [apply JsSet_elem_of_add; by left|]. split; [done|].
      split; [apply JsSet_elem_of_add; by left|]. done. }
  split.
  - destruct Hex as (user1 & room1 & ? & ? & ? & ? & ? & ? & ?). by exists user1, room1.
  - destruct Hex as (user1 & room1 & Hu1 & Hr1 & Hin & Hact & _ & Hid1 & _).
    rewrite (join_room_existing _ _ _ _ _ _ _ user1 room1) by done.
    unfold joinedState. unfold JsSet.has. rewrite bool_decide_eq_true_2 by done.
    replace (set_user_activeRoom user1 rid) with user1
      by (destruct user1; simpl in *; by subst).
    rewrite insert_id by done. apply server_eta.
Qed.

Lemma disconnect_room_get stamp socketId username acc roomId :
  keyed (rooms acc.1) ->
  keyed (rooms (disconnect_room stamp socketId username acc roomId).1) /\
  forall k,
    JsMap.get k (rooms (disconnect_room stamp socketId username acc roomId).1)
    = if decide (roomId = k)
      then leftRoom stamp socketId username <$> JsMap.get k (rooms acc.1)
      else JsMap.get k (rooms acc.1).
Proof.
  intros Hk. unfold disconnect_room. destruct acc as [st emits]. simpl in *.
  destruct (JsMap.get roomId (rooms st)) as [room|] eqn:Hr.
  - pose proof (Hk _ _ Hr) as Hid.
    unfold addSystemMessage. simpl. rewrite Hid, JsMap_get_set_eq. simpl.
    rewrite JsMap_set_set.
    assert (Hget : forall k,
      JsMap.get k
        (JsMap.set roomId (leftRoom stamp socketId username room) (rooms st))
      = if decide (roomId = k)
        then leftRoom stamp socketId username <$> JsMap.get k (rooms st)
        else JsMap.get k (rooms st)).
    { intros k. rewrite JsMap_get_set. destruct (decide (roomId = k)) as [<-|]; [|done].
      by rewrite Hr. }
    unfold leftRoom in Hget at 1. simpl in Hget. rewrite Hid in Hget.
    split; [|exact Hget].
    intros k r. rewrite Hget. destruct (decide (roomId = k)) as [<-|].
    + rewrite Hr. simpl. by intros [= <-].
    + apply Hk.
  - simpl. split; [done|]. intros k. destruct (decide (roomId = k)) as [<-|]; [|done].
    by rewrite Hr.
Qed.

Lemma disconnect_rooms_get stamps socketId username roomIds : forall i acc,
  NoDup roomIds -> keyed (rooms acc.1) ->
  let result := (disconnect_rooms stamps i socketId username acc roomIds).1 in
  (forall k, k ∉ roomIds -> JsMap.get k (rooms result) = JsMap.get k (rooms acc.1)) /\
  (forall j k, roomIds !! j = Some k ->
     JsMap.get k (rooms result)
     = leftRoom (stamps (i + j)) socketId username <$> JsMap.get k (rooms acc.1)).
Proof.
  induction roomIds as [|r0 rest IH]; intros i acc Hnd Hk; simpl.
  - split; [done|]. intros j k Hj. by rewrite lookup_nil in Hj.
  - apply NoDup_cons in Hnd as [Hr0 Hnd].
    destruct (disconnect_room_get (stamps i) socketId username acc r0 Hk) as [Hk' Hget].
    destruct (IH (S i) _ Hnd Hk') as [Hout Hin].
    split.
    + intros k Hnotin. apply not_elem_of_cons in Hnotin as [Hne Hnotin].
      rewrite (Hout k Hnotin), Hget. by rewrite decide_False.
    + intros [|j] k Hj; simpl in Hj.
      * injection Hj as <-. rewrite (Hout r0 Hr0), Hget, decide_True by done.
        by rewrite Nat.add_0_r.
      * assert (k <> r0).
        { intros ->. apply Hr0. by eapply list_elem_of_lookup_2. }
        rewrite (Hin j k Hj), Hget, decide_False by done.
        by replace (S i + j) with (i + S j) by lia.
Qed.


(** ** Membership *)

Section MembersKept.
Variable gone : jsstring -> jsstring -> Prop.

Lemma members_kept_refl rs : members_kept gone rs rs.
Proof. intros k room Hg. exists room. split; [done|]. by left. Qed.

Lemma members_kept_trans rs1 rs2 rs3 :
  members_kept gone rs1 rs2 -> members_kept gone rs2 rs3 -> members_kept gone rs1 rs3.
Proof.
  intros H12 H23 k room Hg.
  destruct (H12 _ _ Hg) as (room2 & Hg2 & Hm2).
  destruct (H23 _ _ Hg2) as (room3 & Hg3 & Hm3).
  exists room3. split; [done|]. intros s Hs.
  destruct (Hm2 s Hs) as [Hs2|]; [|by right]. by apply Hm3.
Qed.

Lemma members_kept_set rs k0 r r' :
  JsMap.get k0 rs = Some r ->
  (forall s, s ∈ room_members r -> s ∈ room_members r' \/ gone s k0) ->
  members_kept gone rs (JsMap.set k0 r' rs).
Proof.
  intros Hg Hm k room Hk. rewrite JsMap_get_set.
  destruct (decide (k0 = k)) as [<-|Hne].
  - exists r'. split; [done|]. rewrite Hg in Hk. by injection Hk as <-.
  - exists room. split; [done|]. by left.
Qed.

Lemma members_kept_new rs k0 r' :
  JsMap.get k0 rs = None -> members_kept gone rs (JsMap.set k0 r' rs).
Proof.
  intros Hg k room Hk. rewrite JsMap_get_set.
  destruct (decide (k0 = k)) as [<-|Hne]; [congruence|].
  exists room. split; [done|]. by left.
Qed.

Lemma addSystemMessage_members stamp st roomId text :
  members_kept gone (rooms st) (rooms (addSystemMessage stamp st roomId text).1).
Proof.
  unfold addSystemMessage.
  destruct (JsMap.get roomId (rooms st)) as [room|] eqn:Hr; simpl.
  - eapply members_kept_set; [exact Hr|]. intros s Hs. by left.
  - apply members_kept_refl.
Qed.

Lemma createRoom_members stamp st name options :
  members_kept gone (rooms st) (rooms (createRoom stamp st name options).1).
Proof.
  unfold createRoom. set (key := orElse _ _).
  destruct (JsMap.get key (rooms st)) as [room|] eqn:Hr; simpl.
  - apply members_kept_refl.
  - by apply members_kept_new.
Qed.

(** A message of a room altered in place. *)
Lemma room_message_members st roomId room ms :
  JsMap.get roomId (rooms st) = Some room ->
  members_kept gone (rooms st)
    (JsMap.set roomId (set_room_messages room ms) (rooms st)).
Proof. intros Hr. eapply members_kept_set; [exact Hr|]. intros s Hs. by left. Qed.
End MembersKept.

(** How [membership_ok] passes from a state to the next. *)
Lemma membership_passes (gone : jsstring -> jsstring -> Prop) (st st' : Server) :
  membership_ok st ->
  members_kept gone (rooms st) (rooms st') ->
  (forall socketId user',
     users st' !! socketId = Some user' ->
     user_id user' = socketId /\ NoDup (user_rooms user') /\
     forall roomId, roomId ∈ user_rooms user' ->
       (exists user, users st !! socketId = Some user /\
                     roomId ∈ user_rooms user /\ ~ gone socketId roomId) \/
       (exists room', JsMap.get roomId (rooms st') = Some room' /\
                      socketId ∈ room_members room')) ->
  membership_ok st'.
Proof.
  intros Hok Hkept Hus sid user' Hu'.
  destruct (Hus _ _ Hu') as (Hid & Hnd & Hrooms).
  split; [done|]. split; [done|]. intros rid Hrid.
  destruct (Hrooms rid Hrid) as [(user & Hu & Hin & Hng)|H]; [|done].
  destruct (Hok _ _ Hu) as (_ & _ & Hm).
  destruct (Hm rid Hin) as (room & Hg & Hs).
  destruct (Hkept _ _ Hg) as (room' & Hg' & Hm').
  exists room'. split; [done|]. by destruct (Hm' sid Hs).
Qed.

(** The user of a state whose users are those before. *)
Lemma same_users_pass (gone : jsstring -> jsstring -> Prop) (st st' : Server) :
  membership_ok st ->
  (forall s k, ~ gone s k) ->
  users st' = users st ->
  forall socketId user',
    users st' !! socketId = Some user' ->
    user_id user' = socketId /\ NoDup (user_rooms user') /\
    forall roomId, roomId ∈ user_rooms user' ->
      (exists user, users st !! socketId = Some user /\
                    roomId ∈ user_rooms user /\ ~ gone socketId roomId) \/
      (exists room', JsMap.get roomId (rooms st') = Some room' /\
                     socketId ∈ room_members room').
Proof.
  intros Hok Hng Hus sid user' Hu'. rewrite Hus in Hu'.
  destruct (Hok _ _ Hu') as (Hid & Hnd & _).
  split; [done|]. split; [done|]. intros rid Hrid. left. exists user'. eauto.
Qed.

Lemma send_message_membership stamp st socketId roomId message attachments tempId :
  membership_ok st ->
  membership_ok (send_message stamp st socketId roomId message attachments tempId).1.1.
Proof.
  intros Hok. unfold send_message.
  destruct (users st !! socketId); [|done].
  destruct (orNull roomId) as [rid|]; [|done].
  destruct (negb (truthy _)); [done|].
  destruct (JsMap.get rid (rooms st)) as [room|] eqn:Hr; [|done]. simpl.
  eapply (membership_passes never); [exact Hok| |].
  - simpl. eapply members_kept_set; [exact Hr|]. intros s Hs. by left.
  - apply same_users_pass; [exact Hok|by intros s k H|done].
Qed.

Lemma room_receipt_membership st roomId room ms :
  membership_ok st -> JsMap.get roomId (rooms st) = Some room ->
  membership_ok (set_rooms st (JsMap.set roomId (set_room_messages room ms) (rooms st))).
Proof.
  intros Hok Hr. eapply (membership_passes never); [exact Hok| |].
  - simpl. by apply room_message_members.
  - apply same_users_pass; [exact Hok|by intros s k H|done].
Qed.

Lemma message_delivered_membership st socketId messageId roomId :
  membership_ok st -> membership_ok (message_delivered st socketId messageId roomId).1.
Proof.
  intros Hok. unfold message_delivered.
  destruct (users st !! socketId); [|done].
  destruct (JsMap.get roomId (rooms st)) as [room|] eqn:Hr; [|done].
  destruct (find_first _ _); [|done]. by apply room_receipt_membership.
Qed.

Lemma message_read_membership st socketId messageId roomId :
  membership_ok st -> membership_ok (message_read st socketId messageId roomId).1.
Proof.
  intros Hok. unfold message_read.
  destruct (users st !! socketId); [|done].
  destruct (JsMap.get roomId (rooms st)) as [room|] eqn:Hr; [|done].
  destruct (find_first _ _); [|done]. by apply room_receipt_membership.
Qed.

Lemma react_to_message_membership st socketId roomId messageId emoji :
  membership_ok st -> membership_ok (react_to_message st socketId roomId messageId emoji).1.
Proof.
  intros Hok. unfold react_to_message.
  destruct (users st !! socketId); [|done].
  destruct (JsMap.get roomId (rooms st)) as [room|] eqn:Hr; [|done].
  destruct (find_first _ _); [|done]. by apply room_receipt_membership.
Qed.

Lemma threads_membership st threads :
  membership_ok st -> membership_ok (set_threads st threads).
Proof. intros Hok. exact Hok. Qed.

Lemma private_message_read_membership st socketId threadId messageId :
  membership_ok st -> membership_ok (private_message_read st socketId threadId messageId).1.
Proof.
  intros Hok. unfold private_message_read.
  destruct (users st !! socketId); [|done].
  destruct (privateThreads st !! threadId); [|done].
  destruct (find_first _ _); done.
Qed.

Lemma react_to_private_message_membership st socketId threadId messageId emoji :
  membership_ok st ->
  membership_ok (react_to_private_message st socketId threadId messageId emoji).1.
Proof.
  intros Hok. unfold react_to_private_message.
  destruct (users st !! socketId); [|done].
  destruct (privateThreads st !! threadId); [|done].
  destruct (find_first _ _); done.
Qed.

Lemma private_message_membership localeCompare createdAt stamp st socketId to message tempId :
  membership_ok st ->
  membership_ok
    (private_message localeCompare createdAt stamp st socketId to message tempId).1.1.
Proof.
  intros Hok. unfold private_message.
  destruct (users st !! socketId) as [user|]; [|done].
  destruct (orNull to) as [toName|]; [|done].
  destruct (negb (truthy _)); [done|].
  destruct (usernameToSocketId st !! toName) as [sid|]; [|done].
  simpl. destruct (truthy sid); [|done].
  destruct (users st !! sid) as [recipient|]; [|done].
  by destruct (ensurePrivateThread _ _ _ _ _) as [threads thread].
Qed.

Lemma set_active_room_membership lastSeen st socketId roomId :
  membership_ok st -> membership_ok (set_active_room lastSeen st socketId roomId).
Proof.
  intros Hok. unfold set_active_room.
  destruct (users st !! socketId) as [user|] eqn:Hu; [|done].
  destruct (JsMap.get roomId (rooms st)); [|done].
  eapply (membership_passes never); [exact Hok|apply members_kept_refl|].
  intros sid user'. simpl. destruct (decide (socketId = sid)) as [<-|Hne].
  - rewrite lookup_insert_eq. intros [= <-]. simpl.
    destruct (Hok _ _ Hu) as (Hid & Hnd & _).
    split; [done|]. split; [done|]. intros rid Hrid. left. exists user. eauto.
  - rewrite lookup_insert_ne by done. intros Hu'.
    destruct (Hok _ _ Hu') as (Hid & Hnd & _).
    split; [done|]. split; [done|]. intros rid Hrid. left. exists user'. eauto.
Qed.

Lemma createRoom_id stamp st name options :
  keyed (rooms st) ->
  room_id (createRoom stamp st name options).2
  = orElse (opt_id options) (normalizeRoomId (uuid stamp) name).
Proof.
  intros Hk. unfold createRoom. set (key := orElse _ _).
  destruct (JsMap.get key (rooms st)) as [room|] eqn:Hr; simpl; [|done].
  by apply Hk.
Qed.

Lemma leave_room_membership stamp st socketId roomId :
  membership_ok st -> keyed (rooms st) ->
  membership_ok (leave_room stamp st socketId roomId).1.1.
Proof.
  intros Hok Hk. unfold leave_room.
  destruct (users st !! socketId) as [user|] eqn:Hu; [|done].
  destruct (JsMap.get roomId (rooms st)) as [room|] eqn:Hr; [|done].
  pose proof (Hk _ _ Hr) as Hid. rewrite Hid.
  set (gone := fun s k : jsstring => s = socketId /\ k = roomId).
  match goal with |- context [addSystemMessage ?a ?b ?c ?d] =>
    pose proof (addSystemMessage_members gone a b c d) as Hm;
    pose proof (addSystemMessage_registry a b c d) as [Hu2 _];
    destruct (addSystemMessage a b c d) as [st2 emits1] end.
  simpl in Hm, Hu2.
  assert (Hkept : members_kept gone (rooms st) (rooms st2)).
  { eapply members_kept_trans; [|exact Hm].
    eapply members_kept_set; [exact Hr|]. intros s Hs. simpl.
    destruct (decide (s = socketId)) as [->|Hne]; [by right|].
    left. by apply JsSet_elem_of_delete. }
  assert (Husers : forall userF,
    user_id userF = user_id user ->
    user_rooms userF = JsSet.delete roomId (user_rooms user) ->
    forall st', rooms st' = rooms st2 -> users st' = <[socketId := userF]> (users st) ->
    membership_ok st').
  { intros userF HidF HroomsF st' Hrs Hus.
    eapply (membership_passes gone); [exact Hok|by rewrite Hrs|].
    intros sid user'. rewrite Hus. destruct (decide (socketId = sid)) as [<-|Hne].
    - rewrite lookup_insert_eq. intros [= <-].
      destruct (Hok _ _ Hu) as (Hi & Hnd & _).
      split; [congruence|]. rewrite HroomsF. split; [by apply JsSet_delete_NoDup|].
      intros rid Hrid. apply JsSet_elem_of_delete in Hrid as [Hne Hrid].
      left. exists user. split; [done|]. split; [done|]. intros [_ ?]. done.
    - rewrite lookup_insert_ne by done. intros Hu'.
      destruct (Hok _ _ Hu') as (Hi & Hnd & _).
      split; [done|]. split; [done|]. intros rid Hrid. left. exists user'.
      split; [done|]. split; [done|]. intros [? _]. done. }
  case_bool_decide; simpl.
  - apply (Husers (set_user_activeRoom
                     (set_user_rooms user (JsSet.delete roomId (user_rooms user)))
                     (js "general"))); [done|done|done|].
    simpl. rewrite Hu2. apply insert_insert_eq.
  - apply (Husers (set_user_rooms user (JsSet.delete roomId (user_rooms user))));
      [done|done|done|exact Hu2].
Qed.

Lemma disconnect_room_members stamp socketId username acc roomId :
  members_kept (fun s k => s = socketId) (rooms acc.1)
    (rooms (disconnect_room stamp socketId username acc roomId).1).
Proof.
  unfold disconnect_room. destruct acc as [st emits]. simpl.
  destruct (JsMap.get roomId (rooms st)) as [room|] eqn:Hr; [|apply members_kept_refl].
  match goal with |- context [addSystemMessage ?a ?b ?c ?d] =>
    pose proof (addSystemMessage_members (fun s k : jsstring => s = socketId) a b c d) as Hm;
    destruct (addSystemMessage a b c d) as [st2 emits2] end.
  simpl in *. eapply members_kept_trans; [|exact Hm].
  eapply members_kept_set; [exact Hr|]. intros s Hs. simpl.
  destruct (decide (s = socketId)) as [->|Hne]; [by right|].
  left. by apply JsSet_elem_of_delete.
Qed.

Lemma disconnect_rooms_members stamps socketId username roomIds : forall i acc,
  members_kept (fun s k => s = socketId) (rooms acc.1)
    (rooms (disconnect_rooms stamps i socketId username acc roomIds).1).
Proof.
  induction roomIds as [|r0 rest IH]; intros i acc; simpl.
  - apply members_kept_refl.
  - eapply members_kept_trans; [apply disconnect_room_members|apply IH].
Qed.

Lemma disconnect_membership stamps leftAt st socketId :
  membership_ok st -> membership_ok (disconnect stamps leftAt st socketId).1.
Proof.
  intros Hok.
  destruct (users st !! socketId) as [user|] eqn:Hu;
    [|by rewrite disconnect_unknown].
  destruct (disconnect_registry stamps leftAt st socketId user Hu) as [Hus _].
  eapply (membership_passes (fun s k => s = socketId)); [exact Hok| |].
  - unfold disconnect. rewrite Hu.
    pose proof (disconnect_rooms_members stamps socketId (user_username user)
                  (user_rooms user) 0 (st, [])) as Hm.
    by destruct (disconnect_rooms _ _ _ _ _ _) as [st1 emits].
  - intros sid user'. rewrite Hus. intros Hl.
    apply lookup_delete_Some in Hl as [Hne Hl].
    destruct (Hok _ _ Hl) as (Hi & Hnd & _).
    split; [done|]. split; [done|]. intros rid Hrid. left. exists user'.
    split; [done|]. split; [done|]. intros ->. done.
Qed.

Lemma join_room_membership roomStamp messageStamp st socketId requestedRoom roomName
    description :
  membership_ok st -> keyed (rooms st) ->
  membership_ok
    (join_room roomStamp messageStamp st socketId requestedRoom roomName description).1.1.
Proof.
  intros Hok Hk. unfold join_room.
  destruct (users st !! socketId) as [user|] eqn:Hu; [|done].
  destruct (orNull _) as [targetName|]; [|done].
  match goal with |- context [createRoom ?a ?b ?c ?d] =>
    pose proof (createRoom_members never a b c d) as Hc;
    pose proof (createRoom_stored a b c d) as Hs;
    pose proof (createRoom_id a b c d Hk) as Hid;
    pose proof (createRoom_registry a b c d) as [Hu1 _];
    destruct (createRoom a b c d) as [st1 room]
  end.
  simpl in Hc, Hs, Hid, Hu1. rewrite <- Hid in *.
  destruct (Hok _ _ Hu) as (Hi & Hnd & Hold).
  destruct (negb (JsSet.has (room_id room) (user_rooms user))) eqn:Hhas.
  - match goal with |- context [addSystemMessage ?a ?b ?c ?d] =>
      pose proof (addSystemMessage_members never a b c d) as Hm;
      pose proof (addSystemMessage_registry a b c d) as [Hu2 _];
      destruct (addSystemMessage a b c d) as [st2 emits1] end.
    simpl in Hm, Hu2. simpl.
    eapply (membership_passes never); [exact Hok| |].
    + simpl. eapply members_kept_trans; [exact Hc|].
      eapply members_kept_trans; [|exact Hm].
      eapply members_kept_set; [exact Hs|]. intros s Hin. left.
      apply JsSet_elem_of_add. by right.
    + intros sid user'. simpl. rewrite Hu2, Hu1, insert_insert_eq.
      destruct (decide (socketId = sid)) as [<-|Hne].
      * rewrite lookup_insert_eq. intros [= <-]. simpl.
        split; [done|]. split; [by apply JsSet_add_NoDup|].
        intros rid Hrid. apply JsSet_elem_of_add in Hrid as [->|Hrid].
        -- right.
           destruct (Hm (room_id room)
                       (set_room_members room (JsSet.add socketId (room_members room))))
             as (room3 & Hg3 & Hm3); [apply JsMap_get_set_eq|].
           exists room3. split; [exact Hg3|].
           destruct (Hm3 socketId); [apply JsSet_elem_of_add; by left|done|done].
        -- left. exists user. split; [done|]. split; [done|]. intros [].
      * rewrite lookup_insert_ne by done. intros Hu'.
        destruct (Hok _ _ Hu') as (Hi' & Hnd' & _).
        split; [done|]. split; [done|]. intros rid Hrid. left. exists user'.
        split; [done|]. split; [done|]. intros [].
  - simpl. eapply (membership_passes never); [exact Hok|exact Hc|].
    intros sid user'. simpl. rewrite Hu1.
    destruct (decide (socketId = sid)) as [<-|Hne].
    + rewrite lookup_insert_eq. intros [= <-]. simpl.
      split; [done|]. split; [done|]. intros rid Hrid. left. exists user.
      split; [done|]. split; [done|]. intros [].
    + rewrite lookup_insert_ne by done. intros Hu'.
      destruct (Hok _ _ Hu') as (Hi' & Hnd' & _).
      split; [done|]. split; [done|]. intros rid Hrid. left. exists user'.
      split; [done|]. split; [done|]. intros [].
Qed.

Lemma user_join_membership draws st socketId payload :
  membership_ok st -> keyed (rooms st) ->
  membership_ok (user_join draws st socketId payload).1.1.
Proof.
  intros Hok Hk. unfold user_join.
  destruct (negb (truthy _)); [done|].
  case_bool_decide; [done|].
  match goal with |- context [match JsMap.get ?k ?m with Some room => (?s1, room) | None => ?cr end] =>
    assert (Hlobby :
      let stage := match JsMap.get k m with Some room => (s1, room) | None => cr end in
      members_kept never (rooms st) (rooms stage.1) /\
      JsMap.get (js "general") (rooms stage.1) = Some stage.2 /\
      room_id stage.2 = js "general" /\
      users stage.1 = users s1);
    [|destruct (match JsMap.get k m with Some room => (s1, room) | None => cr end)
        as [st2 defaultRoom]]
  end.
  { simpl. destruct (JsMap.get (js "general") (rooms st)) as [room|] eqn:Hg; simpl.
    - split; [apply members_kept_refl|]. split; [done|]. split; [by apply Hk|done].
    - match goal with |- context [createRoom ?a ?b ?c ?d] =>
        pose proof (createRoom_members never a b c d) as Hc;
        pose proof (createRoom_stored a b c d) as Hs;
        pose proof (createRoom_id a b c d Hk) as Hid;
        pose proof (createRoom_registry a b c d) as [Hu1 _]
      end.
      done. }
  simpl in Hlobby. destruct Hlobby as (Hc & Hs & Hid & Hu1).
  match goal with |- context [addSystemMessage ?a ?b ?c ?d] =>
    pose proof (addSystemMessage_members never a b c d) as Hm;
    pose proof (addSystemMessage_registry a b c d) as [Hu2 _];
    destruct (addSystemMessage a b c d) as [st4 emits2] end.
  simpl in Hm, Hu2. simpl.
  eapply (membership_passes never); [exact Hok| |].
  - eapply members_kept_trans; [exact Hc|].
    eapply members_kept_trans; [|exact Hm].
    eapply members_kept_set; [exact Hs|]. intros s Hin. left.
    apply JsSet_elem_of_add. by right.
  - intros sid user'. rewrite Hu2, Hu1, insert_insert_eq.
    destruct (decide (socketId = sid)) as [<-|Hne].
    + rewrite lookup_insert_eq. intros [= <-]. simpl.
      split; [done|]. split; [apply JsSet_add_NoDup; constructor|].
      intros rid Hrid. apply JsSet_elem_of_add in Hrid as [->|Hrid];
        [|by apply elem_of_nil in Hrid].
      right. rewrite Hid.
      destruct (Hm (js "general")
                  (set_room_members defaultRoom
                     (JsSet.add socketId (room_members defaultRoom))))
        as (room3 & Hg3 & Hm3); [apply JsMap_get_set_eq|].
      exists room3. split; [exact Hg3|].
      destruct (Hm3 socketId); [apply JsSet_elem_of_add; by left|done|done].
    + rewrite lookup_insert_ne by done. intros Hu'.
      destruct (Hok _ _ Hu') as (Hi' & Hnd' & _).
      split; [done|]. split; [done|]. intros rid Hrid. left. exists user'.
      split; [done|]. split; [done|]. intros [].
Qed.

Lemma rooms_ok_keyed (st : Server) : rooms_ok st -> keyed (rooms st).
Proof. intros Hok k r Hg. by destruct (Hok _ _ Hg). Qed.

Section ServeMembership.
Variable localeCompare : jsstring -> jsstring -> Z.

Lemma handle_membership (st : Server) (request : Request) :
  rooms_ok st -> membership_ok st -> membership_ok (handle localeCompare st request).
Proof.
  intros Hr Hok. apply rooms_ok_keyed in Hr.
  destruct request; simpl.
  - by apply user_join_membership.
  - by apply disconnect_membership.
  - by apply join_room_membership.
  - by apply leave_room_membership.
  - by apply send_message_membership.
  - by apply message_delivered_membership.
  - by apply message_read_membership.
  - by apply react_to_message_membership.
  - by apply private_message_membership.
  - by apply private_message_read_membership.
  - by apply react_to_private_message_membership.
  - by apply set_active_room_membership.
Qed.

Lemma serve_membership (requests : list Request) : forall st,
  rooms_ok st -> membership_ok st ->
  membership_ok (serve localeCompare st requests).
Proof.
  induction requests as [|request requests IH]; intros st Hr Hok; [done|].
  simpl. apply IH.
  - eapply evolves_rooms_ok; [exact Hr|apply handle_evolves].
  - by apply handle_membership.
Qed.

(** X12.  In every state the requests lead to, a user is stored under its
    socket id, lists no room twice, and every room it lists exists and
    lists its socket among the members. *)
Theorem listed_rooms_list_the_user (boot : nat -> Stamp) (requests : list Request) :
  let st := serve localeCompare (initialServer boot) requests in
  forall socketId user,
    users st !! socketId = Some user ->
    user_id user = socketId /\
    NoDup (user_rooms user) /\
    forall roomId, roomId ∈ user_rooms user ->
      exists room, JsMap.get roomId (rooms st) = Some room /\
                   room_id room = roomId /\
                   socketId ∈ room_members room.
Proof.
  intros st sid user Hu.
  destruct (initialServer_ok boot) as [Hr _].
  assert (Hm : membership_ok st).
  { apply serve_membership; [exact Hr|]. intros s u.
    destruct (initialServer_registry boot) as [-> _]. by rewrite lookup_empty. }
  assert (Hr' : rooms_ok st).
  { eapply evolves_rooms_ok; [exact Hr|apply serve_evolves]. }
  destruct (Hm _ _ Hu) as (Hid & Hnd & Hrooms).
  split; [done|]. split; [done|]. intros rid Hrid.
  destruct (Hrooms rid Hrid) as (room & Hg & Hin).
  exists room. split; [done|]. split; [|done]. by destruct (Hr' _ _ Hg).
Qed.
End ServeMembership.

(** ** History pages *)

Lemma findIndex_range {A : Type} (p : A -> bool) (l : list A) :
  (-1 <= findIndex p l < Z.of_nat (length l))%Z \/
  (findIndex p l = -1 /\ l = [])%Z.
Proof.
  induction l as [|x l IH]; simpl; [by right|]. left.
  destruct (p x); [lia|].
  destruct (Z.eqb_spec (findIndex p l) (-1)); [lia|].
  destruct IH as [IH|[IH _]]; lia.
Qed.

Lemma findIndex_none {A : Type} (p : A -> bool) (l : list A) :
  Forall (fun x => p x = false) l -> findIndex p l = (-1)%Z.
Proof.
  induction 1 as [|x l Hx _ IH]; simpl; [done|]. by rewrite Hx, IH.
Qed.

Lemma slice_length_le {A : Type} (l : list A) (start fin : Z) :
  (0 <= start)%Z -> (0 <= fin)%Z ->
  length (slice l start fin) <= Z.to_nat (fin - start).
Proof.
  intros Hs Hf. unfold slice, relIndex.
  destruct (Z.ltb_spec start 0) as [?|_]; [lia|].
  destruct (Z.ltb_spec fin 0) as [?|_]; [lia|].
  rewrite length_take. lia.
Qed.

(** X13.  A history page holds at most 100 messages, whatever the limit asked
    for and whatever the cursor, and at most the limit when that is a
    positive number; the HTTP route likewise. *)
Theorem history_page_is_bounded (st : Server) (socketId roomId : jsstring)
    (before : option jsstring) (limit : option Z) :
  match request_room_history st socketId roomId before limit with
  | AckOk page =>
      length (page_messages page) <= 100 /\
      (forall n, limit = Some n -> (0 < n)%Z -> length (page_messages page) <= Z.to_nat n)
  | AckError _ => True
  end
  /\ match get_room_messages st roomId before limit with
     | HttpJson _ page =>
         length (page_messages page) <= 100 /\
         (forall n, limit = Some n -> (0 < n)%Z -> length (page_messages page) <= Z.to_nat n)
     | HttpError _ _ => True
     end.
Proof.
  assert (Hgen : forall (l : list Message) (beforeIndex : Z),
    ((-1 <= beforeIndex < Z.of_nat (length l))%Z \/ beforeIndex = (-1)%Z) ->
    let endIndex := if (beforeIndex =? -1)%Z then Z.of_nat (length l) else beforeIndex in
    let page := List.map serializeMessage
                  (slice l (Z.max 0 (endIndex - parsedLimit limit)) endIndex) in
    length page <= 100 /\
    (forall n, limit = Some n -> (0 < n)%Z -> length page <= Z.to_nat n)).
  { intros l bi Hbi endIndex page. subst page. rewrite length_map.
    assert (0 <= endIndex)%Z.
    { subst endIndex. destruct (Z.eqb_spec bi (-1)); lia. }
    pose proof (slice_length_le l (Z.max 0 (endIndex - parsedLimit limit)) endIndex
                  ltac:(lia) ltac:(lia)) as Hlen.
    assert (parsedLimit limit <= 100)%Z by (unfold parsedLimit; lia).
    split; [lia|]. intros n -> Hn.
    assert (parsedLimit (Some n) <= n)%Z.
    { unfold parsedLimit. simpl. destruct (Z.eqb_spec n 0); lia. }
    lia. }
  assert (Hidx : forall (l : list Message),
    let bi := match orNull before with
              | Some b => findIndex (fun message => bool_decide (msg_id message = b)) l
              | None => (-1)%Z
              end in
    (-1 <= bi < Z.of_nat (length l))%Z \/ bi = (-1)%Z).
  { intros l. simpl. destruct (orNull before) as [b|]; [|by right].
    destruct (findIndex_range (fun message => bool_decide (msg_id message = b)) l)
      as [?|[? _]]; [by left|by right]. }
  split.
  - unfold request_room_history.
    destruct (users st !! socketId); [|done].
    destruct (JsMap.get roomId (rooms st)) as [room|]; [|done]. simpl.
    apply Hgen, Hidx.
  - unfold get_room_messages.
    destruct (JsMap.get roomId (rooms st)) as [room|]; [|done]. simpl.
    apply Hgen, Hidx.
Qed.

(** X14.  A cursor that names no message of the log, one evicted since, say, is
    no cursor: the answer is the latest page. *)
Theorem unknown_cursor_gives_latest_page (st : Server) (socketId roomId : jsstring)
    (before : jsstring) (limit : option Z) :
  (forall room, JsMap.get roomId (rooms st) = Some room ->
                Forall (fun m => msg_id m <> before) (room_messages room)) ->
  request_room_history st socketId roomId (Some before) limit
  = request_room_history st socketId roomId None limit
  /\ get_room_messages st roomId (Some before) limit
     = get_room_messages st roomId None limit.
Proof.
  intros Hnone.
  assert (Hidx : forall room, JsMap.get roomId (rooms st) = Some room ->
    match orNull (Some before) with
    | Some b => findIndex (fun message => bool_decide (msg_id message = b))
                  (room_messages room)
    | None => (-1)%Z
    end = (-1)%Z).
  { intros room Hr. destruct (orNull (Some before)) as [b|] eqn:Hb; [|done].
    assert (b = before) as -> by (unfold orNull in Hb; by destruct before; inversion Hb).
    apply findIndex_none. eapply Forall_impl; [exact (Hnone room Hr)|].
    intros m Hm. by apply bool_decide_eq_false_2. }
  split.
  - unfold request_room_history.
    destruct (users st !! socketId); [|done].
    destruct (JsMap.get roomId (rooms st)) as [room|] eqn:Hr; [|done].
    by rewrite (Hidx room eq_refl).
  - unfold get_room_messages.
    destruct (JsMap.get roomId (rooms st)) as [room|] eqn:Hr; [|done].
    by rewrite (Hidx room eq_refl).
Qed.

(** ** The client rebuilds the log *)

Section SortSorted.
Context {A : Type} (comparefn : A -> A -> Z).

Lemma sort_insert_last (x : A) (sorted : list A) :
  Forall (fun y => (comparefn y x <= 0)%Z) sorted ->
  sort_insert comparefn x sorted = sorted ++ [x].
Proof.
  induction 1 as [|y sorted Hy _ IH]; simpl; [done|].
  destruct (Z.ltb_spec 0 (comparefn y x)); [lia|]. by rewrite IH.
Qed.

Lemma sort_sorted_from (l acc : list A) :
  Forall (fun y => Forall (fun x => (comparefn y x <= 0)%Z) l) acc ->
  StronglySorted (fun a b => (comparefn a b <= 0)%Z) l ->
  fold_left (fun sorted x => sort_insert comparefn x sorted) l acc = acc ++ l.
Proof.
  revert acc. induction l as [|x l IH]; intros acc Hacc Hl; simpl.
  - by rewrite app_nil_r.
  - apply StronglySorted_inv in Hl as [Hl Hx].
    rewrite sort_insert_last.
    + rewrite IH; [by rewrite <- app_assoc| |done].
      apply Forall_app. split.
      * eapply Forall_impl; [exact Hacc|]. intros y Hy. by inversion Hy.
      * by constructor.
    + eapply Forall_impl; [exact Hacc|]. intros y Hy. by inversion Hy.
Qed.

Lemma sort_sorted (l : list A) :
  StronglySorted (fun a b => (comparefn a b <= 0)%Z) l -> sort comparefn l = l.
Proof. intros Hl. unfold sort. by rewrite sort_sorted_from. Qed.
End SortSorted.

Lemma StronglySorted_drop {A : Type} (R : A -> A -> Prop) (l : list A) (n : nat) :
  StronglySorted R l -> StronglySorted R (drop n l).
Proof.
  revert n. induction l as [|x l IH]; intros [|n] Hl; simpl; try done.
  apply IH. by apply StronglySorted_inv in Hl as [? _].
Qed.

Lemma StronglySorted_map {A B : Type} (R : A -> A -> Prop) (S : B -> B -> Prop)
    (f : A -> B) (l : list A) :
  (forall a b, R a b -> S (f a) (f b)) ->
  StronglySorted R l -> StronglySorted S (List.map f l).
Proof.
  intros Hf. induction 1 as [|x l _ IH Hx]; simpl; constructor; [done|].
  apply Forall_forall. intros y Hy.
  apply list_elem_of_fmap in Hy as (a & -> & Ha).
  apply Hf. by eapply (proj1 (Forall_forall _ _) Hx).
Qed.

Lemma JsMap_set_fresh {V : Type} (k : jsstring) (v : V) (m : list (jsstring * V)) :
  k ∉ List.map fst m -> JsMap.set k v m = m ++ [(k, v)].
Proof.
  induction m as [|[k' v'] m IH]; simpl; [done|]. intros Hk.
  apply not_elem_of_cons in Hk as [Hne Hk].
  destruct (decide (k' = k)); [congruence|]. by rewrite IH.
Qed.

Lemma dedupe_from (l : list Message) (acc : list (jsstring * Message)) :
  NoDup (List.map fst acc ++ List.map msg_id l) ->
  fold_left (fun map item => JsMap.set (msg_id item) item map) l acc
  = acc ++ List.map (fun m => (msg_id m, m)) l.
Proof.
  revert acc. induction l as [|x l IH]; intros acc Hnd; simpl.
  - by rewrite app_nil_r.
  - rewrite JsMap_set_fresh.
    + rewrite IH; [by rewrite <- app_assoc|].
      rewrite List.map_app. simpl. rewrite <- app_assoc. exact Hnd.
    + apply NoDup_app in Hnd as (_ & Hdis & _). intros Hin.
      apply (Hdis _ Hin). simpl. left.
Qed.

Lemma dedupe_distinct (l : list Message) :
  NoDup (List.map msg_id l) -> dedupe l = l.
Proof.
  intros Hnd. unfold dedupe. rewrite dedupe_from by done. simpl.
  unfold JsMap.values. rewrite List.map_map. simpl. apply List.map_id.
Qed.

Lemma lastn_all {A : Type} (l : list A) (n : nat) :
  length l <= n -> lastn n l = l.
Proof. intros Hn. unfold lastn. replace (length l - n) with 0 by lia. done. Qed.

Lemma lastn_extend {A : Type} (l : list A) (m n : nat) :
  m < length l ->
  lastn n (take (length l - m) l) ++ lastn m l = lastn (m + n) l.
Proof.
  intros Hm. unfold lastn. rewrite length_take.
  replace (length l `min` (length l - m)) with (length l - m) by lia.
  assert (E : drop (length l - (m + n)) l
              = drop (length l - (m + n)) (take (length l - m) l ++ drop (length l - m) l))
    by (by rewrite take_drop).
  rewrite E. rewrite drop_app_le by (rewrite length_take; lia).
  f_equal. f_equal. lia.
Qed.

Lemma NoDup_map_drop_take {A B : Type} (f : A -> B) (l : list A) (k : nat) (x : A) :
  NoDup (List.map f l) -> l !! k = Some x ->
  Forall (fun y => f y <> f x) (take k l).
Proof.
  intros Hnd Hx. apply Forall_forall. intros y Hy Heq.
  apply list_elem_of_lookup in Hy as [i Hi].
  assert (i < k) by (apply lookup_lt_Some in Hi; rewrite length_take in Hi; lia).
  rewrite lookup_take_lt in Hi by done.
  assert (Hfi : List.map f l !! i = Some (f y)) by (by rewrite list_lookup_fmap, Hi).
  assert (Hfk : List.map f l !! k = Some (f x)) by (by rewrite list_lookup_fmap, Hx).
  rewrite Heq in Hfi.
  pose proof (NoDup_lookup _ _ _ _ Hnd Hfi Hfk). lia.
Qed.

Section ClientProperties.
Variable getTime : jsstring -> Z.

Lemma sortMessages_chronological (l : list Message) :
  chronological getTime l -> sortMessages getTime l = l.
Proof.
  intros Hl. unfold sortMessages. apply sort_sorted.
  eapply StronglySorted_map with (f := id) in Hl.
  - by rewrite List.map_id in Hl.
  - intros a b Hab. simpl. unfold id. lia.
Qed.

Lemma chronological_page (l : list Message) (n : nat) :
  chronological getTime l ->
  chronological getTime (List.map serializeMessage (lastn n l)).
Proof.
  intros Hl. unfold chronological, lastn.
  eapply StronglySorted_map; [|by apply StronglySorted_drop].
  by intros a b Hab.
Qed.

Lemma serializeMessage_ids (l : list Message) :
  List.map msg_id (List.map serializeMessage l) = List.map msg_id l.
Proof. rewrite List.map_map. done. Qed.

(** The room state after [k] rounds of loading older messages. *)
Lemma handleLoadMore_rounds (st : Server) (socketId : jsstring) (user : User)
    (room : Room) (k : nat) :
  users st !! socketId = Some user ->
  JsMap.get (room_id room) (rooms st) = Some room ->
  NoDup (List.map msg_id (room_messages room)) ->
  Forall (fun m => msg_id m <> []) (room_messages room) ->
  chronological getTime (room_messages room) ->
  let state := Nat.iter k (handleLoadMore getTime st socketId)
                 (ensureRoomState getTime (serializeRoom room 30)) in
  rs_id state = room_id room /\
  rs_messages state
    = List.map serializeMessage (lastn (30 * (k + 1)) (room_messages room)) /\
  rs_hasMore state = (30 * (k + 1) <? length (room_messages room)).
Proof.
  intros Hu Hr Hnd Hids Hsorted. cbv zeta. set (l := room_messages room) in *.
  induction k as [|k IH].
  - split; [done|]. cbn [Nat.iter nat_rect ensureRoomState serializeRoom
      rs_messages rs_hasMore sroom_messages sroom_hasMore].
    fold l.
    assert (E : sliceFrom l (Z.opp 30) = lastn (30 * (0 + 1)) l)
      by (apply (sliceFrom_lastn l 30); lia).
    rewrite E. split.
    + apply sortMessages_chronological. by apply chronological_page.
    + rewrite length_map. unfold lastn. rewrite length_drop.
      destruct (Nat.ltb_spec (length l - (length l - 30 * (0 + 1))) (length l));
        destruct (Nat.ltb_spec (30 * (0 + 1)) (length l)); lia.
  - destruct IH as (Hid & Hms & Hmore).
    change (Nat.iter (S k) (handleLoadMore getTime st socketId)
              (ensureRoomState getTime (serializeRoom room 30)))
      with (handleLoadMore getTime st socketId
              (Nat.iter k (handleLoadMore getTime st socketId)
                 (ensureRoomState getTime (serializeRoom room 30)))).
    set (state := Nat.iter k (handleLoadMore getTime st socketId)
                    (ensureRoomState getTime (serializeRoom room 30))) in *.
    set (m := 30 * (k + 1)) in *.
    replace (30 * (S k + 1)) with (m + 30) by (subst m; lia).
    unfold handleLoadMore. rewrite Hmore.
    destruct (Nat.ltb_spec m (length l)) as [Hlt|Hge].
    + (* the oldest message the client holds *)
      destruct (lookup_lt_is_Some_2 l (length l - m) ltac:(lia)) as [oldest Hold].
      assert (Hdrop : drop (length l - m) l = oldest :: drop (S (length l - m)) l)
        by (by apply drop_S).
      assert (Hhead : head (rs_messages state) = Some (serializeMessage oldest)).
      { rewrite Hms. unfold lastn. by rewrite Hdrop. }
      rewrite Hhead, Hid. cbn [fmap option_fmap option_map serializeMessage msg_id].
      assert (Hidne : msg_id oldest <> []).
      { eapply (proj1 (Forall_forall _ _) Hids). by eapply list_elem_of_lookup_2. }
      assert (Hlen : length (take (length l - m) l) = length l - m)
        by (rewrite length_take; lia).
      rewrite (request_room_history_page st socketId (room_id room) user room
                 (Some (msg_id oldest)) (Some 30%Z)
                 (take (length l - m) l) (drop (length l - m) l) Hu Hr).
      * change (Z.to_nat (parsedLimit (Some 30%Z))) with 30.
        unfold receiveHistory.
        cbn [rs_id rs_messages rs_hasMore page_messages page_hasMore].
        rewrite Hms, <- List.map_app, lastn_extend by done.
        split; [done|]. split.
        -- rewrite dedupe_distinct.
           ++ rewrite (sortMessages_chronological
                         (List.map serializeMessage (lastn (m + 30) l)))
                by (by apply chronological_page).
              apply sortMessages_chronological. by apply chronological_page.
           ++ rewrite serializeMessage_ids. unfold lastn.
              rewrite <- (take_drop (length l - (m + 30)) l), List.map_app in Hnd.
              by apply NoDup_app in Hnd as (_ & _ & ?).
        -- rewrite Hlen.
           destruct (Nat.ltb_spec 30 (length l - m));
             destruct (Nat.ltb_spec (m + 30) (length l)); lia.
      * fold l. by rewrite take_drop.
      * apply Forall_take. exact Hids.
      * done.
      * right. exists (msg_id oldest), oldest, (drop (S (length l - m)) l).
        repeat split; try done.
        by apply NoDup_map_drop_take.
    + split; [done|]. split; [|destruct (Nat.ltb_spec (m + 30) (length l)); [lia|done]].
      rewrite Hms. by rewrite !lastn_all by lia.
Qed.

(** X15.  Loading older messages with the id of the oldest message held, as
    the client does, rebuilds the log: after [k] rounds the client holds the
    last [30 (k + 1)] messages of the room in the order of the log, each
    once, and [hasMore] tells whether the log has more; once [30 (k + 1)]
    reaches the length of the log it holds all of it. *)
Theorem load_more_rebuilds_the_log (st : Server) (socketId : jsstring) (user : User)
    (room : Room) (k : nat) :
  users st !! socketId = Some user ->
  JsMap.get (room_id room) (rooms st) = Some room ->
  NoDup (List.map msg_id (room_messages room)) ->
  Forall (fun m => msg_id m <> []) (room_messages room) ->
  chronological getTime (room_messages room) ->
  let state := Nat.iter k (handleLoadMore getTime st socketId)
                 (ensureRoomState getTime (serializeRoom room 30)) in
  rs_messages state
    = List.map serializeMessage (lastn (30 * (k + 1)) (room_messages room)) /\
  rs_hasMore state = (30 * (k + 1) <? length (room_messages room)) /\
  (length (room_messages room) <= 30 * (k + 1) ->
   rs_messages state = List.map serializeMessage (room_messages room) /\
   rs_hasMore state = false).
Proof.
  intros Hu Hr Hnd Hids Hsorted state.
  destruct (handleLoadMore_rounds st socketId user room k Hu Hr Hnd Hids Hsorted)
    as (_ & Hms & Hmore).
  fold state in Hms, Hmore. split; [done|]. split; [done|].
  intros Hall. rewrite Hms, Hmore. rewrite lastn_all by done. split; [done|].
  destruct (Nat.ltb_spec (30 * (k + 1)) (length (room_messages room))); [lia|done].
Qed.

End ClientProperties.

(** ** Requests that are refused *)

Lemma user_join_rejected draws st socketId payload st' emits e :
  user_join draws st socketId payload = (st', emits, AckError e) ->
  st' = st /\ emits = [].
Proof.
  unfold user_join. intros H.
  destruct (negb (truthy (joinUsername payload))); [by inversion H|].
  destruct (bool_decide _); [by inversion H|].
  repeat match type of H with
         | context [let '(_, _) := ?x in _] => destruct x
         end.
  by inversion H.
Qed.

Lemma join_room_rejected roomStamp messageStamp st socketId requestedRoom roomName
    description st' emits e :
  join_room roomStamp messageStamp st socketId requestedRoom roomName description
  = (st', emits, AckError e) ->
  st' = st /\ emits = [].
Proof.
  unfold join_room. intros H.
  destruct (users st !! socketId); [|by inversion H].
  destruct (orNull _); [|by inversion H].
  destruct (createRoom _ _ _ _).
  destruct (negb _).
  - destruct (addSystemMessage _ _ _ _). by inversion H.
  - by inversion H.
Qed.

Lemma leave_room_rejected stamp st socketId roomId st' emits e :
  leave_room stamp st socketId roomId = (st', emits, AckError e) ->
  st' = st /\ emits = [].
Proof.
  unfold leave_room. intros H.
  destruct (users st !! socketId); [|by inversion H].
  destruct (JsMap.get roomId (rooms st)); [|by inversion H].
  destruct (addSystemMessage _ _ _ _).
  destruct (bool_decide _); by inversion H.
Qed.

Lemma send_message_rejected stamp st socketId roomId message attachments tempId
    st' emits e :
  send_message stamp st socketId roomId message attachments tempId
  = (st', emits, AckError e) ->
  st' = st /\ emits = [].
Proof.
  unfold send_message. intros H.
  destruct (users st !! socketId); [|by inversion H].
  destruct (orNull roomId); [|by inversion H].
  destruct (negb _); [by inversion H|].
  destruct (JsMap.get _ _); by inversion H.
Qed.

Lemma private_message_rejected localeCompare createdAt stamp st socketId to message
    tempId st' emits e :
  private_message localeCompare createdAt stamp st socketId to message tempId
  = (st', emits, AckError e) ->
  st' = st /\ emits = [].
Proof.
  unfold private_message. intros H.
  destruct (users st !! socketId); [|by inversion H].
  destruct (orNull to); [|by inversion H].
  destruct (negb _); [by inversion H|].
  destruct (usernameToSocketId st !! _); [|by inversion H].
  destruct (match orNull _ with Some _ => _ | None => _ end); [|by inversion H].
  destruct (ensurePrivateThread _ _ _ _ _). by inversion H.
Qed.

(** X16.  A request that is acknowledged with an error changes nothing and
    emits nothing: every check of [user_join], [join_room], [leave_room],
    [send_message] and [private_message] comes before the first write. *)
Theorem rejected_requests_change_nothing (st : Server) (socketId : jsstring) :
  (forall draws payload st' emits e,
     user_join draws st socketId payload = (st', emits, AckError e) ->
     st' = st /\ emits = []) /\
  (forall roomStamp messageStamp requestedRoom roomName description st' emits e,
     join_room roomStamp messageStamp st socketId requestedRoom roomName description
     = (st', emits, AckError e) ->
     st' = st /\ emits = []) /\
  (forall stamp roomId st' emits e,
     leave_room stamp st socketId roomId = (st', emits, AckError e) ->
     st' = st /\ emits = []) /\
  (forall stamp roomId message attachments tempId st' emits e,
     send_message stamp st socketId roomId message attachments tempId
     = (st', emits, AckError e) ->
     st' = st /\ emits = []) /\
  (forall localeCompare createdAt stamp to message tempId st' emits e,
     private_message localeCompare createdAt stamp st socketId to message tempId
     = (st', emits, AckError e) ->
     st' = st /\ emits = []).
Proof.
  repeat split; intros.
  all: first [ by eapply user_join_rejected | by eapply join_room_rejected
             | by eapply leave_room_rejected | by eapply send_message_rejected
             | by eapply private_message_rejected ].
Qed.

(** ** Replies *)

Section Replies.
Variable localeCompare : jsstring -> jsstring -> Z.

Lemma private_message_sent (createdAt : jsstring) (stamp : Stamp) (st : Server)
    (socketId toName body rsid : jsstring) (tempId : option jsstring)
    (user recipient : User) :
  users st !! socketId = Some user ->
  toName <> [] ->
  trim body <> [] ->
  usernameToSocketId st !! toName = Some rsid ->
  rsid <> [] ->
  users st !! rsid = Some recipient ->
  let key := makeThreadKey localeCompare (user_username user) (user_username recipient) in
  let thread := threadOf localeCompare createdAt st (user_username user)
                  (user_username recipient) in
  let m := privateMessageOf stamp thread user recipient body tempId in
  let result := private_message localeCompare createdAt stamp st socketId
                  (Some toName) (Some body) tempId in
  result.1.1
  = mkServer (users st) (usernameToSocketId st) (rooms st)
      (<[key := set_thread_messages thread
                  (trimMessages (thread_messages thread ++ [m]) MAX_PRIVATE_MESSAGES)]>
         (privateThreads st))
  /\ result.2 = AckOk (mkPrivateAck (msg_id m) (thread_id thread)).
Proof.
  intros Hu Hto Hbody Hsid Hrs Hr key thread m result. subst result m thread.
  unfold private_message, threadOf, privateMessageOf. rewrite Hu.
  assert (Hb : body <> []) by (by intros ->).
  destruct toName as [|c1 toName]; [done|].
  destruct body as [|c2 body]; [done|].
  destruct rsid as [|c3 rsid]; [done|].
  cbn [orNull truthy negb].
  destruct (trim (c2 :: body)) as [|c body'] eqn:Htrim; [done|].
  cbn [truthy negb]. rewrite Hsid. cbn [orNull truthy]. rewrite Hr.
  unfold ensurePrivateThread. fold key.
  destruct (privateThreads st !! key) as [thread|] eqn:Ht;
    cbn [default fst snd addMessageToThread set_thread_messages thread_messages
         thread_id thread_participants thread_createdAt].
  - rewrite trimMessages_alter_last by (unfold MAX_PRIVATE_MESSAGES; lia).
    split; reflexivity.
  - rewrite trimMessages_alter_last by (unfold MAX_PRIVATE_MESSAGES; lia).
    rewrite insert_insert_eq. split; reflexivity.
Qed.

(** X17.  A reply lands in the thread of the message it answers.  When the
    comparator separates the two names, a private message from [a] to [b]
    followed by one from [b] to [a] are acknowledged with the same thread
    id, and the thread under the key of [a] and [b] ends with the two
    messages, in that order; no other thread is touched. *)
Theorem a_reply_joins_the_thread (createdAt1 createdAt2 : jsstring)
    (stamp1 stamp2 : Stamp) (st : Server) (socketA socketB : jsstring)
    (a b : User) (body1 body2 : jsstring) (tempId1 tempId2 : option jsstring) :
  (forall x y, (0 < localeCompare x y)%Z <-> (localeCompare y x < 0)%Z) ->
  (localeCompare (user_username a) (user_username b) = 0%Z ->
   user_username a = user_username b) ->
  users st !! socketA = Some a ->
  users st !! socketB = Some b ->
  usernameToSocketId st !! user_username a = Some socketA ->
  usernameToSocketId st !! user_username b = Some socketB ->
  socketA <> [] -> socketB <> [] ->
  user_username a <> [] -> user_username b <> [] ->
  trim body1 <> [] -> trim body2 <> [] ->
  let first := private_message localeCompare createdAt1 stamp1 st socketA
                 (Some (user_username b)) (Some body1) tempId1 in
  let reply := private_message localeCompare createdAt2 stamp2 first.1.1 socketB
                 (Some (user_username a)) (Some body2) tempId2 in
  let key := makeThreadKey localeCompare (user_username a) (user_username b) in
  let thread := threadOf localeCompare createdAt1 st (user_username a) (user_username b) in
  let m1 := privateMessageOf stamp1 thread a b body1 tempId1 in
  let m2 := privateMessageOf stamp2 thread b a body2 tempId2 in
  first.2 = AckOk (mkPrivateAck (uuid stamp1) (thread_id thread)) /\
  reply.2 = AckOk (mkPrivateAck (uuid stamp2) (thread_id thread)) /\
  (thread_messages <$> privateThreads reply.1.1 !! key)
  = Some (lastn MAX_PRIVATE_MESSAGES (thread_messages thread ++ [m1; m2])) /\
  (forall k, k <> key -> privateThreads reply.1.1 !! k = privateThreads st !! k).
Proof.
  intros Hanti Hsep Ha Hb Hna Hnb Hsa Hsb Hua Hub Hb1 Hb2 first reply key thread m1 m2.
  destruct (private_message_sent createdAt1 stamp1 st socketA (user_username b) body1
              socketB tempId1 a b Ha Hub Hb1 Hnb Hsb Hb) as [Hst1 Hack1].
  fold first key thread m1 in Hst1, Hack1.
  assert (Hkey : makeThreadKey localeCompare (user_username b) (user_username a) = key).
  { symmetry. by apply makeThreadKey_symmetric_when_separated. }
  assert (Ha1 : users first.1.1 !! socketB = Some b) by (by rewrite Hst1).
  assert (Hb1' : users first.1.1 !! socketA = Some a) by (by rewrite Hst1).
  assert (Hna1 : usernameToSocketId first.1.1 !! user_username a = Some socketA)
    by (by rewrite Hst1).
  destruct (private_message_sent createdAt2 stamp2 first.1.1 socketB (user_username a)
              body2 socketA tempId2 b a Ha1 Hua Hb2 Hna1 Hsa Hb1') as [Hst2 Hack2].
  fold reply in Hst2, Hack2. rewrite Hkey in Hst2.
  assert (Hthread : threadOf localeCompare createdAt2 first.1.1 (user_username b)
                      (user_username a)
                    = set_thread_messages thread
                        (trimMessages (thread_messages thread ++ [m1])
                           MAX_PRIVATE_MESSAGES)).
  { unfold threadOf. rewrite Hkey, Hst1. simpl. by rewrite lookup_insert_eq. }
  rewrite Hthread in Hst2, Hack2.
  split; [exact Hack1|]. split; [exact Hack2|]. split.
  - rewrite Hst2. simpl. rewrite lookup_insert_eq. simpl. f_equal.
    rewrite !trimMessages_lastn. rewrite lastn_app_lastn.
    by rewrite <- app_assoc.
  - intros k Hk. rewrite Hst2. simpl. rewrite lookup_insert_ne by done.
    rewrite Hst1. simpl. by rewrite lookup_insert_ne.
Qed.
End Replies.

(** ** Room ids *)

Lemma hyphenateRuns_runs (inRun : bool) (s : jsstring) :
  runsFrom inRun (hyphenateRuns inRun s) = true.
Proof.
  revert inRun. induction s as [|c s IH]; intros inRun; simpl; [done|].
  destruct (isSlugUnit c) eqn:Hc; simpl.
  - by rewrite Hc.
  - destruct inRun; simpl; [done|]. by rewrite IH.
Qed.

Lemma stripEdgeHyphens_eq (s : jsstring) :
  stripEdgeHyphens s
  = let s1 := match s with
              | c :: s' => if (c =? 0x2D)%N then s' else s
              | [] => s
              end in
    match rev s1 with
    | c :: r => if (c =? 0x2D)%N then rev r else s1
    | [] => s1
    end.
Proof.
  assert (H45 : forall (c : N) (x y : jsstring),
    match c with 0x2D%N => x | _ => y end = if (c =? 0x2D)%N then x else y).
  { intros c x y. destruct c as [|p]; [done|].
    repeat (destruct p as [p|p|]; simpl; try done). }
  unfold stripEdgeHyphens. cbv zeta.
  destruct s as [|c s]; [done|].
  rewrite <- (H45 c s (c :: s)).
  set (s1 := match c with 0x2D%N => s | _ => c :: s end).
  destruct (rev s1) as [|d r]; [done|].
  by rewrite <- (H45 d (rev r) s1).
Qed.

Lemma runsFrom_weaken (b : bool) (s : jsstring) :
  runsFrom true s = true -> runsFrom b s = true.
Proof.
  destruct s as [|c s]; simpl; [done|].
  destruct (isSlugUnit c); [done|]. by rewrite andb_false_r.
Qed.

Lemma runs_before_hyphen (b : bool) (s : jsstring) :
  runsFrom b (s ++ [0x2D%N]) = true -> s = [] \/ slugFrom (negb b) s = true.
Proof.
  revert b. induction s as [|c s IH]; intros b; simpl; [by left|].
  intros H. right. destruct (isSlugUnit c).
  - destruct (IH _ H) as [->|Hs]; [done|exact Hs].
  - apply andb_prop in H as [H Hs]. apply andb_prop in H as [Hc Hb].
    rewrite Hc, Hb. simpl.
    destruct (IH _ Hs) as [->|Hs']; [|exact Hs'].
    simpl in Hs. done.
Qed.

Lemma runs_before_unit (b : bool) (s : jsstring) (c : N) :
  runsFrom b (s ++ [c]) = true -> c <> 0x2D%N -> slugFrom (negb b) (s ++ [c]) = true.
Proof.
  intros H Hc. revert b H. induction s as [|x s IH]; intros b; simpl.
  - destruct (isSlugUnit c); [done|]. intros H.
    apply andb_prop in H as [H _]. apply andb_prop in H as [H _].
    by apply N.eqb_eq in H.
  - destruct (isSlugUnit x).
    + intros H. exact (IH _ H).
    + intros H. apply andb_prop in H as [H Hs]. apply andb_prop in H as [Hx Hb].
      rewrite Hx, Hb. simpl. exact (IH _ Hs).
Qed.

Lemma stripEdgeHyphens_slug (s : jsstring) :
  runsFrom false s = true ->
  stripEdgeHyphens s = [] \/ isSlug (stripEdgeHyphens s) = true.
Proof.
  intros H. rewrite stripEdgeHyphens_eq. cbv zeta.
  set (s1 := match s with
             | c :: s' => if (c =? 0x2D)%N then s' else s
             | [] => s
             end).
  assert (H1 : runsFrom true s1 = true \/
               exists c s', s1 = c :: s' /\ isSlugUnit c = true /\ runsFrom false s1 = true).
  { subst s1. destruct s as [|c s']; [by left|].
    destruct (N.eqb_spec c 0x2D) as [->|Hne].
    - left. exact H.
    - right. exists c, s'. split; [done|]. split; [|exact H].
      simpl in H. destruct (isSlugUnit c); [done|].
      apply andb_prop in H as [H _]. apply andb_prop in H as [H _].
      by apply N.eqb_eq in H. }
  assert (H1' : runsFrom true s1 = true).
  { destruct H1 as [?|(c & s' & -> & Hc & Hr)]; [done|].
    simpl in *. by rewrite Hc in *. }
  clear H1 H. unfold isSlug.
  destruct (rev s1) as [|c r] eqn:Hrev.
  - left. apply (f_equal (@rev N)) in Hrev. by rewrite rev_involutive in Hrev.
  - assert (Hs1 : s1 = rev r ++ [c]).
    { apply (f_equal (@rev N)) in Hrev. by rewrite rev_involutive in Hrev. }
    destruct (N.eqb_spec c 0x2D) as [->|Hne].
    + rewrite Hs1 in H1'. exact (runs_before_hyphen true (rev r) H1').
    + right. rewrite Hs1 in H1' |- *. exact (runs_before_unit true (rev r) c H1' Hne).
Qed.

Lemma slugUnit_lower (c : N) : isSlugUnit c = true \/ c = 0x2D%N -> lowerUnit c = c.
Proof.
  unfold isSlugUnit, lowerUnit. intros [H| ->]; [|done].
  destruct (N.leb_spec 0x41 c); destruct (N.leb_spec c 0x5A);
    destruct (N.leb_spec 0xC0 c); destruct (N.leb_spec c 0xDE);
    destruct (N.leb_spec 0x61 c); destruct (N.leb_spec c 0x7A);
    destruct (N.leb_spec 0x30 c); destruct (N.leb_spec c 0x39);
    simpl in *; try done; lia.
Qed.

Lemma slugUnit_not_space (c : N) :
  isSlugUnit c = true \/ c = 0x2D%N -> isWhiteSpace c = false.
Proof.
  intros H.
  assert (Hc : (0x2D <= c <= 0x7A)%N).
  { destruct H as [H| ->]; [|lia]. unfold isSlugUnit in H.
    destruct (N.leb_spec 0x61 c); destruct (N.leb_spec c 0x7A);
      destruct (N.leb_spec 0x30 c); destruct (N.leb_spec c 0x39);
      simpl in *; try done; lia. }
  unfold isWhiteSpace. simpl.
  repeat match goal with
         | |- context [(c =? ?k)%N] => destruct (N.eqb_spec c k); [lia|]
         end.
  done.
Qed.

Lemma slugFrom_units (b : bool) (s : jsstring) :
  slugFrom b s = true -> Forall (fun c => isSlugUnit c = true \/ c = 0x2D%N) s.
Proof.
  revert b. induction s as [|c s IH]; intros b; simpl; [constructor|].
  destruct (isSlugUnit c) eqn:Hc.
  - intros H. constructor; [by left|by eapply IH].
  - intros H. apply andb_prop in H as [H Hs]. apply andb_prop in H as [Hx _].
    constructor; [right; by apply N.eqb_eq|by eapply IH].
Qed.

Lemma slugFrom_last (b : bool) (s : jsstring) (c : N) :
  slugFrom b (s ++ [c]) = true -> isSlugUnit c = true.
Proof.
  revert b. induction s as [|x s IH]; intros b; simpl.
  - destruct (isSlugUnit c); [done|]. rewrite andb_false_r. done.
  - destruct (isSlugUnit x); [apply IH|].
    intros H. apply andb_prop in H as [_ Hs]. by eapply IH.
Qed.

Lemma slug_hyphenateRuns (b inRun : bool) (s : jsstring) :
  slugFrom b s = true -> (b = true -> inRun = false) -> hyphenateRuns inRun s = s.
Proof.
  revert b inRun. induction s as [|c s IH]; intros b inRun; simpl; [done|].
  destruct (isSlugUnit c).
  - intros H _. f_equal. by apply (IH true).
  - intros H Hb. apply andb_prop in H as [H Hs]. apply andb_prop in H as [Hc Hb'].
    apply N.eqb_eq in Hc. subst c. rewrite (Hb Hb'). f_equal.
    by apply (IH false).
Qed.

Lemma isSlugUnit_hyphen (c : N) : isSlugUnit c = true -> (c =? 0x2D)%N = false.
Proof.
  intros H. destruct (N.eqb_spec c 0x2D) as [->|]; [|done]. done.
Qed.

Lemma slug_fixed (fresh s : jsstring) :
  toLowerCase s = s -> isSlug s = true -> normalizeRoomId fresh s = s.
Proof.
  intros Hlower Hs. unfold isSlug in Hs.
  pose proof (slugFrom_units _ _ Hs) as Hunits.
  assert (Htrim : trim s = s).
  { unfold trim. rewrite (trimStart_fixed s).
    - apply trimEnd_fixed. intros c s' ->. apply slugUnit_not_space.
      left. by eapply slugFrom_last.
    - intros c s' ->. apply slugUnit_not_space.
      by inversion Hunits. }
  assert (Hstrip : stripEdgeHyphens s = s).
  { rewrite stripEdgeHyphens_eq. cbv zeta.
    destruct s as [|c s']; [done|].
    assert (Hc : isSlugUnit c = true).
    { simpl in Hs. destruct (isSlugUnit c); [done|]. by rewrite andb_false_r in Hs. }
    rewrite (isSlugUnit_hyphen c Hc).
    destruct (rev (c :: s')) as [|d r] eqn:Hrev; [done|].
    assert (Hd : isSlugUnit d = true).
    { apply (f_equal (@rev N)) in Hrev. rewrite rev_involutive in Hrev.
      simpl in Hrev. rewrite Hrev in Hs. by eapply slugFrom_last. }
    by rewrite (isSlugUnit_hyphen d Hd). }
  unfold normalizeRoomId. cbv zeta.
  rewrite Hlower, Htrim, (slug_hyphenateRuns false false s Hs) by done.
  rewrite Hstrip. by destruct s.
Qed.

Lemma stripEdgeHyphens_empty (s : jsstring) :
  stripEdgeHyphens s = [] -> Forall (fun c => c = 0x2D%N) s.
Proof.
  rewrite stripEdgeHyphens_eq. cbv zeta.
  set (s1 := match s with
             | c :: s' => if (c =? 0x2D)%N then s' else s
             | [] => s
             end).
  intros H.
  assert (H1 : Forall (fun c => c = 0x2D%N) s1).
  { destruct (rev s1) as [|c r] eqn:Hrev.
    - by rewrite H.
    - apply (f_equal (@rev N)) in Hrev. rewrite rev_involutive in Hrev.
      destruct (N.eqb_spec c 0x2D) as [->|Hne].
      + apply (f_equal (@rev N)) in H. rewrite rev_involutive in H.
        rewrite H in Hrev. rewrite Hrev. simpl. by repeat constructor.
      + by rewrite H. }
  subst s1. destruct s as [|c s']; [done|].
  destruct (N.eqb_spec c 0x2D) as [->|Hne]; [by constructor|done].
Qed.

Lemma hyphenateRuns_units (inRun : bool) (s : jsstring) :
  Forall (fun c => c = 0x2D%N) (hyphenateRuns inRun s) ->
  Forall (fun c => isSlugUnit c = false) s.
Proof.
  revert inRun. induction s as [|c s IH]; intros inRun; simpl; [constructor|].
  destruct (isSlugUnit c) eqn:Hc.
  - intros H. inversion H as [|? ? Hx _]. by rewrite Hx in Hc.
  - destruct inRun; intros H.
    + constructor; [done|by eapply IH].
    + inversion H. constructor; [done|by eapply IH].
Qed.

Lemma blank_no_units (s : jsstring) :
  blank s -> Forall (fun c => isSlugUnit c = false) s.
Proof.
  intros H. eapply Forall_impl; [exact H|]. intros c Hc. simpl in Hc.
  destruct (isSlugUnit c) eqn:Hu; [|done].
  by rewrite (slugUnit_not_space c (or_introl Hu)) in Hc.
Qed.

Lemma trim_units (s : jsstring) :
  Forall (fun c => isSlugUnit c = false) (trim s) ->
  Forall (fun c => isSlugUnit c = false) s.
Proof.
  intros H. destruct (trimStart_split s) as (ws1 & Hs1 & Hw1).
  destruct (trimEnd_split (trimStart s)) as (ws2 & Hs2 & Hw2).
  rewrite Hs1, Hs2. fold (trim s).
  apply Forall_app. split; [by apply blank_no_units|].
  apply Forall_app. split; [done|by apply blank_no_units].
Qed.

(** X18.  Whatever the engine's lower-casing, the id [normalizeRoomId] makes
    of a name is a slug, runs of [a-z0-9] separated by single hyphens,
    unless the lower-cased name holds no unit of [a-z0-9], and only then is
    the id drawn; and when the lower-casing leaves slugs as they are, as
    that of Unicode does, a slug is its own id. *)
Theorem normalized_room_ids_are_slugs (fresh value : jsstring) :
  (isSlug (normalizeRoomId fresh value) = true /\
   ((forall s, isSlug s = true -> toLowerCase s = s) ->
    forall fresh', normalizeRoomId fresh' (normalizeRoomId fresh value)
                   = normalizeRoomId fresh value)) \/
  (normalizeRoomId fresh value = js "room-" ++ fresh /\
   Forall (fun c => isSlugUnit c = false) (toLowerCase value)).
Proof.
  set (slug := stripEdgeHyphens (hyphenateRuns false (trim (toLowerCase value)))).
  assert (Hslug : slug = [] \/ isSlug slug = true)
    by apply stripEdgeHyphens_slug, hyphenateRuns_runs.
  destruct Hslug as [Hnil|Hslug].
  - right. split.
    + unfold normalizeRoomId. cbv zeta. fold slug. by rewrite Hnil.
    + apply trim_units. eapply hyphenateRuns_units.
      apply stripEdgeHyphens_empty. exact Hnil.
  - left. assert (Hid : normalizeRoomId fresh value = slug).
    { unfold normalizeRoomId. cbv zeta. fold slug. by destruct slug. }
    rewrite Hid. split; [exact Hslug|]. intros Hfix fresh'.
    apply slug_fixed; [by apply Hfix|exact Hslug].
Qed.

(** ** Private traffic *)

Lemma participantSockets_bound (st : Server) (thread : Thread) (s : jsstring) :
  s ∈ participantSockets st thread ->
  boundTo st (thread_participants thread) (ToRoom s).
Proof.
  unfold participantSockets. intros Hs.
  apply list_elem_of_omap in Hs as (name & Hname & Hbound).
  exists name, s. split; [done|]. split; [|done].
  destruct (usernameToSocketId st !! name) as [s'|]; [|done].
  simpl in Hbound. destruct (truthy s'); by inversion Hbound.
Qed.

Lemma thread_notices_bound {N : Type} (st : Server) (thread : Thread)
    (f : jsstring -> N) (target : Target) (n : N) :
  (target, n) ∈ List.map (fun s => (ToRoom s, f s)) (participantSockets st thread) ->
  boundTo st (thread_participants thread) target.
Proof.
  intros H. apply list_elem_of_fmap in H as (s & [= -> _] & Hs).
  by apply participantSockets_bound.
Qed.

Section Privacy.
Variable localeCompare : jsstring -> jsstring -> Z.

Lemma private_message_targets createdAt stamp st socketId to message tempId target payload :
  (target, payload)
    ∈ (private_message localeCompare createdAt stamp st socketId to message tempId).1.2 ->
  target = ToSocket socketId \/
  exists name, to = Some name /\ boundTo st [name] target.
Proof.
  unfold private_message.
  destruct (users st !! socketId) as [user|]; [|by intros ?%elem_of_nil].
  destruct (orNull to) as [name|] eqn:Hto; [|by intros ?%elem_of_nil].
  assert (to = Some name) as ->.
  { destruct to as [t|]; [|done]. simpl in Hto. destruct (truthy t); by inversion Hto. }
  destruct (negb _); [by intros ?%elem_of_nil|].
  destruct (usernameToSocketId st !! name) as [rsid|] eqn:Hrs; [|by intros ?%elem_of_nil].
  destruct (match orNull (Some rsid) with Some _ => _ | None => _ end);
    [|by intros ?%elem_of_nil].
  destruct (ensurePrivateThread _ _ _ _ _). simpl. intros H.
  assert (Hbound : boundTo st [name] (ToRoom rsid)).
  { exists name, rsid. split; [by apply list_elem_of_singleton|done]. }
  apply elem_of_cons in H as [[= -> _]|H]; [by left|].
  apply elem_of_cons in H as [[= -> _]|H]; [right; by exists name|].
  apply list_elem_of_singleton in H as [= -> _]. right. by exists name.
Qed.

(** X19.  How private traffic is addressed.  Whatever [private_message],
    [private_message_read], [react_to_private_message] and [private_typing]
    emit is sent either to the connection served ([socket.emit], the
    sender's copy of a private message) or with [io.to(<socket id>)], to
    the socket.io room named by the socket id that the recipient's name, or
    the name of a participant of the thread, is bound to; never to
    everyone, and to no room named otherwise.  (Such a room is not a single
    socket: [join_room] lets a connection into a room of any name.) *)
Theorem private_events_are_addressed_by_socket_id (st : Server) (socketId : jsstring) :
  (forall createdAt stamp to message tempId target payload,
     (target, payload)
       ∈ (private_message localeCompare createdAt stamp st socketId to message tempId).1.2 ->
     target = ToSocket socketId \/
     exists name, to = Some name /\ boundTo st [name] target) /\
  (forall threadId messageId target n,
     (target, n) ∈ (private_message_read st socketId threadId messageId).2 ->
     exists thread, privateThreads st !! threadId = Some thread /\
                    boundTo st (thread_participants thread) target) /\
  (forall threadId messageId emoji target n,
     (target, n) ∈ (react_to_private_message st socketId threadId messageId emoji).2 ->
     exists thread, privateThreads st !! threadId = Some thread /\
                    boundTo st (thread_participants thread) target) /\
  (forall to isTyping target n,
     (target, n) ∈ private_typing st socketId to isTyping ->
     boundTo st [to] target).
Proof.
  split; [intros; by eapply private_message_targets|].
  split; [|split].
  - intros threadId messageId target n. unfold private_message_read.
    destruct (users st !! socketId) as [user|]; [|by intros ?%elem_of_nil].
    destruct (privateThreads st !! threadId) as [thread|]; [|by intros ?%elem_of_nil].
    destruct (find_first _ _); [|by intros ?%elem_of_nil]. simpl.
    intros H. exists thread. split; [done|].
    eapply (thread_notices_bound st (set_thread_messages thread _)). exact H.
  - intros threadId messageId emoji target n. unfold react_to_private_message.
    destruct (users st !! socketId) as [user|]; [|by intros ?%elem_of_nil].
    destruct (privateThreads st !! threadId) as [thread|]; [|by intros ?%elem_of_nil].
    destruct (find_first _ _); [|by intros ?%elem_of_nil]. simpl.
    intros H. exists thread. split; [done|].
    eapply (thread_notices_bound st (set_thread_messages thread _)). exact H.
  - intros to isTyping target n. unfold private_typing.
    destruct (users st !! socketId) as [user|]; [|by intros ?%elem_of_nil].
    destruct (usernameToSocketId st !! to) as [s|] eqn:Hs; [|by intros ?%elem_of_nil].
    simpl. destruct (truthy s); [|by intros ?%elem_of_nil].
    intros H. apply list_elem_of_singleton in H as [= -> _].
    exists to, s. split; [by apply list_elem_of_singleton|done].
Qed.
End Privacy.

Lemma reachable_ok (localeCompare : jsstring -> jsstring -> Z) (boot : nat -> Stamp)
    (requests : list Request) :
  rooms_ok (serve localeCompare (initialServer boot) requests) /\
  threads_ok (serve localeCompare (initialServer boot) requests).
Proof.
  destruct (initialServer_ok boot) as [Hr Ht].
  pose proof (serve_evolves localeCompare requests (initialServer boot)) as Hev.
  split; [by eapply evolves_rooms_ok|by eapply evolves_threads_ok].
Qed.

(** ** Room ids are taken as given *)

Section AnyRoomId.
Variable localeCompare : jsstring -> jsstring -> Z.

Lemma reachable_membership_ok (boot : nat -> Stamp) (requests : list Request) :
  membership_ok (serve localeCompare (initialServer boot) requests).
Proof.
  apply serve_membership; [apply (initialServer_ok boot)|]. intros s u.
  destruct (initialServer_registry boot) as [-> _]. by rewrite lookup_empty.
Qed.

Lemma join_room_lists roomStamp messageStamp st socketId id roomName description user :
  keyed (rooms st) -> users st !! socketId = Some user -> id <> [] ->
  let result :=
    join_room roomStamp messageStamp st socketId (Some id) roomName description in
  (exists payload, result.2 = AckOk (id, payload)) /\
  exists user', users result.1.1 !! socketId = Some user' /\ id ∈ user_rooms user'.
Proof.
  intros Hk Hu Hid result. subst result. unfold join_room. rewrite Hu.
  assert (Ht : orNull (Some id) = Some id) by (unfold orNull; by destruct id).
  rewrite Ht. rewrite Ht.
  match goal with |- context [createRoom ?a ?b ?c ?d] =>
    pose proof (createRoom_id a b c d Hk) as Hrid;
    destruct (createRoom a b c d) as [st1 room]
  end.
  simpl in Hrid. rewrite (orElse_truthy id _ Hid) in Hrid.
  destruct (negb (JsSet.has (room_id room) (user_rooms user))) eqn:Hhas.
  - match goal with |- context [addSystemMessage ?a ?b ?c ?d] =>
      destruct (addSystemMessage a b c d) as [st2 emits]
    end.
    simpl. split; [rewrite Hrid; by eexists|].
    eexists. split; [apply lookup_insert_eq|]. simpl.
    apply JsSet_elem_of_add. left. by rewrite Hrid.
  - simpl. split; [rewrite Hrid; by eexists|].
    eexists. split; [apply lookup_insert_eq|]. simpl.
    apply negb_false_iff in Hhas. unfold JsSet.has in Hhas.
    apply bool_decide_eq_true in Hhas. by rewrite Hrid in Hhas.
Qed.

(** X22.  [join_room] takes the requested id as it is given.  In every state
    the requests lead to, a connected user who asks to join the room of any
    non-empty id, whether there is such a room or not and whatever the id
    looks like (the id of another connection's socket, say), is
    acknowledged with that id, lists the room, and is listed among the
    members of the room stored under that id. *)
Theorem any_room_id_can_be_joined (boot : nat -> Stamp) (requests : list Request)
    (roomStamp messageStamp : Stamp) (socketId id : jsstring)
    (roomName description : option jsstring) :
  let st := serve localeCompare (initialServer boot) requests in
  let result :=
    join_room roomStamp messageStamp st socketId (Some id) roomName description in
  is_Some (users st !! socketId) -> id <> [] ->
  (exists payload, result.2 = AckOk (id, payload)) /\
  exists user room,
    users result.1.1 !! socketId = Some user /\
    id ∈ user_rooms user /\
    JsMap.get id (rooms result.1.1) = Some room /\
    room_id room = id /\
    socketId ∈ room_members room.
Proof.
  intros st result [user Hu] Hid.
  destruct (reachable_ok localeCompare boot requests) as [Hr _]. fold st in Hr.
  destruct (join_room_lists roomStamp messageStamp st socketId id roomName description
              user (rooms_ok_keyed st Hr) Hu Hid) as [Hack (user' & Hu' & Hin)].
  fold result in Hack, Hu'. split; [exact Hack|].
  set (after := requests ++ [JoinRoom roomStamp messageStamp socketId (Some id)
                               roomName description]).
  assert (Hafter : serve localeCompare (initialServer boot) after = result.1.1).
  { unfold after, serve. by rewrite fold_left_app. }
  pose proof (reachable_membership_ok boot after) as Hm.
  destruct (reachable_ok localeCompare boot after) as [Hr' _].
  rewrite Hafter in Hm, Hr'.
  destruct (Hm _ _ Hu') as (_ & _ & Hrooms).
  destruct (Hrooms id Hin) as (room & Hg & Hmem).
  exists user', room. repeat split; try done. by destruct (Hr' _ _ Hg).
Qed.
End AnyRoomId.

(** ** Receipts only grow *)

Lemma log_later_refl (max : nat) (l : list Message) :
  length l <= max -> log_later max 0 l l.
Proof.
  intros Hl. exists l, []. split; [apply Forall2_grows_refl|]. split; [done|].
  rewrite app_nil_r. by rewrite lastn_all.
Qed.

Lemma log_later_mono (max n n' : nat) (l l' : list Message) :
  n <= n' -> log_later max n l l' -> log_later max n' l l'.
Proof. intros Hn (g & a & Hg & Ha & ->). exists g, a. repeat split; [done|lia]. Qed.

Lemma log_later_alter (max : nat) (p : Message -> bool) (g : Message -> Message)
    (l : list Message) :
  length l <= max -> (forall m, grows m (g m)) ->
  log_later max 0 l (alter_first p g l).
Proof.
  intros Hl Hg. exists (alter_first p g l), []. split; [by apply alter_first_grows|].
  split; [done|]. rewrite app_nil_r. by rewrite lastn_all by (by rewrite alter_first_length).
Qed.

Lemma log_later_push (max : nat) (l : list Message) (m : Message) :
  log_later max 1 l (trimMessages (l ++ [m]) max).
Proof.
  exists l, [m]. split; [apply Forall2_grows_refl|]. split; [done|].
  apply trimMessages_lastn.
Qed.

Lemma log_later_length (max n : nat) (l l' : list Message) :
  log_later max n l l' -> length l' <= max.
Proof. intros (g & a & _ & _ & ->). rewrite lastn_length. lia. Qed.

Lemma log_later_trans (max n1 n2 : nat) (l1 l2 l3 : list Message) :
  log_later max n1 l1 l2 -> log_later max n2 l2 l3 -> log_later max (n1 + n2) l1 l3.
Proof.
  intros (g1 & a1 & Hg1 & Ha1 & ->) (g2 & a2 & Hg2 & Ha2 & ->).
  set (X := g1 ++ a1) in *. set (k := length X - max).
  assert (HX : Forall2 grows X (take k X ++ g2)).
  { rewrite <- (take_drop k X) at 1. apply Forall2_app; [apply Forall2_grows_refl|].
    exact Hg2. }
  unfold X in HX at 1.
  apply Forall2_app_inv_l in HX as (G1 & G2 & HG1 & HG2 & HG).
  exists G1, (G2 ++ a2). split; [by eapply Forall2_grows_trans|]. split.
  - rewrite length_app, <- (Forall2_length _ _ _ HG2). lia.
  - rewrite app_assoc, <- HG, <- app_assoc.
    destruct (decide (k = 0)) as [Hk|Hk].
    + by rewrite Hk.
    + symmetry. apply lastn_app_long. rewrite length_app.
      rewrite <- (Forall2_length _ _ _ Hg2). unfold lastn. rewrite length_drop.
      fold k. lia.
Qed.

Lemma server_later_refl (st : Server) : server_later 0 st st.
Proof.
  split; intros k x Hx; exists x; (split; [done|]); intros Hl; by apply log_later_refl.
Qed.

Lemma server_later_mono (n n' : nat) (st st' : Server) :
  n <= n' -> server_later n st st' -> server_later n' st st'.
Proof.
  intros Hn [Hr Ht]. split.
  - intros k room Hg. destruct (Hr k room Hg) as (room' & Hg' & Hl).
    exists room'. split; [done|]. intros Hc. eapply log_later_mono; [exact Hn|auto].
  - intros k thread Hg. destruct (Ht k thread Hg) as (thread' & Hg' & Hl).
    exists thread'. split; [done|]. intros Hc. eapply log_later_mono; [exact Hn|auto].
Qed.

Lemma server_later_trans (n1 n2 n : nat) (st1 st2 st3 : Server) :
  server_later n1 st1 st2 -> server_later n2 st2 st3 -> n1 + n2 <= n ->
  server_later n st1 st3.
Proof.
  intros [R1 T1] [R2 T2] Hn. split.
  - intros k room Hg. destruct (R1 k room Hg) as (room2 & Hg2 & H12).
    destruct (R2 k room2 Hg2) as (room3 & Hg3 & H23).
    exists room3. split; [done|]. intros Hc. specialize (H12 Hc).
    eapply log_later_mono; [exact Hn|].
    eapply log_later_trans; [exact H12|]. apply H23.
    by eapply log_later_length.
  - intros k thread Hg. destruct (T1 k thread Hg) as (thread2 & Hg2 & H12).
    destruct (T2 k thread2 Hg2) as (thread3 & Hg3 & H23).
    exists thread3. split; [done|]. intros Hc. specialize (H12 Hc).
    eapply log_later_mono; [exact Hn|].
    eapply log_later_trans; [exact H12|]. apply H23.
    by eapply log_later_length.
Qed.

(** A state with the same rooms and threads. *)
Lemma server_later_same (st st' : Server) :
  rooms st' = rooms st -> privateThreads st' = privateThreads st ->
  server_later 0 st st'.
Proof. intros Hr Ht. unfold server_later. rewrite Hr, Ht. apply server_later_refl. Qed.

(** One room replaced by a later form of itself. *)
Lemma server_later_room (n : nat) (st st' : Server) (k : jsstring) (r r' : Room) :
  JsMap.get k (rooms st) = Some r ->
  (length (room_messages r) <= MAX_ROOM_MESSAGES ->
   log_later MAX_ROOM_MESSAGES n (room_messages r) (room_messages r')) ->
  rooms st' = JsMap.set k r' (rooms st) ->
  privateThreads st' = privateThreads st ->
  server_later n st st'.
Proof.
  intros Hget Hstep Hr Ht. unfold server_later. rewrite Hr, Ht. split.
  - intros k0 room Hg. rewrite JsMap_get_set. destruct (decide (k = k0)) as [<-|_].
    + exists r'. split; [done|]. rewrite Hget in Hg. by injection Hg as <-.
    + exists room. split; [done|]. intros Hc.
      eapply log_later_mono; [|by apply log_later_refl]. lia.
  - intros k0 thread Hg. exists thread. split; [done|]. intros Hc.
    eapply log_later_mono; [|by apply log_later_refl]. lia.
Qed.

(** A room under a new key. *)
Lemma server_later_new_room (st st' : Server) (k : jsstring) (r' : Room) :
  JsMap.get k (rooms st) = None ->
  rooms st' = JsMap.set k r' (rooms st) ->
  privateThreads st' = privateThreads st ->
  server_later 0 st st'.
Proof.
  intros Hget Hr Ht. unfold server_later. rewrite Hr, Ht. split.
  - intros k0 room Hg. rewrite JsMap_get_set. destruct (decide (k = k0)) as [<-|_].
    + congruence.
    + exists room. split; [done|]. intros Hc. by apply log_later_refl.
  - intros k0 thread Hg. exists thread. split; [done|]. intros Hc.
    by apply log_later_refl.
Qed.

(** One thread replaced by a later form of itself, or put under a new key. *)
Lemma server_later_thread (n : nat) (st st' : Server) (k : jsstring) (t' : Thread) :
  (forall t, privateThreads st !! k = Some t ->
     length (thread_messages t) <= MAX_PRIVATE_MESSAGES ->
     log_later MAX_PRIVATE_MESSAGES n (thread_messages t) (thread_messages t')) ->
  privateThreads st' = <[k := t']> (privateThreads st) ->
  rooms st' = rooms st ->
  server_later n st st'.
Proof.
  intros Hstep Ht Hr. unfold server_later. rewrite Hr, Ht. split.
  - intros k0 room Hg. exists room. split; [done|]. intros Hc.
    eapply log_later_mono; [|by apply log_later_refl]. lia.
  - intros k0 thread Hg. destruct (decide (k = k0)) as [<-|Hne].
    + rewrite lookup_insert_eq. exists t'. split; [done|]. by apply Hstep.
    + rewrite lookup_insert_ne by done. exists thread. split; [done|]. intros Hc.
      eapply log_later_mono; [|by apply log_later_refl]. lia.
Qed.

Lemma room_later_push (r : Room) (m : Message) :
  length (room_messages r) <= MAX_ROOM_MESSAGES ->
  log_later MAX_ROOM_MESSAGES 1 (room_messages r) (room_messages (addMessageToRoom r m)).
Proof. intros _. apply log_later_push. Qed.

Lemma addSystemMessage_later stamp st roomId text :
  server_later 1 st (addSystemMessage stamp st roomId text).1.
Proof.
  unfold addSystemMessage.
  destruct (JsMap.get roomId (rooms st)) as [room|] eqn:Hr; simpl.
  - eapply server_later_room; [exact Hr|apply room_later_push|done|done].
  - eapply server_later_mono; [|apply server_later_refl]. lia.
Qed.

Lemma createRoom_later stamp st name options :
  server_later 0 st (createRoom stamp st name options).1.
Proof.
  unfold createRoom. set (key := orElse _ _).
  destruct (JsMap.get key (rooms st)) as [room|] eqn:Hr; simpl.
  - apply server_later_refl.
  - by eapply server_later_new_room.
Qed.

(** The members or the typing set of a room replaced. *)
Lemma server_later_sets (st st' : Server) (k : jsstring) (r r' : Room) :
  JsMap.get k (rooms st) = Some r ->
  rooms st' = JsMap.set k r' (rooms st) ->
  privateThreads st' = privateThreads st ->
  room_messages r' = room_messages r ->
  server_later 0 st st'.
Proof.
  intros Hg Hr Ht Hm. eapply server_later_room; [exact Hg| |exact Hr|exact Ht].
  rewrite Hm. apply log_later_refl.
Qed.

Ltac nothing_appended := eapply server_later_mono; [|apply server_later_refl]; lia.

Ltac with_later_message H :=
  match goal with |- context [addSystemMessage ?a ?b ?c ?d] =>
    pose proof (addSystemMessage_later a b c d) as H;
    destruct (addSystemMessage a b c d) as [? ?]
  end.

Lemma user_join_later draws st socketId payload :
  server_later 1 st (user_join draws st socketId payload).1.1.
Proof.
  unfold user_join.
  destruct (negb (truthy _)); [nothing_appended|].
  case_bool_decide; [nothing_appended|].
  match goal with |- context [match JsMap.get ?k ?m with Some room => (?s1, room) | None => ?cr end] =>
    destruct (JsMap.get k m) as [room|] eqn:Hg
  end.
  - with_later_message Hev. simpl in *.
    eapply (server_later_trans 0 1); [|exact Hev|lia].
    eapply server_later_sets; [exact Hg|done|done|done].
  - match goal with |- context [createRoom ?a ?b ?c ?d] =>
      pose proof (createRoom_later a b c d) as Hc;
      pose proof (createRoom_stored a b c d) as Hs;
      destruct (createRoom a b c d) as [st2 defaultRoom]
    end.
    with_later_message Hev. simpl in *.
    eapply (server_later_trans 0 1); [|exact Hev|lia].
    eapply (server_later_trans 0 0); [eapply (server_later_trans 0 0); [|exact Hc|lia]| |lia].
    + by apply server_later_same.
    + eapply server_later_sets; [exact Hs|done|done|done].
Qed.

Lemma leave_room_later stamp st socketId roomId :
  server_later 1 st (leave_room stamp st socketId roomId).1.1.
Proof.
  unfold leave_room.
  destruct (users st !! socketId) as [user|]; [|nothing_appended].
  destruct (JsMap.get roomId (rooms st)) as [room|] eqn:Hr; [|nothing_appended].
  with_later_message Hev. simpl in *.
  match type of Hev with server_later 1 _ ?s2 =>
    assert (H1 : server_later 1 st s2)
  end.
  { eapply (server_later_trans 0 1); [|exact Hev|lia].
    eapply server_later_sets; [exact Hr|done|done|done]. }
  case_bool_decide; simpl; [|done].
  eapply (server_later_trans 1 0); [exact H1|by apply server_later_same|lia].
Qed.

Lemma send_message_later stamp st socketId roomId message attachments tempId :
  server_later 1 st (send_message stamp st socketId roomId message attachments tempId).1.1.
Proof.
  unfold send_message.
  destruct (users st !! socketId) as [user|]; [|nothing_appended].
  destruct (orNull roomId) as [rid|]; [|nothing_appended].
  destruct (negb (truthy _)); [nothing_appended|].
  destruct (JsMap.get rid (rooms st)) as [room|] eqn:Hr; [|nothing_appended].
  simpl. eapply server_later_room; [exact Hr|apply room_later_push|done|done].
Qed.

Lemma room_message_event_later st roomId room messageId (g : Message -> Message) message :
  JsMap.get roomId (rooms st) = Some room ->
  find_first (hasId messageId) (room_messages room) = Some message ->
  (forall m, grows m (g m)) ->
  server_later 1 st
    (set_rooms st
       (JsMap.set roomId
          (set_room_messages room
             (alter_first (hasId messageId) (fun _ => g message) (room_messages room)))
          (rooms st))).
Proof.
  intros Hr Hf Hg.
  eapply server_later_room; [exact Hr| |done|done].
  rewrite (alter_first_found _ g _ _ Hf). simpl. intros Hc.
  eapply log_later_mono; [|by apply log_later_alter]. lia.
Qed.

Lemma message_delivered_later st socketId messageId roomId :
  server_later 1 st (message_delivered st socketId messageId roomId).1.
Proof.
  unfold message_delivered.
  destruct (users st !! socketId) as [user|]; [|nothing_appended].
  destruct (JsMap.get roomId (rooms st)) as [room|] eqn:Hr; [|nothing_appended].
  destruct (find_first _ _) as [message|] eqn:Hf; [|nothing_appended].
  simpl.
  apply (room_message_event_later st roomId room messageId
           (fun m => registerDelivered m (user_username user)) message Hr Hf).
  intros m. apply registerDelivered_grows.
Qed.

Lemma message_read_later st socketId messageId roomId :
  server_later 1 st (message_read st socketId messageId roomId).1.
Proof.
  unfold message_read.
  destruct (users st !! socketId) as [user|]; [|nothing_appended].
  destruct (JsMap.get roomId (rooms st)) as [room|] eqn:Hr; [|nothing_appended].
  destruct (find_first _ _) as [message|] eqn:Hf; [|nothing_appended].
  simpl.
  apply (room_message_event_later st roomId room messageId
           (fun m => registerRead m (user_username user)) message Hr Hf).
  intros m. apply registerRead_grows.
Qed.

Lemma react_to_message_later st socketId roomId messageId emoji :
  server_later 1 st (react_to_message st socketId roomId messageId emoji).1.
Proof.
  unfold react_to_message.
  destruct (users st !! socketId) as [user|]; [|nothing_appended].
  destruct (JsMap.get roomId (rooms st)) as [room|] eqn:Hr; [|nothing_appended].
  destruct (find_first _ _) as [message|] eqn:Hf; [|nothing_appended].
  simpl.
  apply (room_message_event_later st roomId room messageId
           (fun m => toggleReaction m emoji (user_username user)) message Hr Hf).
  intros m. apply toggleReaction_grows.
Qed.

Lemma thread_message_event_later st threadId thread messageId (g : Message -> Message)
    message :
  privateThreads st !! threadId = Some thread ->
  find_first (hasId messageId) (thread_messages thread) = Some message ->
  (forall m, grows m (g m)) ->
  server_later 1 st
    (set_threads st
       (<[threadId :=
            set_thread_messages thread
              (alter_first (hasId messageId) (fun _ => g message)
                 (thread_messages thread))]> (privateThreads st))).
Proof.
  intros Ht Hf Hg.
  eapply server_later_thread; [|done|done].
  intros t Ht'. rewrite Ht in Ht'. injection Ht' as <-.
  rewrite (alter_first_found _ g _ _ Hf). simpl. intros Hc.
  eapply log_later_mono; [|by apply log_later_alter]. lia.
Qed.

Lemma private_message_read_later st socketId threadId messageId :
  server_later 1 st (private_message_read st socketId threadId messageId).1.
Proof.
  unfold private_message_read.
  destruct (users st !! socketId) as [user|]; [|nothing_appended].
  destruct (privateThreads st !! threadId) as [thread|] eqn:Ht; [|nothing_appended].
  destruct (find_first _ _) as [message|] eqn:Hf; [|nothing_appended].
  simpl.
  apply (thread_message_event_later st threadId thread messageId
           (fun m => registerRead m (user_username user)) message Ht Hf).
  intros m. apply registerRead_grows.
Qed.

Lemma react_to_private_message_later st socketId threadId messageId emoji :
  server_later 1 st (react_to_private_message st socketId threadId messageId emoji).1.
Proof.
  unfold react_to_private_message.
  destruct (users st !! socketId) as [user|]; [|nothing_appended].
  destruct (privateThreads st !! threadId) as [thread|] eqn:Ht; [|nothing_appended].
  destruct (find_first _ _) as [message|] eqn:Hf; [|nothing_appended].
  simpl.
  apply (thread_message_event_later st threadId thread messageId
           (fun m => toggleReaction m emoji (user_username user)) message Ht Hf).
  intros m. apply toggleReaction_grows.
Qed.

Lemma set_active_room_later lastSeen st socketId roomId :
  server_later 1 st (set_active_room lastSeen st socketId roomId).
Proof.
  unfold set_active_room.
  destruct (users st !! socketId) as [user|]; [|nothing_appended].
  destruct (JsMap.get roomId (rooms st)); [|nothing_appended].
  eapply server_later_mono; [|by apply server_later_same]. lia.
Qed.

Lemma join_room_later roomStamp messageStamp st socketId requestedRoom roomName description :
  server_later 1 st
    (join_room roomStamp messageStamp st socketId requestedRoom roomName description).1.1.
Proof.
  unfold join_room.
  destruct (users st !! socketId) as [user|]; [|nothing_appended].
  destruct (orNull _) as [targetName|]; [|nothing_appended].
  match goal with |- context [createRoom ?a ?b ?c ?d] =>
    pose proof (createRoom_later a b c d) as Hc;
    pose proof (createRoom_stored a b c d) as Hs;
    destruct (createRoom a b c d) as [st1 room]
  end.
  simpl in Hc, Hs.
  destruct (negb (JsSet.has (room_id room) (user_rooms user))).
  - with_later_message Hev. simpl in *.
    eapply (server_later_trans 0 1); [exact Hc| |lia].
    eapply (server_later_trans 0 1);
      [|eapply (server_later_trans 1 0); [exact Hev| |lia]|lia].
    + eapply server_later_sets; [exact Hs|done|done|done].
    + by apply server_later_same.
  - simpl. eapply (server_later_trans 0 0); [exact Hc|by apply server_later_same|lia].
Qed.

Lemma disconnect_rooms_threads stamps socketId username roomIds : forall i acc,
  privateThreads (disconnect_rooms stamps i socketId username acc roomIds).1
  = privateThreads acc.1.
Proof.
  induction roomIds as [|r0 rest IH]; intros i acc; simpl; [done|].
  rewrite IH. unfold disconnect_room. destruct acc as [s e]. simpl.
  destruct (JsMap.get r0 (rooms s)); [|done].
  unfold addSystemMessage. simpl. by destruct (JsMap.get _ _).
Qed.

Lemma disconnect_later stamps leftAt st socketId :
  keyed (rooms st) ->
  (forall s u, users st !! s = Some u -> NoDup (user_rooms u)) ->
  server_later 1 st (disconnect stamps leftAt st socketId).1.
Proof.
  intros Hk Hnd. unfold disconnect.
  destruct (users st !! socketId) as [user|] eqn:Hu; [|nothing_appended].
  destruct (disconnect_rooms_get stamps socketId (user_username user) (user_rooms user)
              0 (st, []) (Hnd _ _ Hu) Hk) as [Hout Hin].
  pose proof (disconnect_rooms_threads stamps socketId (user_username user)
                (user_rooms user) 0 (st, [])) as Ht.
  destruct (disconnect_rooms _ _ _ _ _ _) as [st1 emits]. simpl in *.
  split; simpl.
  - intros k room Hg. destruct (decide (k ∈ user_rooms user)) as [Hin'|Hnotin].
    + apply list_elem_of_lookup in Hin' as [j Hj].
      rewrite (Hin j k Hj), Hg. simpl. eexists. split; [done|].
      intros _. apply log_later_push.
    + rewrite (Hout k Hnotin), Hg. exists room. split; [done|]. intros Hc.
      eapply log_later_mono; [|by apply log_later_refl]. lia.
  - intros k thread Hg. rewrite Ht. exists thread. split; [done|]. intros Hc.
    eapply log_later_mono; [|by apply log_later_refl]. lia.
Qed.

Section ServeLater.
Variable localeCompare : jsstring -> jsstring -> Z.

Lemma private_message_later createdAt stamp st socketId to message tempId :
  server_later 1 st
    (private_message localeCompare createdAt stamp st socketId to message tempId).1.1.
Proof.
  unfold private_message.
  destruct (users st !! socketId) as [user|]; [|nothing_appended].
  destruct (orNull to) as [toName|]; [|nothing_appended].
  destruct (negb (truthy _)); [nothing_appended|].
  destruct (usernameToSocketId st !! toName) as [sid|]; [|nothing_appended].
  simpl. destruct (truthy sid); [|nothing_appended].
  destruct (users st !! sid) as [recipient|]; [|nothing_appended].
  unfold ensurePrivateThread.
  set (key := makeThreadKey localeCompare (user_username user) (user_username recipient)).
  destruct (privateThreads st !! key) as [thread|] eqn:Ht; simpl.
  - rewrite trimMessages_alter_last by (unfold MAX_PRIVATE_MESSAGES; lia).
    eapply server_later_thread; [|done|done].
    intros t Ht'. rewrite Ht in Ht'. injection Ht' as <-. intros _. simpl.
    apply log_later_push.
  - rewrite insert_insert_eq.
    eapply server_later_thread; [|done|done].
    intros t Ht'. congruence.
Qed.

Lemma handle_later (st : Server) (request : Request) :
  keyed (rooms st) ->
  (forall s u, users st !! s = Some u -> NoDup (user_rooms u)) ->
  server_later 1 st (handle localeCompare st request).
Proof.
  intros Hk Hnd. destruct request; simpl.
  - apply user_join_later.
  - by apply disconnect_later.
  - apply join_room_later.
  - apply leave_room_later.
  - apply send_message_later.
  - apply message_delivered_later.
  - apply message_read_later.
  - apply react_to_message_later.
  - apply private_message_later.
  - apply private_message_read_later.
  - apply react_to_private_message_later.
  - apply set_active_room_later.
Qed.

Lemma serve_later (requests : list Request) : forall st,
  rooms_ok st -> membership_ok st ->
  server_later (length requests) st (serve localeCompare st requests).
Proof.
  induction requests as [|request requests IH]; intros st Hr Hm; simpl.
  - apply server_later_refl.
  - eapply (server_later_trans 1 (length requests)); [| |lia].
    + apply handle_later; [by apply rooms_ok_keyed|].
      intros s u Hu. by destruct (Hm _ _ Hu) as (_ & ? & _).
    + apply IH.
      * eapply evolves_rooms_ok; [exact Hr|apply handle_evolves].
      * by apply handle_membership.
Qed.

(** X6.  Receipts only grow, and a message leaves a log only at its front to
    make room.  From any state the requests lead to, after [n] further
    requests the log of a room or of a thread is the last 250 of: the old
    log, each message the same but for its reactions and with at least the
    receipts it had, followed by at most [n] messages appended since.  So
    with no further request the log is the old one, a log that stays below
    its capacity has lost nothing, and a full one has lost at most [n] of
    its oldest messages. *)
Theorem receipts_only_grow (boot : nat -> Stamp) (before after : list Request) :
  let st := serve localeCompare (initialServer boot) before in
  let st' := serve localeCompare st after in
  (forall k room,
     JsMap.get k (rooms st) = Some room ->
     exists room' grown appended,
       JsMap.get k (rooms st') = Some room' /\
       Forall2 grows (room_messages room) grown /\
       length appended <= length after /\
       room_messages room' = lastn 250 (grown ++ appended))
  /\ (forall k thread,
        privateThreads st !! k = Some thread ->
        exists thread' grown appended,
          privateThreads st' !! k = Some thread' /\
          thread_participants thread' = thread_participants thread /\
          Forall2 grows (thread_messages thread) grown /\
          length appended <= length after /\
          thread_messages thread' = lastn 250 (grown ++ appended)).
Proof.
  intros st st'.
  destruct (reachable_ok localeCompare boot before) as [Hr Ht]. fold st in Hr, Ht.
  pose proof (reachable_membership_ok localeCompare boot before) as Hm. fold st in Hm.
  destruct (serve_later after st Hr Hm) as [Lr Lt]. fold st' in Lr, Lt.
  destruct (serve_evolves localeCompare after st) as [_ Et]. fold st' in Et.
  split.
  - intros k room Hg. destruct (Lr k room Hg) as (room' & Hg' & Hl).
    destruct (Hr k room Hg) as (_ & Hc & _).
    destruct (Hl Hc) as (grown & appended & H1 & H2 & H3).
    by exists room', grown, appended.
  - intros k thread Hg. destruct (Lt k thread Hg) as (thread' & Hg' & Hl).
    destruct (Ht k thread Hg) as (_ & _ & Hc & _).
    destruct (Hl Hc) as (grown & appended & H1 & H2 & H3).
    exists thread', grown, appended. split; [done|]. split; [|done].
    specialize (Et k). rewrite Hg, Hg' in Et. simpl in Et. by destruct Et as (_ & ? & _).
Qed.
End ServeLater.

End Further.

(** ** Instances of the properties *)

(** The lower-casing of the examples leaves slugs as they are. *)
Lemma latin1_fixes_slugs (s : jsstring) :
  isSlug s = true -> toLowerCase (Host := latin1) s = s.
Proof.
  intros Hs. unfold isSlug in Hs. simpl.
  rewrite <- (List.map_id s) at 2.
  apply map_ext_Forall. eapply Forall_impl; [exact (slugFrom_units _ _ Hs)|].
  intros c Hc. by apply slugUnit_lower.
Qed.

Example normalizeRoomId_sample :
  normalizeRoomId (host := latin1) (js "0000") (js "  Hello, World! ") = js "hello-world" /\
  normalizeRoomId (host := latin1) (js "0000") (js " !!! ") = js "room-0000".
Proof. split; vm_compute; reflexivity. Qed.

Lemma compareUnits_antisymmetric (x y : jsstring) :
  (0 < compareUnits x y)%Z <-> (compareUnits y x < 0)%Z.
Proof.
  revert y. induction x as [|a x IH]; intros [|b y]; simpl; try lia.
  destruct (N.ltb_spec a b); destruct (N.ltb_spec b a); try lia. apply IH.
Qed.

Lemma canonCompare_antisymmetric (x y : jsstring) :
  (0 < canonCompare x y)%Z <-> (canonCompare y x < 0)%Z.
Proof. apply compareUnits_antisymmetric. Qed.

(** The lobby of [historyServer] outlives a message, a leave and a
    disconnect. *)
Lemma rooms_are_never_destroyed_witness :
  exists room',
    JsMap.get (js "general") (rooms (serve (host := latin1) canonCompare historyServer sampleRequests))
    = Some room' /\
    room_id room' = js "general" /\
    room_name room' = js "General" /\
    room_description room' = [] /\
    room_createdAt room' = js "2025-01-01T00:00:00.000Z" /\
    room_createdBy room' = js "system".
Proof.
  apply (rooms_are_never_destroyed (host := latin1) canonCompare historyServer sampleRequests
           (js "general") sampleLobby).
  reflexivity.
Defined.

Lemma adaOnline_ok : rooms_ok adaOnline /\ threads_ok adaOnline.
Proof.
  exact (reachable_ok (host := latin1) canonCompare (fun _ => stamp0)
           [UserJoin draws0 (js "s1") (PayloadString (js "Ada"))]).
Qed.

(** Ada reacts twice to the notice of her arrival. *)
Lemma reacting_twice_restores_the_state_witness :
  (react_to_message
     (react_to_message adaOnline (js "s1") (js "general") (js "id-1") (js "+1")).1
     (js "s1") (js "general") (js "id-1") (js "+1")).1 = adaOnline
  /\ (react_to_private_message
        (react_to_private_message adaOnline (js "s1") (js "general") (js "id-1") (js "+1")).1
        (js "s1") (js "general") (js "id-1") (js "+1")).1 = adaOnline.
Proof.
  apply (reacting_twice_restores_the_state adaOnline (js "s1") (js "general")
           (js "id-1") (js "+1")).
  - exact (proj1 adaOnline_ok).
  - exact (proj2 adaOnline_ok).
Defined.

(** Ada joins "random" twice. *)
Lemma join_room_is_idempotent_witness :
  let st1 := (join_room (host := latin1) stamp1 stamp2 adaOnline (js "s1") (Some (js "random"))
                None None).1.1 in
  (join_room (host := latin1) stamp0 stamp0 st1 (js "s1") (Some (js "random")) None None).1.1 = st1.
Proof.
  refine (proj2 (join_room_is_idempotent (host := latin1) stamp1 stamp2 stamp0 stamp0 adaOnline
                   (js "s1") (js "random") None None ada sampleRandom _ _ _ _ _)).
  - vm_compute. reflexivity.
  - discriminate.
  - vm_compute. reflexivity.
  - reflexivity.
  - right. intros Hin. apply list_elem_of_singleton in Hin. discriminate Hin.
Defined.


(** A cursor that names no message of the lobby. *)
Lemma unknown_cursor_gives_latest_page_witness :
  request_room_history historyServer (js "s1") (js "general") (Some (js "m-9999"))
    (Some 30%Z)
  = request_room_history historyServer (js "s1") (js "general") None (Some 30%Z).
Proof.
  refine (proj1 (unknown_cursor_gives_latest_page historyServer (js "s1") (js "general")
                   (js "m-9999") (Some 30%Z) _)).
  intros room Hroom.
  change (Some sampleLobby = Some room) in Hroom. injection Hroom as <-.
  refine (bool_decide_unpack _ _). vm_compute. exact I.
Defined.

Lemma hundredMessages_chronological : chronological sampleGetTime hundredMessages.
Proof. refine (bool_decide_unpack _ _). vm_compute. exact I. Qed.

(** Three rounds of loading after the initial 30 messages give the client
    the 100 messages of the lobby. *)
Lemma load_more_rebuilds_the_log_witness :
  let state := Nat.iter 3 (handleLoadMore sampleGetTime historyServer (js "s1"))
                 (ensureRoomState sampleGetTime (serializeRoom sampleLobby 30)) in
  rs_messages state = List.map serializeMessage hundredMessages /\
  rs_hasMore state = false.
Proof.
  refine (proj2 (proj2 (load_more_rebuilds_the_log sampleGetTime historyServer (js "s1")
                          ada sampleLobby 3 _ _ _ _ _)) _).
  - vm_compute. reflexivity.
  - reflexivity.
  - refine (bool_decide_unpack _ _). vm_compute. exact I.
  - refine (bool_decide_unpack _ _). vm_compute. exact I.
  - exact hundredMessages_chronological.
  - vm_compute. lia.
Defined.

(** Ada writes to Grace and Grace answers. *)
Lemma a_reply_joins_the_thread_witness :
  let first := private_message canonCompare (js "2025-01-01T00:00:03.000Z") stamp0
                 adaGraceOnline (js "s1") (Some (js "Grace")) (Some (js "hi")) None in
  let reply := private_message canonCompare (js "2025-01-01T00:00:04.000Z") stamp1
                 first.1.1 (js "s2") (Some (js "Ada")) (Some (js "hello")) None in
  first.2 = AckOk (mkPrivateAck (js "id-0") (js "Ada::Grace")) /\
  reply.2 = AckOk (mkPrivateAck (js "id-1") (js "Ada::Grace")).
Proof.
  destruct (a_reply_joins_the_thread canonCompare (js "2025-01-01T00:00:03.000Z")
              (js "2025-01-01T00:00:04.000Z") stamp0 stamp1 adaGraceOnline
              (js "s1") (js "s2") ada grace (js "hi") (js "hello") None None)
    as (H1 & H2 & _).
  - exact canonCompare_antisymmetric.
  - vm_compute. discriminate.
  - vm_compute. reflexivity.
  - vm_compute. reflexivity.
  - vm_compute. reflexivity.
  - vm_compute. reflexivity.
  - discriminate.
  - discriminate.
  - discriminate.
  - discriminate.
  - vm_compute. discriminate.
  - vm_compute. discriminate.
  - exact (conj H1 H2).
Defined.

(** Ada asks to join the room named by the id of Grace's socket: she is
    acknowledged and listed among its members. *)
Lemma any_room_id_can_be_joined_witness :
  let result := join_room (host := latin1) stamp1 stamp2 adaGraceOnline (js "s1")
                  (Some (js "s2")) None None in
  (exists payload, result.2 = AckOk (js "s2", payload)) /\
  exists user room,
    users result.1.1 !! js "s1" = Some user /\
    js "s2" ∈ user_rooms user /\
    JsMap.get (js "s2") (rooms result.1.1) = Some room /\
    room_id room = js "s2" /\
    js "s1" ∈ room_members room.
Proof.
  apply (any_room_id_can_be_joined (host := latin1) canonCompare (fun _ => stamp0)
           [UserJoin draws0 (js "s1") (PayloadString (js "Ada"));
            UserJoin draws1 (js "s2") (PayloadString (js "Grace"))]
           stamp1 stamp2 (js "s1") (js "s2") None None).
  - vm_compute. by eexists.
  - discriminate.
Defined.

(** Ada, once she has joined, is a member of the lobby she lists. *)
Lemma listed_rooms_list_the_user_witness :
  user_id ada = js "s1" /\
  NoDup (user_rooms ada) /\
  forall roomId, roomId ∈ user_rooms ada ->
    exists room, JsMap.get roomId (rooms adaOnline) = Some room /\
                 room_id room = roomId /\
                 js "s1" ∈ room_members room.
Proof.
  apply (listed_rooms_list_the_user (host := latin1) canonCompare (fun _ => stamp0)
           [UserJoin draws0 (js "s1") (PayloadString (js "Ada"))] (js "s1") ada).
  vm_compute. reflexivity.
Defined.

(** ** Typing notices *)

Lemma startsWith_app (prefix rest : jsstring) : startsWith (prefix ++ rest) prefix = true.
Proof.
  induction prefix as [|c prefix IH]; simpl; [by destruct rest|].
  by rewrite N.eqb_refl.
Qed.

Lemma JsSet_add_add (x : jsstring) (s : list jsstring) :
  JsSet.add x (JsSet.add x s) = JsSet.add x s.
Proof.
  unfold JsSet.add at 1. by rewrite JsSet_has_add.
Qed.

Lemma JsSet_delete_add (x : jsstring) (s : list jsstring) :
  JsSet.delete x (JsSet.add x s) = JsSet.delete x s.
Proof.
  unfold JsSet.add, JsSet.delete, JsSet.has.
  destruct (bool_decide (x ∈ s)); [done|].
  rewrite List.filter_app. simpl.
  rewrite bool_decide_eq_true_2 by done. simpl. by rewrite app_nil_r.
Qed.

(** X20.  A typing notice that is not renewed ends as if the user had said
    so.  [typing] needs no membership of the room and changes nothing but
    the typing set of the room and the timer of the socket for that room;
    starting twice is starting once; for a user and a room that exist, the
    timer firing leaves the state and emits the list that [typing] with
    [isTyping] false would, the name then being off the list and no timer
    left under the key; and a disconnect clears the timer. *)
Theorem typing_lapses_as_it_stops (st : Timed) (socketId roomId : jsstring) :
  let started := (typing st socketId roomId true).1 in
  let key := timerKey socketId roomId in
  typing started socketId roomId true = (started, (typing st socketId roomId true).2)
  /\ (forall isTyping,
        let st' := (typing st socketId roomId isTyping).1 in
        users (server st') = users (server st) /\
        usernameToSocketId (server st') = usernameToSocketId (server st) /\
        privateThreads (server st') = privateThreads (server st) /\
        (forall k, k <> key -> typingTimers st' !! k = typingTimers st !! k) /\
        (forall k room,
           JsMap.get k (rooms (server st)) = Some room ->
           exists room',
             JsMap.get k (rooms (server st')) = Some room' /\
             room_messages room' = room_messages room /\
             room_members room' = room_members room /\
             (k <> roomId -> room' = room)))
  /\ (forall user room,
        users (server st) !! socketId = Some user ->
        JsMap.get roomId (rooms (server st)) = Some room ->
        typing_timeout started key = typing started socketId roomId false /\
        typingTimers (typing_timeout started key).1 !! key = None /\
        (exists room',
           JsMap.get roomId (rooms (server (typing_timeout started key).1)) = Some room' /\
           user_username user ∉ room_typing room') /\
        forall stamps leftAt,
          typingTimers (disconnect_timed stamps leftAt started socketId).1 !! key = None).
Proof.
  intros started key. subst started. split; [|split].
  - unfold typing at 2 3 4.
    destruct (users (server st) !! socketId) as [user|] eqn:Hu;
      [|cbn [fst snd]; unfold typing; by rewrite Hu].
    destruct (JsMap.get roomId (rooms (server st))) as [room|] eqn:Hr;
      [|cbn [fst snd]; unfold typing; by rewrite Hu, Hr].
    cbn [fst snd]. unfold typing. cbn [server typingTimers set_rooms users rooms].
    rewrite Hu, JsMap_get_set_eq.
    cbn [set_room_typing room_typing room_id room_name room_description room_createdAt
         room_createdBy room_messages room_members].
    rewrite JsSet_add_add, JsMap_set_set, insert_insert_eq. reflexivity.
  - intros isTyping st'. subst st'. unfold typing.
    destruct (users (server st) !! socketId) as [user|] eqn:Hu;
      [|repeat split; try done; intros k room Hk; by exists room].
    destruct (JsMap.get roomId (rooms (server st))) as [room|] eqn:Hr;
      [|repeat split; try done; intros k room Hk; by exists room].
    fold key.
    assert (Hrooms : forall typing' k room0,
      JsMap.get k (rooms (server st)) = Some room0 ->
      exists room',
        JsMap.get k (JsMap.set roomId (set_room_typing room typing') (rooms (server st)))
        = Some room' /\
        room_messages room' = room_messages room0 /\
        room_members room' = room_members room0 /\
        (k <> roomId -> room' = room0)).
    { intros typing' k room0 Hk. destruct (decide (k = roomId)) as [->|Hne].
      - rewrite JsMap_get_set_eq. eexists. split; [done|].
        rewrite Hr in Hk. injection Hk as <-. by repeat split.
      - rewrite JsMap_get_set_ne by done. exists room0. by repeat split. }
    destruct isTyping; cbn [fst server typingTimers set_rooms users usernameToSocketId
                            privateThreads rooms].
    + repeat split; try done; [|apply Hrooms].
      intros k Hk. by rewrite lookup_insert_ne.
    + repeat split; try done; [|apply Hrooms].
      intros k Hk. by rewrite lookup_delete_ne.
  - intros user room Hu Hr.
    assert (Hstarted :
      (typing st socketId roomId true).1
      = mkTimed
          (set_rooms (server st)
             (JsMap.set roomId
                (set_room_typing room (JsSet.add (user_username user) (room_typing room)))
                (rooms (server st))))
          (<[key := mkTypingTimer roomId (user_username user)]> (typingTimers st))).
    { unfold typing. by rewrite Hu, Hr. }
    rewrite Hstarted.
    assert (Hfire :
      typing_timeout
        (mkTimed
           (set_rooms (server st)
              (JsMap.set roomId
                 (set_room_typing room
                    (JsSet.add (user_username user) (room_typing room)))
                 (rooms (server st))))
           (<[key := mkTypingTimer roomId (user_username user)]> (typingTimers st)))
        key
      = (mkTimed
           (set_rooms (server st)
              (JsMap.set roomId
                 (set_room_typing room
                    (JsSet.delete (user_username user) (room_typing room)))
                 (rooms (server st))))
           (delete key (typingTimers st)),
         [(ToRoom roomId,
           typing_users roomId (JsSet.delete (user_username user) (room_typing room)))])).
    { unfold typing_timeout. cbn [server typingTimers set_rooms rooms].
      rewrite lookup_insert_eq. cbn [timer_roomId timer_username].
      rewrite JsMap_get_set_eq.
      cbn [set_room_typing room_typing room_id room_name room_description room_createdAt
           room_createdBy room_messages room_members].
      rewrite JsSet_delete_add, JsMap_set_set, delete_insert_eq. reflexivity. }
    rewrite Hfire. split; [|split; [|split]].
    + unfold typing. cbn [server typingTimers set_rooms users rooms].
      rewrite Hu, JsMap_get_set_eq. fold key.
      cbn [set_room_typing room_typing room_id room_name room_description room_createdAt
           room_createdBy room_messages room_members].
      rewrite JsSet_delete_add, JsMap_set_set, delete_insert_eq. reflexivity.
    + cbn [fst typingTimers]. apply lookup_delete_eq.
    + cbn [fst server set_rooms rooms]. eexists. split; [apply JsMap_get_set_eq|].
      cbn [set_room_typing room_typing]. intros Hin.
      apply JsSet_elem_of_delete in Hin. by destruct Hin.
    + intros stamps leftAt. unfold disconnect_timed.
      cbn [server typingTimers set_rooms users]. rewrite Hu.
      destruct (disconnect _ _ _ _) as [st' emits]. cbn [fst typingTimers].
      apply map_lookup_filter_None. right. intros timer _. cbn [fst].
      unfold key, timerKey. rewrite app_assoc, startsWith_app. done.
Qed.

(** ** Joining and leaving *)

Section JoinLeave.
Context `{host : Host}.



End JoinLeave.

